(** * ShowPlot: the stage-plot editor and its Express/Mongo backend

    A shallow embedding of the parts of [server.js] and of the editor
    ([src/routes/Profile.jsx], which also holds the stage builder) that the
    specification talks about, and the properties proved of them.

    - [JsString]  JavaScript strings as sequences of UTF-16 code units,
                  [String.prototype.trim].
    - [History]   the undo/redo reducer [historyReducer].
    - [Png]       the alpha sniff [detectPngHasAlpha].
    - [Editor]    node scaling on IEEE doubles: [clamp], [scaleNode], the
                  transformer and the pinch gesture.
    - [Server]    the request handlers over an explicit database state.
    - [Text]      the CSV of the input list ([parseCsvLine], [parseCsv],
                  [exportCSV]), [toSafeFilename] and the list of allowed
                  origins ([parseCorsAllowedOrigins]).
    - [Examples]  a small database and a few files to run them on.
    - [HistoryRuns]  the reducer over several actions.
    - [Nodes]     the other buttons of a node (rotation, flip, lock, label
                  and [moveLayer]), the drag, the selection and the
                  button New; the editor over all its actions.
    - [Public]    the asset download, the statistics and the feedback.
    - [MoreExamples]  cells, rows, origins and a stage to run these on.

    The definitions come first; the properties follow, in the same
    order. *)

From Stdlib Require Import Floats.
From Stdlib Require String Ascii.
From stdpp Require Import gmap list sorting.
Set Warnings "-clear-no-such-hyp,-inexact-float".
Import String.StringSyntax.
Bind Scope string_scope with String.string.

Local Open Scope N_scope.

(** ** JavaScript strings *)

Module JsString.

(** A JavaScript string is a sequence of 16-bit code units. *)
Abbreviation jsstring := (list N).

(** An ASCII literal as a JavaScript string. *)
Definition js (s : String.string) : jsstring :=
  Ascii.N_of_ascii <$> String.list_ascii_of_string s.

(** ECMAScript [WhiteSpace] and [LineTerminator] code units, the ones
    [String.prototype.trim] strips. *)
Definition is_white_space (c : N) : bool :=
  (c =? 0x09) || (c =? 0x0A) || (c =? 0x0B) || (c =? 0x0C) || (c =? 0x0D)
  || (c =? 0x20) || (c =? 0xA0) || (c =? 0x1680)
  || ((0x2000 <=? c) && (c <=? 0x200A))
  || (c =? 0x2028) || (c =? 0x2029) || (c =? 0x202F) || (c =? 0x205F)
  || (c =? 0x3000) || (c =? 0xFEFF).

Fixpoint trimStart (s : jsstring) : jsstring :=
  match s with
  | [] => []
  | c :: s' => if is_white_space c then trimStart s' else s
  end.

Definition trimEnd (s : jsstring) : jsstring :=
  reverse (trimStart (reverse s)).

(** [s.trim()] *)
Definition trim (s : jsstring) : jsstring := trimEnd (trimStart s).

(** Truthiness of a string: only the empty string is falsy. *)
Definition truthy (s : jsstring) : bool :=
  match s with [] => false | _ => true end.

(** Two ways in which names may be variants of each other.  Letter case is
    that of the ASCII letters. *)
Definition lowercase_unit (c : N) : N :=
  if (0x41 <=? c) && (c <=? 0x5A) then c + 0x20 else c.

Definition lowercase (s : jsstring) : jsstring := lowercase_unit <$> s.

Definition same_lowercase (c c' : N) : Prop :=
  lowercase_unit c = lowercase_unit c'.

Definition differ_only_in_case (a b : jsstring) : Prop :=
  a ≠ b ∧ lowercase a = lowercase b.

Definition without_white_space (s : jsstring) : jsstring :=
  filter (λ c, is_white_space c = false) s.

Definition differ_only_in_white_space (a b : jsstring) : Prop :=
  a ≠ b ∧ without_white_space a = without_white_space b.

End JsString.

Import JsString.

(** ** The undo/redo history of the editor *)

Module History.

Section Reducer.

(** [A] is the type of the values kept in the history (the node array of
    the editor).  Its decidable equality stands for JavaScript's [===] on
    those values. *)
Context {A : Type} `{EqDecision A}.

Record state := State { past : list A; present : A; future : list A }.

(** [action.updater] is either a function of the present or a plain value. *)
Inductive updater :=
  | UpdFun (f : A → A)
  | UpdVal (v : A).

Inductive action :=
  | ASet (u : updater)
  | AUndo
  | ARedo
  | AReset (value : A)
  | AOther.

Definition limit : nat := 50.

Definition apply_updater (u : updater) (p : A) : A :=
  match u with
  | UpdFun f => f p
  | UpdVal v => v
  end.

Definition historyReducer (s : state) (a : action) : state :=
  match a with
  | ASet u =>
      let next := apply_updater u (present s) in
      if decide (next = present s) then s
      else
        (* state.past.length >= limit ? state.past.slice(1) : state.past *)
        let past' := if bool_decide (limit ≤ length (past s))%nat
                     then drop 1 (past s) else past s in
        State (past' ++ [present s]) next []
  | AUndo =>
      (* if (!state.past.length) return state
         previous = state.past[state.past.length - 1] *)
      match last (past s) with
      | None => s
      | Some previous =>
          (* state.past.slice(0, -1) *)
          State (take (length (past s) - 1) (past s)) previous
                (present s :: future s)
      end
  | ARedo =>
      (* if (!state.future.length) return state
         next = state.future[0]; state.future.slice(1) *)
      match future s with
      | [] => s
      | next :: rest => State (past s ++ [present s]) next rest
      end
  | AReset v => State [] v []
  | AOther => s
  end.

(** [useHistoryState]: the initial state and the two flags it exposes. *)
Definition initial (v : A) : state := State [] v [].
Definition canUndo (s : state) : bool := bool_decide (0 < length (past s))%nat.
Definition canRedo (s : state) : bool := bool_decide (0 < length (future s))%nat.

End Reducer.

Arguments state : clear implicits.
Arguments updater : clear implicits.
Arguments action : clear implicits.

End History.

(** ** The PNG alpha sniff *)

Module Png.

(** A Node [Buffer]: a sequence of octets. *)
Abbreviation buffer := (list Byte.byte).

#[export] Instance byte_eq_dec : EqDecision Byte.byte := Byte.byte_eq_dec.

(** A buffer written down as a list of numbers (each below 256). *)
Definition bytes (l : list N) : buffer :=
  (λ n, default Byte.x00 (Byte.of_N n)) <$> l.

(** [buffer.length] *)
Definition blen (b : buffer) : N := N.of_nat (length b).

(** [buffer[i]]: [undefined] ([None]) out of range. *)
Definition at_ (b : buffer) (i : N) : option N :=
  Byte.to_N <$> b !! N.to_nat i.

(** [buffer.subarray(s, e)]: the view is cut to the buffer. *)
Definition subarray (b : buffer) (s e : N) : buffer :=
  take (N.to_nat e - N.to_nat s)%nat (drop (N.to_nat s) b).

(** [buffer.readUInt32BE(offset)]; [None] is the [RangeError] Node throws
    when the four octets are not all inside the buffer. *)
Definition readUInt32BE (b : buffer) (offset : N) : option N :=
  match at_ b offset, at_ b (offset + 1), at_ b (offset + 2), at_ b (offset + 3) with
  | Some b0, Some b1, Some b2, Some b3 =>
      Some (b0 * 2 ^ 24 + b1 * 2 ^ 16 + b2 * 2 ^ 8 + b3)
  | _, _, _, _ => None
  end.

(** [buffer.toString('ascii')]: Node decodes 'ascii' by clearing the top
    bit of every octet and reading the result as Latin-1. *)
Definition toString_ascii (b : buffer) : jsstring :=
  (λ x, N.land (Byte.to_N x) 0x7f) <$> b.

Definition signature : buffer :=
  bytes [0x89; 0x50; 0x4e; 0x47; 0x0d; 0x0a; 0x1a; 0x0a].

(** [colorType === 4 || colorType === 6], on a possibly undefined octet. *)
Definition is_alpha_color_type (colorType : option N) : bool :=
  bool_decide (colorType = Some 4) || bool_decide (colorType = Some 6).

(** The [while] loop of [detectPngHasAlpha], one iteration per unit of
    fuel.  [Some r] is [return r] (leaving the loop returns [false]);
    [None] is an exception, or the fuel running out. *)
Fixpoint scan (fuel : nat) (b : buffer) (offset : N) : option bool :=
  match fuel with
  | O => None
  | S fuel' =>
      if negb (offset + 12 <=? blen b) then Some false
      else
        match readUInt32BE b offset with
        | None => None
        | Some length =>
            let type := toString_ascii (subarray b (offset + 4) (offset + 8)) in
            let dataStart := offset + 8 in
            let dataEnd := dataStart + length in
            if blen b <? dataEnd + 4 then Some false
            else if bool_decide (type = js "IHDR") && (13 <=? length)
                    && is_alpha_color_type (at_ b (dataStart + 9))
            then Some true
            else if bool_decide (type = js "tRNS") then Some true
            else if bool_decide (type = js "IEND") then Some false
            else scan fuel' b (dataEnd + 4)
        end
  end.

(** [detectPngHasAlpha(buffer)] for a [Buffer] argument.  Every iteration
    moves the offset at least 12 octets on, so [length b] iterations are
    more than the loop can take. *)
Definition detectPngHasAlpha (b : buffer) : option bool :=
  if blen b <? 24 then Some false
  else if negb (bool_decide (subarray b 0 8 = signature)) then Some false
  else scan (length b) b 8.

(** Fuel that covers the rest of the buffer at 12 octets an iteration. *)
Definition enough_fuel (fuel : nat) (b : buffer) (offset : N) : Prop :=
  offset ≤ blen b ∧ blen b + 12 ≤ offset + 12 * N.of_nat fuel.

(** *** The scan as the specification words it *)

Section Spec.

(** How the four type octets of a chunk are matched against a chunk name. *)
Variable tag_is : buffer → String.string → bool.

(** A whole chunk (length, type, data, CRC) lies in the buffer at [offset]
    and its length field reads [length]. *)
Definition chunk_at (b : buffer) (offset length : N) : Prop :=
  offset + 12 ≤ blen b
  ∧ readUInt32BE b offset = Some length
  ∧ offset + 8 + length + 4 ≤ blen b.

(** The chunk at [offset] tells of transparency: an IHDR of length at least
    13 with color type 4 or 6, or a tRNS. *)
Definition signals_alpha (b : buffer) (offset length : N) : Prop :=
  (tag_is (subarray b (offset + 4) (offset + 8)) "IHDR" = true
   ∧ 13 ≤ length
   ∧ (at_ b (offset + 8 + 9) = Some 4 ∨ at_ b (offset + 8 + 9) = Some 6))
  ∨ tag_is (subarray b (offset + 4) (offset + 8)) "tRNS" = true.

(** The sequential scan from [offset] meets such a chunk before it meets an
    IEND or a chunk that runs past the end of the buffer. *)
Inductive scan_finds (b : buffer) : N → Prop :=
  | found_here offset length :
      chunk_at b offset length →
      signals_alpha b offset length →
      scan_finds b offset
  | found_later offset length :
      chunk_at b offset length →
      tag_is (subarray b (offset + 4) (offset + 8)) "IEND" = false →
      scan_finds b (offset + 8 + length + 4) →
      scan_finds b offset.

Definition has_alpha_spec (b : buffer) : Prop :=
  24 ≤ blen b ∧ subarray b 0 8 = signature ∧ scan_finds b 8.

End Spec.

(** The type octets are exactly the ASCII letters of the name. *)
Definition tag_exact (t : buffer) (name : String.string) : bool :=
  bool_decide (Byte.to_N <$> t = js name).

(** The type octets read as the name once decoded as 'ascii'. *)
Definition tag_ascii (t : buffer) (name : String.string) : bool :=
  bool_decide (toString_ascii t = js name).

End Png.

(** ** Node scaling in the stage builder *)

Module Editor.

(** JavaScript numbers are IEEE 754 binary64 values, and so are Rocq's
    primitive floats: [*], [/], [Math.sqrt] and the comparisons below are
    the same operations. *)
Local Open Scope float_scope.

(** [Math.min(a, b)] and [Math.max(a, b)]: NaN if either argument is NaN;
    of the two zeros, -0 is the smaller. *)
Definition Math_min (a b : float) : float :=
  if PrimFloat.is_nan a || PrimFloat.is_nan b then nan
  else if a <? b then a
  else if b <? a then b
  else if PrimFloat.get_sign a then a else b.

Definition Math_max (a b : float) : float :=
  if PrimFloat.is_nan a || PrimFloat.is_nan b then nan
  else if a <? b then b
  else if b <? a then a
  else if PrimFloat.get_sign a then b else a.

Definition clamp (n min max : float) : float :=
  Math_max min (Math_min max n).

(** [x || d] on numbers: 0, -0 and NaN are falsy. *)
Definition or_else (x d : float) : float :=
  if PrimFloat.is_zero x || PrimFloat.is_nan x then d else x.

(** The scale interval of the editor. *)
Definition scale_in_range (x : float) : bool :=
  (0.25 <=? x) && (x <=? 4).

Section Stage.

(** Library assets and the input-list profile attached to a node; the
    default profile of an asset comes from the channel list. *)
Variables (asset profile : Type).
Variable asset_id : asset → jsstring.
Variable getDefaultProfile : asset → profile.
(** [Math.atan2] *)
Variable atan2 : float → float → float.

Record node := Node {
  id : jsstring;
  type_ : jsstring;
  assetId : jsstring;
  x : float;
  y : float;
  rotation : float;
  scale : float;
  label : jsstring;
  flipX : bool;
  locked : bool;
  node_profile : profile;
}.

Definition set_scale (n : node) (s : float) : node :=
  Node (id n) (type_ n) (assetId n) (x n) (y n) (rotation n) s
       (label n) (flipX n) (locked n) (node_profile n).

Definition set_scale_rotation (n : node) (s r : float) : node :=
  Node (id n) (type_ n) (assetId n) (x n) (y n) r s
       (label n) (flipX n) (locked n) (node_profile n).

Record touch := Touch { clientX : float; clientY : float }.

(** [touchGestureRef.current] *)
Record gesture := Gesture {
  dist : float;
  angle : float;
  startScale : float;
  startRotation : float;
  nodeId : jsstring;
}.

(** What the handlers below read and write: the node array (the present of
    the history), the selection and the gesture ref. *)
Record editor := Editor {
  nodes : list node;
  selectedId : option jsstring;
  touchGesture : option gesture;
}.

Definition initial : editor := Editor [] None None.

(** [nodes.find((n) => n.id === selectedId) || null] *)
Definition selectedNode (e : editor) : option node :=
  match selectedId e with
  | None => None
  | Some sid => find (λ n, bool_decide (id n = sid)) (nodes e)
  end.

(** [addNodeAt(asset, x, y)], [new_id] being the value of [uid()]. *)
Definition addNodeAt (a : asset) (px py : float) (new_id : jsstring)
    (e : editor) : editor :=
  Editor (nodes e ++ [Node new_id (js "asset") (asset_id a) px py 0 1 []
                           false false (getDefaultProfile a)])
         (Some new_id) (touchGesture e).

(** [scaleNode(nodeId, factor)] *)
Definition scaleNode (target : jsstring) (factor : float) (e : editor) : editor :=
  Editor ((λ n, if bool_decide (id n = target)
                then set_scale n (clamp (or_else (scale n) 1 * factor) 0.25 4)
                else n) <$> nodes e)
         (selectedId e) (touchGesture e).

(** The stage's [onTouchStart]: [onStagePointerDown] clears the selection
    when the touch lands on the stage itself, then [onStageTouchStart]
    runs, with the [selectedNode] of the current render. *)
Definition onStageTouchStart (on_stage : bool) (touches : list touch)
    (e : editor) : editor :=
  let selectedId' := if on_stage then None else selectedId e in
  match touches !! 0%nat, touches !! 1%nat with
  | Some touch1, Some touch2 =>
      match selectedNode e with
      | None => Editor (nodes e) selectedId' (touchGesture e)
      | Some sel =>
          let dx := clientX touch2 - clientX touch1 in
          let dy := clientY touch2 - clientY touch1 in
          Editor (nodes e) selectedId'
            (Some (Gesture (PrimFloat.sqrt (dx * dx + dy * dy)) (atan2 dy dx)
                           (or_else (scale sel) 1) (or_else (rotation sel) 0)
                           (id sel)))
      end
  | _, _ => Editor (nodes e) selectedId' None
  end.

Definition Math_PI : float := 3.141592653589793.

(** [onStageTouchMove] *)
Definition onStageTouchMove (touches : list touch) (e : editor) : editor :=
  match touchGesture e with
  | None => e
  | Some g =>
      match touches !! 0%nat, touches !! 1%nat with
      | Some touch1, Some touch2 =>
          let dx := clientX touch2 - clientX touch1 in
          let dy := clientY touch2 - clientY touch1 in
          let dist' := PrimFloat.sqrt (dx * dx + dy * dy) in
          let angle' := atan2 dy dx in
          let scale' := clamp (startScale g * (dist' / dist g)) 0.25 4 in
          let rotation' := startRotation g + ((angle' - angle g) * 180) / Math_PI in
          Editor ((λ n, if bool_decide (id n = nodeId g)
                        then set_scale_rotation n scale' rotation'
                        else n) <$> nodes e)
                 (selectedId e) (touchGesture e)
      | _, _ => e
      end
  end.

(** [deleteNode(nodeId)] *)
Definition deleteNode (target : jsstring) (e : editor) : editor :=
  Editor (filter (λ n, id n ≠ target) (nodes e))
         (if bool_decide (selectedId e = Some target) then None
          else selectedId e)
         (touchGesture e).

(** The duplicate button of the node [target]: a copy, 24 pixels down and
    right, under the id [new_id] (the value of [uid()]), which is selected
    whether or not the node was still there to copy. *)
Definition duplicateNode (target new_id : jsstring) (e : editor) : editor :=
  Editor (match find (λ n, bool_decide (id n = target)) (nodes e) with
          | None => nodes e
          | Some src =>
              nodes e ++ [Node new_id (type_ src) (assetId src)
                               (or_else (x src) 0 + 24) (or_else (y src) 0 + 24)
                               (rotation src) (scale src) (label src)
                               (flipX src) (locked src) (node_profile src)]
          end)
         (Some new_id) (touchGesture e).

(** [onTransformEnd] of the node [target], the transformer reporting the
    horizontal scale [scaleX] and the rotation [rotation']: nothing for a
    locked node, else the patch [{ scale, rotation, flipX }]. *)
Definition onTransformEnd (target : jsstring) (scaleX rotation' : float)
    (e : editor) : editor :=
  match find (λ n, bool_decide (id n = target)) (nodes e) with
  | None => e
  | Some shown =>
      if locked shown then e
      else
        let nextFlipX := scaleX <? 0 in
        let nextScale := clamp (PrimFloat.abs scaleX) 0.25 4 in
        Editor ((λ n, if bool_decide (id n = target)
                      then Node (id n) (type_ n) (assetId n) (x n) (y n)
                                rotation' nextScale (label n) nextFlipX
                                (locked n) (node_profile n)
                      else n) <$> nodes e)
               (selectedId e) (touchGesture e)
  end.

(** [loadPlot], once the server has answered: the nodes of the saved plot
    ([loaded.state], or none if that is no array) become the editor's, as
    they are, and nothing is selected. *)
Definition loadPlot (loaded : list node) (e : editor) : editor :=
  Editor loaded None (touchGesture e).

(** A scale that is a number lies in the interval. *)
Definition scale_ok (n : node) : Prop :=
  PrimFloat.is_nan (scale n) = false → scale_in_range (scale n) = true.

(** The events of the editor that create or remove nodes or write a
    scale. *)
Inductive event :=
  | AddNode (a : asset) (px py : float) (new_id : jsstring)
  | DeleteNode (target : jsstring)
  | DuplicateNode (target new_id : jsstring)
  | ScaleUp (target : jsstring)
  | ScaleDown (target : jsstring)
  | TransformEnd (target : jsstring) (scaleX rotation' : float)
  | TouchStart (on_stage : bool) (touches : list touch)
  | TouchMove (touches : list touch)
  | LoadPlot (loaded : list node).

Definition handle (e : editor) (ev : event) : editor :=
  match ev with
  | AddNode a px py new_id => addNodeAt a px py new_id e
  | DeleteNode target => deleteNode target e
  | DuplicateNode target new_id => duplicateNode target new_id e
  | ScaleUp target => scaleNode target 1.12 e
  | ScaleDown target => scaleNode target (1 / 1.12) e
  | TransformEnd target scaleX rotation' => onTransformEnd target scaleX rotation' e
  | TouchStart on_stage touches => onStageTouchStart on_stage touches e
  | TouchMove touches => onStageTouchMove touches e
  | LoadPlot loaded => loadPlot loaded e
  end.

(** The events in which the editor works on its own nodes: all but the
    loading of a saved plot. *)
Definition own_event (ev : event) : bool :=
  match ev with
  | LoadPlot _ => false
  | _ => true
  end.

(** The editor after a sequence of events, from the empty stage. *)
Definition run (evs : list event) : editor := foldl handle initial evs.

End Stage.

End Editor.

(** ** The backend: collections, middleware and request handlers *)

Module Server.

(** A Mongo [ObjectId]. *)
Abbreviation oid := N.

(** *** Documents *)

Record user := User {
  googleSub : jsstring;
  email : jsstring;
  user_name : jsstring;
  picture : jsstring;
}.

(** [metadata: { contentType, hasAlpha }]; [hasAlpha] may be [undefined]. *)
Record metadata := Metadata {
  contentType : jsstring;
  hasAlpha : option bool;
}.

(** [assetSchema].  (The timestamps of assets are left out: only the asset
    listings, which are not modelled, read them.) *)
Record asset := Asset {
  asset_name : jsstring;
  asset_category : jsstring;
  asset_section : jsstring;
  fileId : oid;
  asset_metadata : metadata;
}.

(** A file of the GridFS bucket [assets]. *)
Record file := File {
  filename : jsstring;
  file_contentType : jsstring;
  file_data : Png.buffer;
}.

(** An entry of [taxonomySchema.categories]. *)
Record category := Category {
  category_name : jsstring;
  sections : list jsstring;
}.

(** *** What is said of a taxonomy *)

(** Category names are unique, and so are the section names of each
    category. *)
Definition tax_unique (cats : list category) : Prop :=
  NoDup (category_name <$> cats) ∧ Forall (λ c, NoDup (sections c)) cats.

Definition tax_inv (t : option (list category)) : Prop :=
  from_option tax_unique True t.

(** An entry keeps its name and its sections, in their order; sections may
    have been appended. *)
Definition category_extends (c c' : category) : Prop :=
  category_name c' = category_name c ∧ sections c `prefix_of` sections c'.

(** Every entry is still there, at its index, extended; entries may have
    been appended. *)
Definition cats_extend (cats cats' : list category) : Prop :=
  ∃ kept added, cats' = kept ++ added ∧ Forall2 category_extends cats kept.

(** The document is not removed, and its categories only grow. *)
Definition tax_extends (t t' : option (list category)) : Prop :=
  match t, t' with
  | None, _ => True
  | Some cats, Some cats' => cats_extend cats cats'
  | Some _, None => False
  end.

(** What a handler may do to the taxonomy. *)
Definition tax_step (t t' : option (list category)) : Prop :=
  tax_inv t → tax_inv t' ∧ tax_extends t t'.

(** The document holds two different entries, named [na] and [nb]. *)
Definition two_entries (na nb : jsstring) (t : option (list category)) : Prop :=
  ∃ cats i j ca cb,
    t = Some cats ∧ i ≠ j
    ∧ cats !! i = Some ca ∧ category_name ca = na
    ∧ cats !! j = Some cb ∧ category_name cb = nb.

Section Plots.

(** The elements of [state] as the database holds them and the records of
    the legacy [inputs] array.  The element declaration of [state] in
    [stagePlotSchema] has a key named [type], so Mongoose reads it as the
    declaration of an array of [String]: a stored element is a string (or
    null), not a node record. *)
Context {stored input : Type}.

(** [stagePlotSchema], with the two timestamps Mongoose maintains. *)
Record plot := Plot {
  userId : oid;
  plot_name : jsstring;
  state : list stored;
  inputs : list input;
  createdAt : N;
  updatedAt : N;
}.

(** *** The database *)

(** [connected]: [mongoose.connection.readyState === 1]; [bucket]: the
    GridFS bucket has been set up; [taxonomy]: the document
    [Taxonomy.findOne({})] finds, if there is one. *)
Record db := Db {
  connected : bool;
  bucket : bool;
  users : gmap oid user;
  assets : gmap oid asset;
  files : gmap oid file;
  taxonomy : option (list category);
  plots : gmap oid plot;
}.

Definition set_assets (f : gmap oid asset → gmap oid asset) (d : db) : db :=
  Db (connected d) (bucket d) (users d) (f (assets d)) (files d) (taxonomy d) (plots d).
Definition set_files (f : gmap oid file → gmap oid file) (d : db) : db :=
  Db (connected d) (bucket d) (users d) (assets d) (f (files d)) (taxonomy d) (plots d).
Definition set_taxonomy (f : option (list category) → option (list category)) (d : db) : db :=
  Db (connected d) (bucket d) (users d) (assets d) (files d) (f (taxonomy d)) (plots d).
Definition set_plots (f : gmap oid plot → gmap oid plot) (d : db) : db :=
  Db (connected d) (bucket d) (users d) (assets d) (files d) (taxonomy d) (f (plots d)).

(** *** Responses *)

(** One entry of the plot listing. *)
Record plot_summary := PlotSummary {
  summary_id : oid;
  summary_name : jsstring;
  summary_updatedAt : N;
  summary_createdAt : N;
}.

Inductive body :=
  | BError (msg : jsstring)          (* { error: msg } *)
  | BUncaught                        (* Express's own error page *)
  | BOk                              (* { ok: true } *)
  | BId (id : oid)                   (* { _id } *)
  | BPlot (id : oid) (name : jsstring) (st : list stored) (inp : list input)
          (created updated : N)
  | BPlots (l : list plot_summary)
  | BAsset (id : oid) (a : asset)
  | BTaxonomy (cats : list category).

Record response := Response { status : N; resp_body : body }.

Definition error (code : N) (msg : String.string) : response :=
  Response code (BError (js msg)).

(** An error passed to [next], or thrown by an [async] handler with no
    [try]: Express answers 500 itself. *)
Definition uncaught : response := Response 500 BUncaught.

(** *** The handlers, and what they take from the libraries *)

Section Handlers.

(** Mongoose's cast of a string to an [ObjectId], which a query applies to
    the [_id] it is given; where the cast fails the query throws a
    [CastError]. *)
Variable castObjectId : jsstring → option oid.

(** [mongoose.isValidObjectId(s)]: whether Mongoose can cast [s] to an
    [ObjectId]. *)
Definition isValidObjectId (s : jsstring) : bool :=
  bool_decide (is_Some (castObjectId s)).

(** Whether an object pushed onto a Mongoose document array is still the
    very object the array holds ([true], as for a plain array), or the
    array holds a subdocument cast from it ([false]), so that later writes
    to the pushed object do not reach the document. *)
Variable push_aliases : bool.

(** Whether multer's [limits.fileSize] already cuts off a file of exactly
    that many octets ([true]) or only a longer one ([false]). *)
Variable reject_at_limit : bool.

(** *** Middleware *)

(** [isDbReady()] *)
Definition isDbReady (d : db) : bool := connected d && bucket d.

(** [requireAuth]: [session] is the [uid] of the verified session token,
    if the request carries one; the handler runs with [req.user._id]. *)
Definition requireAuth (session : option oid) (d : db)
    (next : oid → db * response) : db * response :=
  match session with
  | None => (d, error 401 "Unauthorized")
  | Some uid =>
      match users d !! uid with
      | None => (d, error 401 "Unauthorized")
      | Some _ => next uid
      end
  end.

(** *** Taxonomy *)

(** [normalizeName(value)] = [String(value || '').trim()], for a value that
    is a string or missing. *)
Definition normalizeName (value : option jsstring) : jsstring :=
  trim (default [] value).

(** [if (!sections.includes(s)) sections.push(s)] on an entry. *)
Definition add_section (s : jsstring) (c : category) : category :=
  if bool_decide (s ∈ sections c) then c
  else Category (category_name c) (sections c ++ [s]).

(** [doc.categories.find((c) => c?.name === name)], with its index. *)
Definition find_category (name : jsstring) (cats : list category)
    : option (nat * category) :=
  list_find (λ c, category_name c = name) cats.

(** [upsertTaxonomyCategorySection(categoryRaw, sectionRaw)], as a function
    of the taxonomy document. *)
Definition upsertTaxonomyCategorySection (categoryRaw sectionRaw : jsstring)
    (tax : option (list category)) : option (list category) :=
  let category := normalizeName (Some categoryRaw) in
  let section := normalizeName (Some sectionRaw) in
  if negb (truthy category) && negb (truthy section) then tax
  else
    match tax with
    | None =>
        Some (if truthy category
              then [Category category (if truthy section then [section] else [])]
              else [])
    | Some cats =>
        if truthy category then
          match find_category category cats with
          | Some (i, _) =>
              if truthy section then Some (alter (add_section section) i cats)
              else Some cats
          | None =>
              (* the entry is pushed with no sections; the section then goes
                 to the pushed object *)
              Some (cats ++ [Category category
                               (if truthy section && push_aliases
                                then [section] else [])])
          end
        else Some cats
    end.

(** [GET /api/admin/taxonomy], through [getOrCreateTaxonomy]. *)
Definition get_taxonomy (d : db) : db * response :=
  match taxonomy d with
  | Some cats => (d, Response 200 (BTaxonomy cats))
  | None => (set_taxonomy (λ _, Some []) d, Response 200 (BTaxonomy []))
  end.

(** [POST /api/admin/taxonomy/categories] *)
Definition post_category (name_raw : option jsstring) (d : db) : db * response :=
  let name := normalizeName name_raw in
  if negb (truthy name) then (d, error 400 "Missing category name")
  else
    match taxonomy d with
    | None =>
        let cats := [Category name []] in
        (set_taxonomy (λ _, Some cats) d, Response 201 (BTaxonomy cats))
    | Some cats =>
        if existsb (λ c, bool_decide (category_name c = name)) cats
        then (d, Response 201 (BTaxonomy cats))
        else
          let cats' := cats ++ [Category name []] in
          (set_taxonomy (λ _, Some cats') d, Response 201 (BTaxonomy cats'))
    end.

(** [POST /api/admin/taxonomy/sections] *)
Definition post_section (category_raw name_raw : option jsstring) (d : db)
    : db * response :=
  let category := normalizeName category_raw in
  let name := normalizeName name_raw in
  if negb (truthy category) then (d, error 400 "Missing category")
  else if negb (truthy name) then (d, error 400 "Missing section name")
  else
    match taxonomy d with
    | None =>
        let cats := [Category category [name]] in
        (set_taxonomy (λ _, Some cats) d, Response 201 (BTaxonomy cats))
    | Some cats =>
        match find_category category cats with
        | Some (i, entry) =>
            if bool_decide (name ∈ sections entry)
            then (d, Response 201 (BTaxonomy cats))
            else
              let cats' := alter (add_section name) i cats in
              (set_taxonomy (λ _, Some cats') d, Response 201 (BTaxonomy cats'))
        | None =>
            (* pushed with no sections; the name goes to the pushed object,
               and the document is saved *)
            let cats' := cats ++ [Category category
                                    (if push_aliases then [name] else [])] in
            (set_taxonomy (λ _, Some cats') d, Response 201 (BTaxonomy cats'))
        end
    end.

(** *** Assets *)

(** [req.file] as multer's memory storage hands it over. *)
Record upfile := Upfile {
  originalname : jsstring;
  mimetype : jsstring;
  buffer : Png.buffer;
}.

(** The text fields of the multipart form. *)
Record upload_fields := UploadFields {
  field_name : option jsstring;
  field_category : option jsstring;
  field_section : option jsstring;
}.

(** [limits.fileSize] *)
Definition fileSize : N := 2 * 1024 * 1024.

(** [fileFilter]: [isAllowed] *)
Definition fileFilter (f : upfile) : bool :=
  bool_decide (mimetype f = js "image/png")
  || bool_decide (mimetype f = js "image/svg+xml")
  || bool_decide (mimetype f = js "image/x-png").

Definition over_limit (size : N) : bool :=
  if reject_at_limit then fileSize <=? size else fileSize <? size.

(** [upload.single('file')]: an error for [next], or [req.file]. *)
Definition upload_single (f : option upfile) : String.string + option upfile :=
  match f with
  | None => inr None
  | Some f =>
      if negb (fileFilter f) then inl ("Only SVG/PNG uploads are allowed" : String.string)
      else if over_limit (Png.blen (buffer f)) then inl ("File too large" : String.string)
      else inr (Some f)
  end.

Definition is_png (f : upfile) : bool :=
  bool_decide (mimetype f = js "image/png")
  || bool_decide (mimetype f = js "image/x-png").

(** [POST /api/admin/assets]; [newFileId] is the id of the GridFS upload
    stream and [newAssetId] the [_id] of the created asset. *)
Definition post_asset (newFileId newAssetId : oid) (f : option upfile)
    (fields : upload_fields) (d : db) : db * response :=
  match upload_single f with
  | inl _ => (d, uncaught)
  | inr None => (d, error 400 "Missing upload file")
  | inr (Some f) =>
      let name := default [] (field_name fields) in
      let category := default [] (field_category fields) in
      let section := default [] (field_section fields) in
      if negb (bucket d) then (d, error 503 "Storage not ready")
      else
        let d1 := set_files
                    <[newFileId := File (originalname f) (mimetype f) (buffer f)]> d in
        match (if is_png f then Some <$> Png.detectPngHasAlpha (buffer f)
               else Some None) with
        | None => (d1, error 500 "Upload failed")
        | Some alpha =>
            let name' := if truthy name then name else originalname f in
            (* [name] is required by the schema *)
            if negb (truthy name')
            then (d1, error 500 "Asset validation failed: name: Path `name` is required.")
            else
              let a := Asset name' category section newFileId
                             (Metadata (mimetype f) alpha) in
              let d2 := set_assets <[newAssetId := a]> d1 in
              let d3 := set_taxonomy
                          (upsertTaxonomyCategorySection category section) d2 in
              (d3, Response 201 (BAsset newAssetId a))
        end
  end.

(** The JSON body of a patch: a field is [Some] when it is a string. *)
Record patch_fields := PatchFields {
  patch_name : option jsstring;
  patch_category : option jsstring;
  patch_section : option jsstring;
}.

(** [PATCH /api/admin/assets/:id] *)
Definition patch_asset (id : jsstring) (patch : patch_fields) (d : db)
    : db * response :=
  match castObjectId id with
  | None => (d, uncaught)
  | Some o =>
      match assets d !! o with
      | None => (d, error 404 "Asset not found")
      | Some a =>
          let updated :=
            Asset (default (asset_name a) (patch_name patch))
                  (default (asset_category a) (patch_category patch))
                  (default (asset_section a) (patch_section patch))
                  (fileId a) (asset_metadata a) in
          let d1 := set_assets <[o := updated]> d in
          let d2 := set_taxonomy
                      (upsertTaxonomyCategorySection
                         (default (asset_category updated) (patch_category patch))
                         (default (asset_section updated) (patch_section patch)))
                      d1 in
          (d2, Response 200 (BAsset o updated))
      end
  end.

(** [DELETE /api/admin/assets/:id]; an error of [bucket.delete] (the file
    is not there) is swallowed. *)
Definition delete_asset (id : jsstring) (d : db) : db * response :=
  match castObjectId id with
  | None => (d, uncaught)
  | Some o =>
      match assets d !! o with
      | None => (d, error 404 "Asset not found")
      | Some a =>
          let d1 := set_assets (delete o) d in
          let d2 := if bucket d1 then set_files (delete (fileId a)) d1 else d1 in
          (d2, Response 200 BOk)
      end
  end.

(** *** Plots *)

(** [p.name || 'Untitled'] *)
Definition or_untitled (name : jsstring) : jsstring :=
  if truthy name then name else js "Untitled".

Definition summarize (ip : oid * plot) : plot_summary :=
  PlotSummary ip.1 (or_untitled (plot_name ip.2)) (updatedAt ip.2) (createdAt ip.2).

(** [.sort({ updatedAt: -1 })]: the later update first. *)
Definition later_first (a b : oid * plot) : Prop :=
  (updatedAt b.2 ≤ updatedAt a.2)%N.

#[export] Instance later_first_dec : RelDecision later_first.
Proof. intros a b. unfold later_first. apply _. Defined.

(** [GET /api/plots] *)
Definition get_plots (session : option oid) (d : db) : db * response :=
  requireAuth session d (λ uid,
    let found := filter (λ ip, userId ip.2 = uid) (map_to_list (plots d)) in
    (d, Response 200 (BPlots (summarize <$> merge_sort later_first found)))).

(** The elements of the [state] array of a request: any JSON values; the
    editor sends its node records. *)
Context {node : Type}.

(** Mongoose's cast of an element of [state] to [String], the element type
    the schema declares: a string stays, a number becomes its digits, and a
    plain object, as a node record is, cannot be cast ([None], a
    [CastError]). *)
Variable castString : node → option stored.

(** The cast of the whole array, which fails where an element does. *)
Definition cast_state (state : list node) : option (list stored) :=
  mapM castString state.

(** The JSON body of a save: [save_state] is [Some] when [state] is an
    array, [save_name] and [save_plotId] when they are strings. *)
Record save_fields := SaveFields {
  save_state : option (list node);
  save_name : option jsstring;
  save_plotId : option jsstring;
}.

(** [StagePlot.findOne({ _id, userId })] *)
Definition find_plot (o uid : oid) (d : db) : option plot :=
  match plots d !! o with
  | Some p => if bool_decide (userId p = uid) then Some p else None
  | None => None
  end.

(** [POST /api/plots]; [now] is the time of the write and [newId] the
    [_id] given to a created plot.  [findOneAndUpdate] casts the filter and
    the update before it sends the query, and [create] casts and validates
    the document before it is saved: where [state] cannot be cast either
    throws, nothing is written, and Express answers. *)
Definition post_plots (now : N) (newId : oid) (session : option oid)
    (fields : save_fields) (d : db) : db * response :=
  requireAuth session d (λ uid,
    let state := default [] (save_state fields) in
    let name := default [] (trim <$> save_name fields) in
    let plotId := default [] (trim <$> save_plotId fields) in
    if truthy plotId then
      if negb (isValidObjectId plotId) then (d, error 400 "Invalid plot id")
      else
        match castObjectId plotId, cast_state state with
        | Some o, Some state' =>
            match find_plot o uid d with
            | None => (d, error 404 "Plot not found")
            | Some p =>
                (* { $set: { state, name } } *)
                let p' := Plot (userId p) name state' (inputs p) (createdAt p) now in
                (set_plots <[o := p']> d, Response 200 (BId o))
            end
        | _, _ => (d, uncaught)
        end
    else
      match cast_state state with
      | Some state' =>
          let p := Plot uid name state' [] now now in
          (set_plots <[newId := p]> d, Response 201 (BId newId))
      | None => (d, uncaught)
      end).

(** [GET /api/plots/:id] *)
Definition get_plot (session : option oid) (id : jsstring) (d : db)
    : db * response :=
  requireAuth session d (λ uid,
    if negb (isValidObjectId id) then (d, error 400 "Invalid plot id")
    else
      match castObjectId id with
      | None => (d, uncaught)
      | Some o =>
          match find_plot o uid d with
          | None => (d, error 404 "Plot not found")
          | Some p =>
              (d, Response 200 (BPlot o (or_untitled (plot_name p)) (state p)
                                      (inputs p) (createdAt p) (updatedAt p)))
          end
      end).

(** *** The API *)

Inductive call :=
  | PostAsset (newFileId newAssetId : oid) (f : option upfile)
              (fields : upload_fields)
  | PatchAsset (id : jsstring) (patch : patch_fields)
  | DeleteAsset (id : jsstring)
  | GetTaxonomy
  | PostCategory (name : option jsstring)
  | PostSection (category name : option jsstring)
  | GetPlots (session : option oid)
  | PostPlots (now : N) (newId : oid) (session : option oid)
              (fields : save_fields)
  | GetPlot (session : option oid) (id : jsstring).

Definition route (c : call) (d : db) : db * response :=
  match c with
  | PostAsset newFileId newAssetId f fields =>
      post_asset newFileId newAssetId f fields d
  | PatchAsset id patch => patch_asset id patch d
  | DeleteAsset id => delete_asset id d
  | GetTaxonomy => get_taxonomy d
  | PostCategory name => post_category name d
  | PostSection category name => post_section category name d
  | GetPlots session => get_plots session d
  | PostPlots now newId session fields => post_plots now newId session fields d
  | GetPlot session id => get_plot session id d
  end.

(** A request under [/api]: the readiness gate, then the route. *)
Definition api (d : db) (c : call) : db * response :=
  if negb (isDbReady d)
  then (d, error 503 "Database not connected. If using MongoDB Atlas, ensure your current IP is allowed in Network Access.")
  else route c d.

(** The database after a sequence of requests. *)
Definition serve (d : db) (cs : list call) : db :=
  foldl (λ d c, (api d c).1) d cs.

End Handlers.

End Plots.

End Server.

(** ** Text: CSV lines, file names, lists of origins *)

Module Text.

(** [a.join(sep)] on an array of strings. *)
Fixpoint join (sep : jsstring) (l : list jsstring) : jsstring :=
  match l with
  | [] => []
  | [s] => s
  | s :: l' => s ++ sep ++ join sep l'
  end.

(** [s.split(c)] for a one-unit separator: the pieces between its
    occurrences, [cur] being the piece under way. *)
Fixpoint split_from (sep : N) (s cur : jsstring) : list jsstring :=
  match s with
  | [] => [cur]
  | c :: rest =>
      if c =? sep then cur :: split_from sep rest []
      else split_from sep rest (cur ++ [c])
  end.

Definition split (sep : N) (s : jsstring) : list jsstring :=
  split_from sep s [].

Definition quote : N := 0x22.
Definition comma : N := 0x2C.
Definition LF : N := 0x0A.
Definition CR : N := 0x0D.

(** The loop of [parseCsvLine] over what is left of the line, with its
    three variables; a doubled quote inside quotes takes two units. *)
Fixpoint parseCsvLine_from (line : jsstring) (out : list jsstring)
    (cur : jsstring) (inQuotes : bool) : list jsstring :=
  match line with
  | [] => out ++ [cur]
  | ch :: rest =>
      if ch =? quote then
        match rest with
        | next :: rest' =>
            if inQuotes && (next =? quote)
            then parseCsvLine_from rest' out (cur ++ [quote]) inQuotes
            else parseCsvLine_from rest out cur (negb inQuotes)
        | [] => parseCsvLine_from rest out cur (negb inQuotes)
        end
      else if (ch =? comma) && negb inQuotes
      then parseCsvLine_from rest (out ++ [cur]) [] inQuotes
      else parseCsvLine_from rest out (cur ++ [ch]) inQuotes
  end.

(** [parseCsvLine(line)] *)
Definition parseCsvLine (line : jsstring) : list jsstring :=
  parseCsvLine_from line [] [] false.

(** [.replace(/\r\n/g, '\n')] *)
Fixpoint replace_crlf (s : jsstring) : jsstring :=
  match s with
  | [] => []
  | c :: rest =>
      match rest with
      | c' :: rest' =>
          if (c =? CR) && (c' =? LF) then LF :: replace_crlf rest'
          else c :: replace_crlf rest
      | [] => [c]
      end
  end.

(** [.replace(/\r/g, '\n')] *)
Definition replace_cr (s : jsstring) : jsstring :=
  (λ c, if c =? CR then LF else c) <$> s.

(** [parseCsv(text)] *)
Definition parseCsv (text : jsstring) : list (list jsstring) :=
  parseCsvLine <$> split LF (replace_cr (replace_crlf text)).

(** [escape] of [exportCSV]: a value with a line break, a comma or a quote
    is put in quotes, its quotes doubled. *)
Definition needs_quotes (s : jsstring) : bool :=
  existsb (λ c, (c =? LF) || (c =? CR) || (c =? comma) || (c =? quote)) s.

(** [s.replaceAll] of every quote by two. *)
Definition double_quotes (s : jsstring) : jsstring :=
  s ≫= (λ c, if c =? quote then [quote; quote] else [c]).

Definition escape (s : jsstring) : jsstring :=
  if needs_quotes s then [quote] ++ double_quotes s ++ [quote] else s.

(** [String(n)] for a count: its decimal digits. *)
Fixpoint digits (fuel : nat) (n : N) (acc : jsstring) : jsstring :=
  match fuel with
  | O => acc
  | S fuel' =>
      let acc' := (0x30 + n mod 10) :: acc in
      if n / 10 =? 0 then acc' else digits fuel' (n / 10) acc'
  end.

Definition number_to_string (n : N) : jsstring :=
  digits (S (N.to_nat (N.log2 n))) n [].

(** The number that decimal digits spell. *)
Definition decimal_value (s : jsstring) : N :=
  fold_left (λ v c, 10 * v + (c - 0x30)) s 0.

(** A row of [visualInputRows], as far as the export reads it. *)
Record input_row := InputRow {
  order : N;
  item : jsstring;
  instrument : jsstring;
  mic : jsstring;
  stand : jsstring;
  notes : jsstring;
  cables : jsstring;
}.

Definition title : jsstring := js "AFRIMA AWARD 2026 EKO HOTEL CHANNEL LIST ".

Definition headerRow : list jsstring :=
  [[]; js "TOTAL"; js "INSTRUMENT"; js "MIC / DI"; js "STAND"; js "NOTES";
   js "CABLES"; []].

Definition blankRow : list jsstring := replicate (length headerRow) [].

(** The cells of one exported row: [r.instrument || r.item] in the third. *)
Definition row_cells (r : input_row) : list jsstring :=
  [[]; number_to_string (order r);
   (if truthy (instrument r) then instrument r else item r);
   mic r; stand r; notes r; cables r; []].

(** The table that [exportCSV] writes, and [exportExcel] as well. *)
Definition export_table (rows : list input_row) : list (list jsstring) :=
  [blankRow; [[]; title; []; []; []; []; []; []]; blankRow; headerRow]
  ++ (row_cells <$> rows).

(** The text of the file [exportCSV] offers for download. *)
Definition exportCSV (rows : list input_row) : jsstring :=
  join [LF] ((λ cells, join [comma] (escape <$> cells)) <$> export_table rows).

(** What follows a closing quote does not start with a quote. *)
Definition closes (tail : jsstring) : Prop :=
  match tail with
  | [] => True
  | c :: _ => c ≠ quote
  end.

(** A text without line breaks, and a row whose texts are such. *)
Definition no_line_break (s : jsstring) : Prop :=
  Forall (λ c, c ≠ LF ∧ c ≠ CR) s.

Definition row_on_one_line (r : input_row) : Prop :=
  no_line_break (item r) ∧ no_line_break (instrument r)
  ∧ no_line_break (mic r) ∧ no_line_break (stand r)
  ∧ no_line_break (notes r) ∧ no_line_break (cables r).

(** The characters [toSafeFilename] keeps: [a-zA-Z0-9\-_.()\s]. *)
Definition is_filename_char (c : N) : bool :=
  ((0x61 <=? c) && (c <=? 0x7A)) || ((0x41 <=? c) && (c <=? 0x5A))
  || ((0x30 <=? c) && (c <=? 0x39))
  || (c =? 0x2D) || (c =? 0x5F) || (c =? 0x2E) || (c =? 0x28) || (c =? 0x29)
  || is_white_space c.

(** [.replace(/\s+/g, ' ')]: [in_run] tells that the unit before was white
    space, already answered for by a space. *)
Fixpoint collapse_from (s : jsstring) (in_run : bool) : jsstring :=
  match s with
  | [] => []
  | c :: rest =>
      if is_white_space c
      then (if in_run then collapse_from rest true
            else 0x20 :: collapse_from rest true)
      else c :: collapse_from rest false
  end.

Definition collapse_white_space (s : jsstring) : jsstring :=
  collapse_from s false.

(** A string that does not start, or end, with white space. *)
Definition starts_black (s : jsstring) : Prop :=
  match s with
  | [] => True
  | c :: _ => is_white_space c = false
  end.

Definition ends_black (s : jsstring) : Prop := starts_black (reverse s).

(** No white space next to white space. *)
Fixpoint single_spaced (s : jsstring) : Prop :=
  match s with
  | [] => True
  | c :: rest =>
      (is_white_space c = true → starts_black rest) ∧ single_spaced rest
  end.

(** A file name of the kept characters, its only white space single
    spaces inside it. *)
Definition safe_filename (s : jsstring) : Prop :=
  Forall (λ c, is_filename_char c = true
               ∧ (is_white_space c = true → c = 0x20)) s
  ∧ single_spaced s ∧ starts_black s ∧ ends_black s.

(** [toSafeFilename(value)] for a string. *)
Definition toSafeFilename (value : jsstring) : jsstring :=
  let s := trim value in
  if negb (truthy s) then []
  else trim (collapse_white_space (filter (λ c, is_filename_char c = true) s)).

(** [parseCorsAllowedOrigins()], [raw] being [process.env.CORS_ORIGIN];
    [None] is [null], no restriction. *)
Definition parseCorsAllowedOrigins (raw : option jsstring)
    : option (list jsstring) :=
  let trimmed := trim (default [] raw) in
  if negb (truthy trimmed) || bool_decide (trimmed = js "*") then None
  else Some (filter (λ s, truthy s = true) (trim <$> split comma trimmed)).

(** The middleware after [cors]: [true] is [next()], [false] the answer
    403 [Not allowed by CORS]; [origin] is the request's [Origin] header. *)
Definition origin_allowed (raw origin : option jsstring) : bool :=
  match parseCorsAllowedOrigins raw with
  | None => true
  | Some allowed =>
      if negb (truthy (default [] origin)) then true
      else bool_decide (default [] origin ∈ allowed)
  end.

End Text.

(** ** Data for the examples *)

Module Examples.

Import Server.

(** Three small PNG files: RGBA; RGB, with a tRNS only after the IEND; RGB
    with a tRNS. *)
Definition png_rgba : Png.buffer :=
  Png.signature
  ++ Png.bytes [0; 0; 0; 13; 0x49; 0x48; 0x44; 0x52;
                0; 0; 0; 1; 0; 0; 0; 1; 8; 6; 0; 0; 0; 0x1f; 0x15; 0xc4; 0x89].

Definition png_rgb_iend : Png.buffer :=
  Png.signature
  ++ Png.bytes [0; 0; 0; 13; 0x49; 0x48; 0x44; 0x52;
                0; 0; 0; 1; 0; 0; 0; 1; 8; 2; 0; 0; 0; 0x90; 0x77; 0x53; 0xde;
                0; 0; 0; 0; 0x49; 0x45; 0x4e; 0x44; 0xae; 0x42; 0x60; 0x82;
                0; 0; 0; 0; 0x74; 0x52; 0x4e; 0x53; 0; 0; 0; 0].

Definition png_rgb_trns : Png.buffer :=
  Png.signature
  ++ Png.bytes [0; 0; 0; 13; 0x49; 0x48; 0x44; 0x52;
                0; 0; 0; 1; 0; 0; 0; 1; 8; 2; 0; 0; 0; 0x90; 0x77; 0x53; 0xde;
                0; 0; 0; 2; 0x74; 0x52; 0x4e; 0x53; 0; 0; 0x55; 0x55; 0x55; 0x55].

(** A signature followed by one empty chunk whose type octets are
    F4 52 4E 53: the letters of tRNS with the top bit of the first set. *)
Definition png_high_bit_tag : Png.buffer :=
  Png.signature
  ++ Png.bytes [0; 0; 0; 0; 0xf4; 0x52; 0x4e; 0x53; 0; 0; 0; 0; 0; 0; 0; 0].

(** The cast of a 24-digit hexadecimal string to the [ObjectId] it
    spells. *)
Definition hex_digit (c : N) : option N :=
  if (0x30 <=? c) && (c <=? 0x39) then Some (c - 0x30)
  else if (0x61 <=? c) && (c <=? 0x66) then Some (c - 0x61 + 10)
  else if (0x41 <=? c) && (c <=? 0x46) then Some (c - 0x41 + 10)
  else None.

Definition castObjectId_hex (s : jsstring) : option oid :=
  if bool_decide (length s = 24%nat)
  then foldl (λ acc c, a ← acc; v ← hex_digit c; Some (16 * a + v)) (Some 0) s
  else None.

(** Ids 0xa1 and 0xa2 (plots), 0x0a (an asset), 0xff (nothing). *)
Definition id_a1 : jsstring := js "0000000000000000000000a1".
Definition id_a2 : jsstring := js "0000000000000000000000a2".
Definition id_0a : jsstring := js "00000000000000000000000a".
Definition id_ff : jsstring := js "0000000000000000000000ff".

Definition alice : user := User (js "sub-1") (js "alice@example.org") (js "Alice") [].
Definition bob : user := User (js "sub-2") (js "bob@example.org") (js "Bob") [].

Definition kick : asset :=
  Asset (js "Kick") (js "Drums") (js "Kick") 0x14
        (Metadata (js "image/png") (Some true)).

(** An element of the [state] of a request: a string, a whole number, or
    a node record as the editor sends it (of which the id is kept). *)
Inductive value :=
  | VString (s : jsstring)
  | VNumber (n : N)
  | VNode (id : jsstring).

(** Mongoose's cast to [String] on these: a string is kept, a number gives
    its digits, a plain object throws. *)
Definition castString_value (v : value) : option jsstring :=
  match v with
  | VString s => Some s
  | VNumber n => Some (Text.number_to_string n)
  | VNode _ => None
  end.

(** Plot 0xa1 is Bob's (user 2), plot 0xa2 is Alice's (user 1); the stored
    elements of a state are strings, and inputs are stood for by numbers. *)
Definition bobs_plot : @plot jsstring N :=
  Plot 2 (js "Main stage") [js "7"] [70] 100 100.
Definition alices_plot : @plot jsstring N :=
  Plot 1 (js "Club") [js "1"; js "2"] [10] 50 60.

Definition db0 : @db jsstring N :=
  Db true true
     {[ 1 := alice; 2 := bob ]}
     {[ 0x0a := kick ]}
     {[ 0x14 := File (js "kick.png") (js "image/png") png_rgba ]}
     (Some [Category (js "Drums") [js "Kick"]])
     {[ 0xa1 := bobs_plot; 0xa2 := alices_plot ]}.

Definition snare_svg : upfile :=
  Upfile (js "snare.svg") (js "image/svg+xml") (Png.bytes [0x3c; 0x73; 0x76; 0x67; 0x2f; 0x3e]).

Definition snare_fields : upload_fields :=
  UploadFields (Some (js "Snare")) (Some (js " Drums ")) (Some (js "Snare")).

(** An editor over a one-asset library, with no profiles.  [Math.atan2] is
    stood for by a constant: it bears on rotations only. *)
Definition stage_handle :=
  Editor.handle unit unit (λ _, js "a1") (λ _, tt) (λ _ _, 0%float).
Definition stage_run :=
  Editor.run unit unit (λ _, js "a1") (λ _, tt) (λ _ _, 0%float).

(** A node as a saved plot may hold it: scale 10. *)
Definition big_node : Editor.node unit :=
  Editor.Node unit (js "n1") (js "asset") (js "a1") 10 10 0 10 [] false false tt.

End Examples.

(** ** The history over several actions *)

Module HistoryRuns.

Import History.

Section Runs.

Context {A : Type} `{EqDecision A}.

(** Every value the history holds, oldest first. *)
Definition timeline (s : state A) : list A :=
  past s ++ present s :: future s.

(** [set] called with each updater in turn. *)
Fixpoint sets (s : state A) (us : list (updater A)) : state A :=
  match us with
  | [] => s
  | u :: us' => sets (historyReducer s (ASet u)) us'
  end.

(** Each of these calls changes the present. *)
Fixpoint all_change (s : state A) (us : list (updater A)) : Prop :=
  match us with
  | [] => True
  | u :: us' =>
      apply_updater u (present s) ≠ present s
      ∧ all_change (historyReducer s (ASet u)) us'
  end.

(** The presents that these calls push on the past. *)
Fixpoint pushed (s : state A) (us : list (updater A)) : list A :=
  match us with
  | [] => []
  | u :: us' => present s :: pushed (historyReducer s (ASet u)) us'
  end.

(** [undo], and [redo], called [n] times. *)
Definition undos (n : nat) (s : state A) : state A :=
  Nat.iter n (λ s, historyReducer s AUndo) s.

Definition redos (n : nat) (s : state A) : state A :=
  Nat.iter n (λ s, historyReducer s ARedo) s.

End Runs.

End HistoryRuns.

(** ** The editor: the other buttons of a node *)

Module Nodes.

Import Editor.

Local Open Scope float_scope.

Section Buttons.

Variables (asset profile : Type).
Variable asset_id : asset → jsstring.
Variable getDefaultProfile : asset → profile.
Variable atan2 : float → float → float.

Local Abbreviation node := (Editor.node profile).
Local Abbreviation editor := (Editor.editor profile).
Local Abbreviation id := (Editor.id profile).
Local Abbreviation nodes := (Editor.nodes profile).
Local Abbreviation selectedId := (Editor.selectedId profile).
Local Abbreviation touchGesture := (Editor.touchGesture profile).

(** [prev.map((n) => (n.id === nodeId ? patched n : n))] *)
Definition patch_node (target : jsstring) (f : node → node) (e : editor)
    : editor :=
  Editor profile ((λ n, if bool_decide (id n = target) then f n else n)
                    <$> nodes e)
         (selectedId e) (touchGesture e).

(** [rotateNode(nodeId, deltaDeg)] *)
Definition rotateNode (target : jsstring) (deltaDeg : float) : editor → editor :=
  patch_node target (λ n,
    Node profile (id n) (type_ profile n) (assetId profile n) (x profile n)
         (y profile n) (or_else (rotation profile n) 0 + deltaDeg)
         (scale profile n) (label profile n) (flipX profile n)
         (locked profile n) (node_profile profile n)).

(** [flipNodeX(nodeId)] *)
Definition flipNodeX (target : jsstring) : editor → editor :=
  patch_node target (λ n,
    Node profile (id n) (type_ profile n) (assetId profile n) (x profile n)
         (y profile n) (rotation profile n) (scale profile n)
         (label profile n) (negb (flipX profile n)) (locked profile n)
         (node_profile profile n)).

(** [toggleNodeLock(nodeId)] *)
Definition toggleNodeLock (target : jsstring) : editor → editor :=
  patch_node target (λ n,
    Node profile (id n) (type_ profile n) (assetId profile n) (x profile n)
         (y profile n) (rotation profile n) (scale profile n)
         (label profile n) (flipX profile n) (negb (locked profile n))
         (node_profile profile n)).

(** [setNodeLabel(nodeId)], [answer] being what [window.prompt] returned:
    [None] is [null], the prompt cancelled. *)
Definition setNodeLabel (target : jsstring) (answer : option jsstring)
    (e : editor) : editor :=
  match answer with
  | None => e
  | Some next =>
      patch_node target (λ n,
        Node profile (id n) (type_ profile n) (assetId profile n)
             (x profile n) (y profile n) (rotation profile n)
             (scale profile n) next (flipX profile n) (locked profile n)
             (node_profile profile n)) e
  end.

(** [clamp(n, min, max)] on the whole numbers [moveLayer] passes it, where
    [Math.max] and [Math.min] are the larger and the smaller. *)
Definition clamp_index (n min max : Z) : Z := Z.max min (Z.min max n).

(** The index [moveLayer] moves the node at [from] to. *)
Definition layer_target (len from : nat) (delta : Z) : nat :=
  Z.to_nat (clamp_index (Z.of_nat from + delta) 0 (Z.of_nat len - 1)).

(** [moveLayer(nodeId, delta)]: [findIndex], then the two [splice]s on a
    copy. *)
Definition moveLayer (target : jsstring) (delta : Z) (e : editor) : editor :=
  match list_find (λ n, id n = target) (nodes e) with
  | None => e
  | Some (from, item) =>
      let to := layer_target (length (nodes e)) from delta in
      if decide (to = from) then e
      else
        let next := delete from (nodes e) in
        Editor profile (take to next ++ item :: drop to next)
               (selectedId e) (touchGesture e)
  end.

(** [onDragEnd] of the node [target], the stage reporting the position
    [(px, py)]: the patch [{ x, y }]. *)
Definition dragNode (target : jsstring) (px py : float) : editor → editor :=
  patch_node target (λ n,
    Node profile (id n) (type_ profile n) (assetId profile n) px py
         (rotation profile n) (scale profile n) (label profile n)
         (flipX profile n) (locked profile n) (node_profile profile n)).

(** [onSelect] of the node [target]: a click or a tap on it. *)
Definition selectNode (target : jsstring) (e : editor) : editor :=
  Editor profile (nodes e) (Some target) (touchGesture e).

(** A press on the stage itself, off every node; the effect that follows
    the nodes does the same once the selected node is gone. *)
Definition deselect (e : editor) : editor :=
  Editor profile (nodes e) None (touchGesture e).

(** The button [New]: an empty stage, nothing selected. *)
Definition newStage (e : editor) : editor :=
  Editor profile [] None (touchGesture e).

(** Every button and gesture of the editor that bears on the nodes or on
    the selection. *)
Inductive action :=
  | Base (ev : Editor.event asset profile)
  | Rotate (target : jsstring) (deltaDeg : float)
  | Flip (target : jsstring)
  | Lock (target : jsstring)
  | Label (target : jsstring) (answer : option jsstring)
  | Layer (target : jsstring) (delta : Z)
  | Drag (target : jsstring) (px py : float)
  | Select (target : jsstring)
  | Deselect
  | New.

Definition step (e : editor) (a : action) : editor :=
  match a with
  | Base ev => Editor.handle asset profile asset_id getDefaultProfile atan2 e ev
  | Rotate target deltaDeg => rotateNode target deltaDeg e
  | Flip target => flipNodeX target e
  | Lock target => toggleNodeLock target e
  | Label target answer => setNodeLabel target answer e
  | Layer target delta => moveLayer target delta e
  | Drag target px py => dragNode target px py e
  | Select target => selectNode target e
  | Deselect => deselect e
  | New => newStage e
  end.

(** The editor after a sequence of actions, from the empty stage. *)
Definition run (acts : list action) : editor :=
  foldl step (Editor.initial profile) acts.

(** The actions that bring no scale from outside: all, but that a plot
    that is loaded must hold no scale outside the interval. *)
Definition keeps_scales (a : action) : Prop :=
  match a with
  | Base (LoadPlot _ _ loaded) => Forall (Editor.scale_ok profile) loaded
  | _ => True
  end.

(** The ids of the nodes on the stage. *)
Definition ids (e : editor) : list jsstring := id <$> nodes e.

(** What [uid()] is relied on for: the id of a node added or duplicated is
    not in use; and a plot loaded has been saved from such a stage. *)
Definition fresh (e : editor) (a : action) : Prop :=
  match a with
  | Base (AddNode _ _ _ _ _ new_id) => new_id ∉ ids e
  | Base (DuplicateNode _ _ _ new_id) => new_id ∉ ids e
  | Base (LoadPlot _ _ loaded) => NoDup (id <$> loaded)
  | _ => True
  end.

(** The actions that work on the nodes in place. *)
Definition in_place (a : action) : bool :=
  match a with
  | Base (ScaleUp _ _ _) | Base (ScaleDown _ _ _)
  | Base (TransformEnd _ _ _ _ _)
  | Base (TouchStart _ _ _ _) | Base (TouchMove _ _ _)
  | Rotate _ _ | Flip _ | Lock _ | Label _ _ => true
  | _ => false
  end.

(** Which node is where, of which asset, with which input profile. *)
Definition placement (n : node)
    : jsstring * jsstring * jsstring * float * float * profile :=
  (id n, type_ profile n, assetId profile n, x profile n, y profile n,
   node_profile profile n).

End Buttons.

End Nodes.

(** ** The server: downloads, statistics and feedback *)

Module Public.

Import Server.

Section Routes.

Context {stored input node : Type}.

Local Abbreviation db := (@Server.db stored input).

(** As in [Server]: Mongoose's cast of a string to an [ObjectId]. *)
Variable castObjectId : jsstring → option oid.

(** What [GET /api/assets/:id] sends: a status with a text, Express's own
    error page, the file under its [Content-Type], or a status with the
    JSON [{ error }]. *)
Inductive download :=
  | DText (status : N) (text : jsstring)
  | DUncaught
  | DFile (content_type : jsstring) (data : Png.buffer)
  | DError (status : N) (msg : jsstring).

(** [fileDoc.contentType || asset.metadata?.contentType
     || 'application/octet-stream'] *)
Definition content_type_of (f : file) (a : asset) : jsstring :=
  if truthy (file_contentType f) then file_contentType f
  else if truthy (contentType (asset_metadata a))
       then contentType (asset_metadata a)
       else js "application/octet-stream".

(** The handler of [GET /api/assets/:id], which runs behind the readiness
    gate of [/api]: the route is [asset_download] below. *)
Definition get_asset_file (id : jsstring) (d : db) : download :=
  if negb (bucket d) then DText 503 (js "Storage not ready")
  else
    match castObjectId id with
    | None => DUncaught
    | Some o =>
        match assets d !! o with
        | None => DText 404 (js "Not found")
        | Some a =>
            match files d !! fileId a with
            | None => DText 404 (js "File not found")
            | Some f => DFile (content_type_of f a) (file_data f)
            end
        end
    end.

(** [GET /api/assets/:id] as a request under [/api]: the readiness gate,
    then the handler. *)
Definition asset_download (id : jsstring) (d : db) : download :=
  if negb (isDbReady d)
  then DError 503 (js "Database not connected. If using MongoDB Atlas, ensure your current IP is allowed in Network Access.")
  else get_asset_file id d.

(** [GET /api/admin/stats]: [totalPlots], the count of all plots. *)
Definition get_stats (d : db) : N := N.of_nat (size (plots d)).

(** [feedbackSchema], without its timestamps. *)
Record feedback := Feedback {
  feedback_userId : oid;
  feedback_email : jsstring;
  feedback_name : jsstring;
  message : jsstring;
  page : jsstring;
}.

(** [POST /api/feedback] on the feedback collection [fbs]; [message_raw]
    and [page_raw] are [Some] when the body has them as strings. *)
Definition post_feedback (session : option oid)
    (message_raw page_raw : option jsstring) (d : db) (fbs : list feedback)
    : list feedback * response (stored := stored) (input := input) :=
  match session with
  | None => (fbs, error 401 "Unauthorized")
  | Some uid =>
      match users d !! uid with
      | None => (fbs, error 401 "Unauthorized")
      | Some u =>
          let message := default [] (trim <$> message_raw) in
          let page := default [] (trim <$> page_raw) in
          if negb (truthy message) then (fbs, error 400 "Missing message")
          else (fbs ++ [Feedback uid (email u) (user_name u) message page],
                Response 201 BOk)
      end
  end.

(** The calls that work on plots. *)
Definition plot_call (c : call (node := node)) : bool :=
  match c with
  | GetPlots _ | PostPlots _ _ _ _ | GetPlot _ _ => true
  | _ => false
  end.

(** The session a plot call comes with. *)
Definition session_of (c : call (node := node)) : option oid :=
  match c with
  | GetPlots session | PostPlots _ _ session _ | GetPlot session _ => session
  | _ => None
  end.

End Routes.

End Public.

(** ** More examples *)

Module MoreExamples.

Import Server Examples.

(** Cells with a comma, with quotes and with a line break in them. *)
Definition cells : list jsstring :=
  [js "Kick, in"; js "6" ++ [Text.quote] ++ js " tom"; [];
   js "left" ++ [Text.LF] ++ js "right"].

Definition rows : list Text.input_row :=
  [Text.InputRow 1 (js "Kick") (js "KICK DRUM") (js "Beta 52, B91")
                 (js "Short Boom") [] (js "XLR");
   Text.InputRow 2 (js "Vox") [] (js "SM58") (js "Tall Boom")
                 (js "the " ++ [Text.quote] ++ js "lead" ++ [Text.quote]) []].

(** A [CORS_ORIGIN] of two origins, with white space and an empty entry. *)
Definition origins : list jsstring :=
  [js " https://a.example "; js "https://b.example"; []].

(** A history of numbers. *)
Definition count_up : list (History.updater nat) :=
  [History.UpdVal 1%nat; History.UpdFun S; History.UpdVal 7%nat].

(** A stage of three nodes. *)
Definition node_of (name : String.string) : Editor.node unit :=
  Editor.Node unit (js name) (js "asset") (js "a1") 10 10 0 1 [] false false tt.

Definition stage3 : Editor.editor unit :=
  Editor.Editor unit [node_of "n1"; node_of "n2"; node_of "n3"]
                (Some (js "n2")) None.

Definition stage_step :=
  Nodes.step unit unit (λ _, js "a1") (λ _, tt) (λ _ _, 0%float).
Definition stage_actions_run :=
  Nodes.run unit unit (λ _, js "a1") (λ _, tt) (λ _ _, 0%float).

(** An hour at the editor: a saved plot of one node is loaded, a node is
    added, enlarged thirteen times, rotated, flipped, locked, labelled,
    dragged and sent to the bottom layer; the first node is duplicated,
    shrunk by the transformer and deleted. *)
Definition stage_actions : list (Nodes.action unit unit) :=
  [Nodes.Base unit unit (Editor.LoadPlot unit unit [node_of "n1"]);
   Nodes.Base unit unit (Editor.AddNode unit unit tt 100 100 (js "n2"));
   Nodes.Deselect unit unit;
   Nodes.Select unit unit (js "n2")]
  ++ replicate 13 (Nodes.Base unit unit (Editor.ScaleUp unit unit (js "n2")))
  ++ [Nodes.Rotate unit unit (js "n2") 15;
      Nodes.Flip unit unit (js "n2");
      Nodes.Lock unit unit (js "n2");
      Nodes.Label unit unit (js "n2") (Some (js "Lead vocal"));
      Nodes.Drag unit unit (js "n2") 240 80;
      Nodes.Layer unit unit (js "n2") (- 1);
      Nodes.Base unit unit (Editor.DuplicateNode unit unit (js "n1") (js "n3"));
      Nodes.Base unit unit (Editor.TransformEnd unit unit (js "n3") (-0.1) 90);
      Nodes.Base unit unit (Editor.DeleteNode unit unit (js "n1"))].

(** The example database with a second asset, and the ids 0x0b, 0xa3. *)
Definition id_0b : jsstring := js "00000000000000000000000b".
Definition id_a3 : jsstring := js "0000000000000000000000a3".

Definition snare : asset :=
  Asset (js "Snare") (js "Drums") (js "Snare") 0x15
        (Metadata (js "image/svg+xml") None).

Definition db1 : @db jsstring N :=
  set_files <[0x15 := File (js "snare.svg") (js "image/svg+xml")
                           (buffer snare_svg)]>
    (set_assets <[0x0b := snare]> db0).

End MoreExamples.

(** * Properties *)

(** ** Strings: trimming and letter case *)

Section JsStringProps.

Implicit Types (a b s p q : jsstring) (c : N).

Lemma letter_not_white_space c : 0x41 ≤ c ≤ 0x7A → is_white_space c = false.
Proof.
  intros Hc. unfold is_white_space.
  repeat match goal with
         | |- context [N.eqb c ?k] => destruct (N.eqb_spec c k); [lia|]
         | |- context [N.leb ?k c] => destruct (N.leb_spec k c); [|lia]
         | |- context [N.leb c ?k] => destruct (N.leb_spec c k); [lia|]
         end.
  reflexivity.
Qed.

(** Code units of the same lower case are both white space or both not,
    and white space has one case only. *)
Lemma lowercase_unit_white_space c c' :
  lowercase_unit c = lowercase_unit c' →
  is_white_space c = is_white_space c' ∧ (is_white_space c = true → c = c').
Proof.
  unfold lowercase_unit.
  destruct (N.leb_spec 0x41 c), (N.leb_spec c 0x5A),
           (N.leb_spec 0x41 c'), (N.leb_spec c' 0x5A); simpl; intros Heq;
    try (assert (c = c') as -> by lia; done).
  all: rewrite (letter_not_white_space c), (letter_not_white_space c') by lia.
  all: done.
Qed.


Lemma trimStart_same_lowercase a b :
  Forall2 same_lowercase a b →
  ∃ p, a = p ++ trimStart a ∧ b = p ++ trimStart b
       ∧ Forall2 same_lowercase (trimStart a) (trimStart b).
Proof.
  induction 1 as [|c c' a b Hc Hab (p & Ha & Hb & IH)]; [by exists []|].
  destruct (lowercase_unit_white_space c c' Hc) as [Hws Heq]. simpl.
  rewrite <- Hws. destruct (is_white_space c) eqn:Hwsc.
  - rewrite <- (Heq eq_refl). exists (c :: p). simpl. by rewrite <- Ha, <- Hb.
  - exists []. split_and!; [done..|]. by constructor.
Qed.

Lemma trimEnd_same_lowercase a b :
  Forall2 same_lowercase a b →
  ∃ q, a = trimEnd a ++ q ∧ b = trimEnd b ++ q
       ∧ Forall2 same_lowercase (trimEnd a) (trimEnd b).
Proof.
  intros Hab%Forall2_reverse.
  destruct (trimStart_same_lowercase _ _ Hab) as (p & Ha & Hb & Hrel).
  exists (reverse p). unfold trimEnd. split_and!.
  - rewrite <- reverse_app, <- Ha. by rewrite reverse_involutive.
  - rewrite <- reverse_app, <- Hb. by rewrite reverse_involutive.
  - by apply Forall2_reverse.
Qed.

Lemma trim_same_lowercase a b :
  Forall2 same_lowercase a b →
  ∃ p q, a = p ++ trim a ++ q ∧ b = p ++ trim b ++ q
         ∧ Forall2 same_lowercase (trim a) (trim b).
Proof.
  intros Hab.
  destruct (trimStart_same_lowercase _ _ Hab) as (p & Ha & Hb & Hrel).
  destruct (trimEnd_same_lowercase _ _ Hrel) as (q & Ha' & Hb' & Hrel').
  exists p, q. unfold trim. split_and!; [|..|done].
  - by rewrite <- Ha'.
  - by rewrite <- Hb'.
Qed.

(** Names that differ only in letter case still differ once trimmed, and
    trim to names that are not empty. *)
Lemma differ_only_in_case_trim a b :
  differ_only_in_case a b → trim a ≠ trim b ∧ trim a ≠ [] ∧ trim b ≠ [].
Proof.
  intros [Hne Hlow].
  assert (Forall2 same_lowercase a b) as Hab.
  { unfold same_lowercase.
    apply (Forall2_fmap lowercase_unit lowercase_unit eq), list_eq_Forall2.
    exact Hlow. }
  destruct (trim_same_lowercase _ _ Hab) as (p & q & Ha & Hb & Hrel).
  assert (trim a ≠ trim b) as Htrim.
  { intros Heq. apply Hne. rewrite Ha, Hb. by rewrite Heq. }
  split_and!; [done|..].
  - intros Hnil. rewrite Hnil in *. by apply Forall2_nil_inv_l in Hrel.
  - intros Hnil. rewrite Hnil in *. by apply Forall2_nil_inv_r in Hrel.
Qed.

End JsStringProps.

(** ** The history reducer *)

Section HistoryProps.

Import History.
Context {A : Type} `{EqDecision A}.
Implicit Types (s : state A) (u : updater A).

Lemma last_snoc_inv (l : list A) (x : A) :
  last l = Some x → take (length l - 1) l ++ [x] = l.
Proof.
  destruct l as [|y l] using rev_ind; [done|].
  rewrite last_snoc; intros [= ->].
  rewrite length_app; simpl. rewrite Nat.add_sub.
  by rewrite take_app_length.
Qed.

Lemma undo_then_redo s :
  past s ≠ [] → historyReducer (historyReducer s AUndo) ARedo = s.
Proof.
  destruct s as [p x f]; simpl; intros Hp.
  destruct (last p) as [y|] eqn:Hl.
  - simpl. by rewrite (last_snoc_inv _ _ Hl).
  - by apply last_None in Hl.
Qed.

Lemma redo_then_undo s :
  future s ≠ [] → historyReducer (historyReducer s ARedo) AUndo = s.
Proof.
  destruct s as [p x [|n f]]; simpl; intros Hf; [done|].
  rewrite last_snoc, length_app; simpl. rewrite Nat.add_sub.
  by rewrite take_app_length.
Qed.

Lemma set_changes s u :
  apply_updater u (present s) ≠ present s →
  historyReducer s (ASet u) =
    State ((if bool_decide (limit ≤ length (past s))%nat
            then drop 1 (past s) else past s) ++ [present s])
          (apply_updater u (present s)) [].
Proof. intros Hne. simpl. by destruct (decide _). Qed.

(** C1. Undo followed by redo (with something to undo) and redo followed
    by undo (with something to redo) restore the history state, and so its
    present; undo on an empty past and redo on an empty future return the
    state unchanged; a [set] whose value differs from the present makes the
    old present the newest entry of the past (the past keeps its entries,
    less the oldest one once it holds 50) and empties the future. *)
Theorem history_undo_redo_set s :
  (past s ≠ [] →
     let s' := historyReducer (historyReducer s AUndo) ARedo in
     present s' = present s ∧ s' = s)
  ∧ (future s ≠ [] →
     let s' := historyReducer (historyReducer s ARedo) AUndo in
     present s' = present s ∧ s' = s)
  ∧ (past s = [] → historyReducer s AUndo = s)
  ∧ (future s = [] → historyReducer s ARedo = s)
  ∧ (∀ u, apply_updater u (present s) ≠ present s →
     let s' := historyReducer s (ASet u) in
     present s' = apply_updater u (present s)
     ∧ future s' = []
     ∧ last (past s') = Some (present s)
     ∧ past s' = (if bool_decide (limit ≤ length (past s))%nat
                  then drop 1 (past s) else past s) ++ [present s]).
Proof.
  repeat split.
  - by rewrite undo_then_redo.
  - by apply undo_then_redo.
  - by rewrite redo_then_undo.
  - by apply redo_then_undo.
  - intros Hp. destruct s as [p x f]; simpl in *. by subst.
  - intros Hf. destruct s as [p x f]; simpl in *. by subst.
  - by rewrite set_changes.
  - by rewrite set_changes.
  - rewrite set_changes by done. simpl. by rewrite last_snoc.
  - by rewrite set_changes.
Qed.

End HistoryProps.

(** The reducer on a small history of numbers: two edits, an undo, a redo. *)
Example history_run :
  let s0 := History.initial 0%nat in
  let s1 := History.historyReducer s0 (History.ASet (History.UpdVal 1%nat)) in
  let s2 := History.historyReducer s1 (History.ASet (History.UpdFun S)) in
  let s3 := History.historyReducer s2 History.AUndo in
  let s4 := History.historyReducer s3 History.ARedo in
  s2 = History.State [0; 1]%nat 2%nat []
  ∧ s3 = History.State [0%nat] 1%nat [2%nat]
  ∧ s4 = s2
  ∧ History.historyReducer s0 History.AUndo = s0
  ∧ History.historyReducer s2 History.ARedo = s2.
Proof. by vm_compute. Qed.

(** ** The PNG alpha sniff *)

Section PngProps.

Import Png.
Implicit Types (b : buffer) (offset length : N).

Lemma at_in_range b i : i < blen b → is_Some (at_ b i).
Proof.
  unfold at_, blen. intros Hi.
  destruct (lookup_lt_is_Some_2 b (N.to_nat i)) as [x ->]; [lia|]. by eexists.
Qed.

(** Inside the loop the four octets of the length field are in range, so
    [readUInt32BE] does not throw. *)
Lemma readUInt32BE_in_range b offset :
  offset + 12 ≤ blen b → is_Some (readUInt32BE b offset).
Proof.
  intros H. unfold readUInt32BE.
  destruct (at_in_range b offset) as [? ->]; [lia|].
  destruct (at_in_range b (offset + 1)) as [? ->]; [lia|].
  destruct (at_in_range b (offset + 2)) as [? ->]; [lia|].
  destruct (at_in_range b (offset + 3)) as [? ->]; [lia|].
  by eexists.
Qed.


Lemma scan_returns fuel b offset :
  enough_fuel fuel b offset → is_Some (scan fuel b offset).
Proof.
  revert offset. induction fuel as [|fuel IH]; intros offset [Hle Hfuel].
  { lia. }
  simpl. destruct (N.leb_spec (offset + 12) (blen b)) as [Hin|Hout]; simpl; [|by eexists].
  destruct (readUInt32BE_in_range b offset Hin) as [len ->].
  destruct (N.ltb_spec (blen b) (offset + 8 + len + 4)); [by eexists|].
  repeat (case_match; [by eexists|]).
  apply IH. split; lia.
Qed.

Lemma scan_true_finds fuel b offset :
  scan fuel b offset = Some true → scan_finds tag_ascii b offset.
Proof.
  revert offset. induction fuel as [|fuel IH]; intros offset; [done|].
  simpl. destruct (N.leb_spec (offset + 12) (blen b)) as [Hin|Hout]; simpl; [|done].
  destruct (readUInt32BE b offset) as [len|] eqn:Hlen; [|done].
  destruct (N.ltb_spec (blen b) (offset + 8 + len + 4)) as [|Hfit]; [done|].
  assert (chunk_at b offset len) as Hchunk by done.
  destruct (_ && _) eqn:Hihdr.
  { intros _. apply (found_here _ _ _ len Hchunk). left.
    apply andb_true_iff in Hihdr as [Hihdr Hct].
    apply andb_true_iff in Hihdr as [Htag Hlen13].
    apply orb_true_iff in Hct.
    repeat split; [done|by apply N.leb_le|].
    destruct Hct as [Hct|Hct]; apply bool_decide_eq_true in Hct; auto. }
  destruct (bool_decide (_ = js "tRNS")) eqn:Htrns.
  { intros _. apply (found_here _ _ _ len Hchunk). by right. }
  destruct (bool_decide (_ = js "IEND")) eqn:Hiend; [done|].
  intros Hrec. apply (found_later _ _ _ len Hchunk); [done|]. by apply IH.
Qed.

Lemma finds_scan_true b offset :
  scan_finds tag_ascii b offset →
  ∀ fuel, enough_fuel fuel b offset → scan fuel b offset = Some true.
Proof.
  induction 1 as [offset len (Hin & Hlen & Hfit) Hsig
                 |offset len (Hin & Hlen & Hfit) Hiend _ IH];
    intros [|fuel] [Hle Hfuel]; try lia; simpl.
  - destruct (N.leb_spec (offset + 12) (blen b)); [simpl|lia].
    rewrite Hlen. destruct (N.ltb_spec (blen b) (offset + 8 + len + 4)); [lia|].
    destruct Hsig as [(Htag & H13 & Hct)|Htag].
    + unfold tag_ascii in Htag. rewrite Htag.
      apply N.leb_le in H13. rewrite H13. simpl.
      unfold is_alpha_color_type.
      destruct Hct as [-> | ->]; reflexivity.
    + unfold tag_ascii in Htag. rewrite Htag. by case_match.
  - destruct (N.leb_spec (offset + 12) (blen b)); [simpl|lia].
    rewrite Hlen. destruct (N.ltb_spec (blen b) (offset + 8 + len + 4)); [lia|].
    unfold tag_ascii in Hiend. rewrite Hiend.
    repeat (case_match; [done|]).
    apply IH. split; lia.
Qed.

Lemma initial_fuel b : 24 ≤ blen b → enough_fuel (List.length b) b 8.
Proof. unfold enough_fuel, blen. lia. Qed.

(** The sniff returns: no exception, and the loop ends within the fuel. *)
Lemma detectPngHasAlpha_returns b : is_Some (detectPngHasAlpha b).
Proof.
  unfold detectPngHasAlpha.
  destruct (N.ltb_spec (blen b) 24); [by eexists|].
  destruct (negb _); [by eexists|].
  by apply scan_returns, initial_fuel.
Qed.

(** C5 (as amended). [detectPngHasAlpha] returns a Boolean for every buffer
    (it neither throws nor runs out of fuel), and that Boolean is [true]
    exactly when the buffer has at least 24 octets, starts with the PNG
    signature, and the chunk scan from offset 8 -- which stops at an IEND
    and at a chunk that would run past the end of the buffer -- meets an
    IHDR of length at least 13 whose color type octet is 4 or 6, or meets a
    tRNS; a chunk's type being the name its four octets give when decoded
    as 'ascii', that is with the top bit of each octet ignored. *)
Theorem detectPngHasAlpha_spec b :
  ∃ r : bool,
    detectPngHasAlpha b = Some r
    ∧ (r = true ↔ has_alpha_spec tag_ascii b).
Proof.
  unfold detectPngHasAlpha, has_alpha_spec.
  destruct (N.ltb_spec (blen b) 24) as [Hshort|Hlong].
  { exists false. split; [done|]. split; [done|]. intros (? & _); lia. }
  destruct (decide (subarray b 0 8 = signature)) as [Hsig|Hsig].
  - rewrite bool_decide_eq_true_2 by done. simpl.
    destruct (scan_returns _ b 8 (initial_fuel b Hlong)) as [r Hr].
    exists r. split; [done|]. split.
    + intros ->. repeat split; [done..|]. by eapply scan_true_finds.
    + intros (_ & _ & Hfound).
      pose proof (finds_scan_true b 8 Hfound _ (initial_fuel b Hlong)). congruence.
  - rewrite bool_decide_eq_false_2 by done. simpl.
    exists false. split; [done|]. split; [done|]. by intros (_ & ? & _).
Qed.

End PngProps.


(** An 8-bit RGBA header is reported; an RGB image that ends without a
    tRNS is not; an RGB image with a tRNS chunk is. *)
Example detectPngHasAlpha_runs :
  Png.detectPngHasAlpha Examples.png_rgba = Some true
  ∧ Png.detectPngHasAlpha Examples.png_rgb_iend = Some false
  ∧ Png.detectPngHasAlpha Examples.png_rgb_trns = Some true
  ∧ Png.detectPngHasAlpha (Png.bytes [0x89; 0x50]) = Some false.
Proof. by vm_compute. Qed.


(** C5, as stated, fails: with chunk types read as the PNG format defines
    them (the four octets are the letters of the name), the buffer
    [Examples.png_high_bit_tag] holds neither an IHDR nor a tRNS chunk, yet
    [detectPngHasAlpha] returns [true] on it. *)
Lemma detectPngHasAlpha_high_bit_tag :
  Png.detectPngHasAlpha Examples.png_high_bit_tag = Some true
  ∧ ¬ Png.has_alpha_spec Png.tag_exact Examples.png_high_bit_tag.
Proof.
  split; [by vm_compute|].
  intros (_ & _ & Hscan).
  inversion Hscan as [offset len (_ & Hlen & _) Hsig
                     |offset len (_ & Hlen & _) _ Hnext]; subst.
  - vm_compute in Hlen. injection Hlen as <-.
    destruct Hsig as [(Htag & _)|Htag]; by vm_compute in Htag.
  - vm_compute in Hlen. injection Hlen as <-.
    inversion Hnext as [offset len (Hin & _) _|offset len (Hin & _) _ _];
      by vm_compute in Hin.
Qed.

(** ** Node scaling *)

Section FloatOrder.

Local Open Scope float_scope.

Lemma SFcompare_antisym (a b : spec_float) :
  SFcompare b a = CompOpp <$> SFcompare a b.
Proof.
  destruct a as [[]| []| |[] ma ea], b as [[]| []| |[] mb eb]; try reflexivity.
  all: simpl; f_equal.
  all: rewrite (Z.compare_antisym ea eb); destruct (ea ?= eb)%Z; simpl; try reflexivity.
  all: change (PosDef.Pos.compare_cont Eq ?p ?q) with (p ?= q)%positive.
  all: rewrite (Pos.compare_antisym ma mb); by destruct (ma ?= mb)%positive.
Qed.

Lemma SFcompare_not_nan (a b : spec_float) :
  a ≠ S754_nan → b ≠ S754_nan → is_Some (SFcompare a b).
Proof. destruct a as [| | |], b as [| | |]; simpl; intros; by eauto. Qed.

Lemma is_nan_false (x : float) :
  PrimFloat.is_nan x = false → Prim2SF x ≠ S754_nan.
Proof.
  unfold PrimFloat.is_nan. rewrite FloatAxioms.eqb_spec. intros H Hnan.
  rewrite Hnan in H. done.
Qed.

Lemma ltb_leb (x y : float) : (x <? y) = true → (x <=? y) = true.
Proof.
  rewrite FloatAxioms.ltb_spec, FloatAxioms.leb_spec. unfold SFltb, SFleb.
  by destruct (SFcompare _ _) as [[]|].
Qed.

Lemma ltb_false_leb (x y : float) :
  PrimFloat.is_nan x = false → PrimFloat.is_nan y = false →
  (x <? y) = false → (y <=? x) = true.
Proof.
  intros Hx%is_nan_false Hy%is_nan_false.
  rewrite FloatAxioms.ltb_spec, FloatAxioms.leb_spec. unfold SFltb, SFleb.
  rewrite (SFcompare_antisym (Prim2SF x) (Prim2SF y)).
  destruct (SFcompare_not_nan _ _ Hx Hy) as [c ->]. by destruct c.
Qed.

Lemma leb_refl (x : float) : PrimFloat.is_nan x = false → (x <=? x) = true.
Proof.
  intros Hx%is_nan_false. rewrite FloatAxioms.leb_spec. unfold SFleb.
  pose proof (SFcompare_antisym (Prim2SF x) (Prim2SF x)) as Hanti.
  destruct (SFcompare_not_nan _ _ Hx Hx) as [c Hc]. rewrite Hc in *.
  by destruct c.
Qed.

End FloatOrder.

Section EditorProps.

Import Editor.
Local Open Scope float_scope.

Lemma Math_min_spec (a b : float) :
  PrimFloat.is_nan a = false → PrimFloat.is_nan b = false →
  (Math_min a b = a ∨ Math_min a b = b)
  ∧ (Math_min a b <=? a) = true ∧ (Math_min a b <=? b) = true.
Proof.
  intros Ha Hb. unfold Math_min. rewrite Ha, Hb. simpl.
  destruct (a <? b) eqn:Hab.
  { split_and!; [by left|by apply leb_refl|by apply ltb_leb]. }
  destruct (b <? a) eqn:Hba.
  { split_and!; [by right|by apply ltb_leb|by apply leb_refl]. }
  destruct (PrimFloat.get_sign a).
  - split_and!; [by left|by apply leb_refl|by apply ltb_false_leb].
  - split_and!; [by right|by apply ltb_false_leb|by apply leb_refl].
Qed.

Lemma Math_max_spec (a b : float) :
  PrimFloat.is_nan a = false → PrimFloat.is_nan b = false →
  (Math_max a b = a ∨ Math_max a b = b)
  ∧ (a <=? Math_max a b) = true ∧ (b <=? Math_max a b) = true.
Proof.
  intros Ha Hb. unfold Math_max. rewrite Ha, Hb. simpl.
  destruct (a <? b) eqn:Hab.
  { split_and!; [by right|by apply ltb_leb|by apply leb_refl]. }
  destruct (b <? a) eqn:Hba.
  { split_and!; [by left|by apply leb_refl|by apply ltb_leb]. }
  destruct (PrimFloat.get_sign a).
  - split_and!; [by right|by apply ltb_false_leb|by apply leb_refl].
  - split_and!; [by left|by apply leb_refl|by apply ltb_false_leb].
Qed.

(** [clamp] does clamp every number: the result lies in [0.25, 4] -- unless
    its argument is NaN, which it hands back. *)
Lemma clamp_in_range (n : float) :
  PrimFloat.is_nan n = false → scale_in_range (clamp n 0.25 4) = true.
Proof.
  intros Hn. unfold clamp, scale_in_range.
  destruct (Math_min_spec 4 n eq_refl Hn) as (Hmin & Hmin4 & _).
  assert (PrimFloat.is_nan (Math_min 4 n) = false) as Hnan
    by (destruct Hmin as [-> | ->]; done).
  destruct (Math_max_spec 0.25 (Math_min 4 n) eq_refl Hnan) as (Hmax & Hlo & _).
  rewrite Hlo. simpl. destruct Hmax as [-> | ->]; done.
Qed.

Lemma clamp_nan : PrimFloat.is_nan (clamp nan 0.25 4) = true.
Proof. reflexivity. Qed.

Lemma clamp_in_range_or_nan (n : float) :
  scale_in_range (clamp n 0.25 4) || PrimFloat.is_nan (clamp n 0.25 4) = true.
Proof.
  destruct (PrimFloat.is_nan n) eqn:Hn.
  - assert (clamp n 0.25 4 = nan) as ->; [|reflexivity].
    unfold clamp, Math_min. rewrite Hn, orb_true_r. reflexivity.
  - by rewrite clamp_in_range.
Qed.

Context {asset profile : Type}.
Context (asset_id : asset → jsstring) (getDefaultProfile : asset → profile).
Context (atan2 : float → float → float).

#[local] Abbreviation node := (node profile).
#[local] Abbreviation editor := (editor profile).
#[local] Abbreviation event := (event asset profile).
#[local] Abbreviation handle :=
  (handle asset profile asset_id getDefaultProfile atan2).
#[local] Abbreviation run :=
  (run asset profile asset_id getDefaultProfile atan2).
#[local] Abbreviation scale_ok := (scale_ok profile).

Lemma scale_ok_clamped (e : editor) (target : jsstring) (g : node → node) :
  (∀ n, ∃ r, scale _ (g n) = clamp r 0.25 4) →
  Forall scale_ok (nodes _ e) →
  Forall scale_ok ((λ n, if bool_decide (id _ n = target) then g n else n)
                     <$> nodes _ e).
Proof.
  intros Hg He. apply Forall_fmap. eapply Forall_impl; [exact He|].
  intros n Hn. simpl. case_bool_decide; [|done].
  destruct (Hg n) as [r Hr]. unfold Editor.scale_ok. rewrite Hr. intros Hnum.
  pose proof (clamp_in_range_or_nan r) as Hor. by rewrite Hnum, orb_false_r in Hor.
Qed.

(** The editor's own events keep the scales that are numbers within the
    interval: a node is created with scale 1, a copy has the scale of its
    original, and the scale buttons, the transformer and the pinch store
    what [clamp] returns. *)
Lemma handle_scale_ok (e : editor) (ev : event) :
  own_event _ _ ev = true →
  Forall scale_ok (nodes _ e) → Forall scale_ok (nodes _ (handle e ev)).
Proof.
  intros Hown He.
  destruct ev as [a px py new_id|target|target new_id|target|target
                 |target scaleX rotation'|on_stage touches|touches|loaded];
    simpl; [..|done].
  - apply Forall_app; split; [done|]. by apply Forall_singleton.
  - apply Forall_forall. intros n [_ Hn]%list_elem_of_filter.
    by apply (proj1 (Forall_forall _ _) He).
  - destruct (find _ _) as [src|] eqn:Hsrc; [|done].
    apply Forall_app; split; [done|]. apply Forall_singleton.
    apply find_some in Hsrc as [Hin%list_elem_of_In _].
    exact (proj1 (Forall_forall _ _) He src Hin).
  - apply scale_ok_clamped; [|done]. intros ?. by eexists.
  - apply scale_ok_clamped; [|done]. intros ?. by eexists.
  - unfold onTransformEnd. repeat case_match; try done; simpl.
    apply scale_ok_clamped; [|done]. intros ?. by eexists.
  - unfold onStageTouchStart. by repeat case_match.
  - unfold onStageTouchMove. repeat case_match; try done; simpl.
    apply scale_ok_clamped; [|done]. intros ?. by eexists.
Qed.

Lemma run_scale_ok (evs : list event) :
  forallb (own_event _ _) evs = true → Forall scale_ok (nodes _ (run evs)).
Proof.
  unfold Editor.run. induction evs as [|ev evs IH] using rev_ind; [constructor|].
  rewrite forallb_app, andb_true_iff. simpl. rewrite andb_true_r.
  intros [Hevs Hev]. rewrite foldl_app. simpl. by apply handle_scale_ok; [|apply IH].
Qed.

(** The slip that the amended statement steps around: a pinch whose two
    touch points coincide, at its start and on a move, divides 0 by 0;
    [clamp] hands the NaN back, and NaN becomes the selected node's scale.
    The events: a node is dropped on the stage (and so selected), two
    fingers land on one point of it, and a touch move reports them still
    on one point. *)
Lemma pinch_coincident_touches_scale_nan (a : asset) :
  let t := Touch 50 50 in
  let e := run [AddNode _ _ a 100 100 (js "n1");
                TouchStart _ _ false [t; t];
                TouchMove _ _ [t; t]] in
  scale _ <$> nodes _ e = [nan]
  ∧ forallb scale_in_range (scale _ <$> nodes _ e) = false.
Proof. by vm_compute. Qed.

End EditorProps.

(** ** The backend *)

Section TaxonomyProps.

Import Server.

Context (push_aliases : bool).

#[local] Abbreviation upsert := (upsertTaxonomyCategorySection push_aliases).

Implicit Types (cats : list category) (c : category) (i : nat).
Implicit Types (s name : jsstring) (t : option (list category)).

(** *** The taxonomy: unique names, append-only growth *)


Lemma category_extends_refl c : category_extends c c.
Proof. by split. Qed.

Lemma category_extends_add_section s c : category_extends c (add_section s c).
Proof.
  unfold add_section. case_bool_decide; [by split|].
  split; [done|]. by apply prefix_app_r.
Qed.

Lemma cats_extend_refl cats : cats_extend cats cats.
Proof.
  exists cats, []. split; [by rewrite app_nil_r|].
  apply Forall2_same_length_lookup_2; [done|].
  intros i c c' H1 H2. simplify_eq. apply category_extends_refl.
Qed.

Lemma cats_extend_snoc cats c : cats_extend cats (cats ++ [c]).
Proof.
  exists cats, [c]. split; [done|].
  apply Forall2_same_length_lookup_2; [done|].
  intros i c1 c2 H1 H2. simplify_eq. apply category_extends_refl.
Qed.

Lemma cats_extend_alter s i cats :
  cats_extend cats (alter (add_section s) i cats).
Proof.
  exists (alter (add_section s) i cats), []. split; [by rewrite app_nil_r|].
  apply Forall2_same_length_lookup_2; [by rewrite length_alter|].
  intros j c c' H1 H2. destruct (decide (i = j)) as [->|Hne].
  - rewrite list_lookup_alter_eq, H1 in H2. simpl in H2. simplify_eq.
    apply category_extends_add_section.
  - rewrite list_lookup_alter_ne in H2 by done. simplify_eq.
    apply category_extends_refl.
Qed.

Lemma tax_extends_refl t : tax_extends t t.
Proof. destruct t; simpl; [apply cats_extend_refl|done]. Qed.

Lemma names_alter_add_section s i cats :
  category_name <$> alter (add_section s) i cats = category_name <$> cats.
Proof.
  rewrite (list_fmap_alter _ _ id).
  - by apply list_alter_id.
  - apply Forall_true. intros c. unfold add_section. by case_bool_decide.
Qed.

Lemma tax_unique_alter s i cats :
  tax_unique cats → tax_unique (alter (add_section s) i cats).
Proof.
  intros [Hnames Hsecs]. split.
  - by rewrite names_alter_add_section.
  - apply Forall_alter; [done|]. intros c _ Hc.
    unfold add_section. case_bool_decide as Hin; [done|]. simpl.
    apply NoDup_app. split_and!; [done| |apply NoDup_singleton].
    intros x Hx ->%list_elem_of_singleton. done.
Qed.

Lemma find_category_None name cats :
  find_category name cats = None → name ∉ category_name <$> cats.
Proof.
  intros Hnone%list_find_None (c & -> & Hc)%list_elem_of_fmap.
  by eapply (proj1 (Forall_forall _ _) Hnone).
Qed.

Lemma tax_unique_snoc name secs cats :
  tax_unique cats → name ∉ category_name <$> cats → NoDup secs →
  tax_unique (cats ++ [Category name secs]).
Proof.
  intros [Hnames Hsecs] Hnew Hnd. split.
  - rewrite fmap_app. apply NoDup_app. split_and!; [done| |apply NoDup_singleton].
    intros x Hx ->%list_elem_of_singleton. done.
  - apply Forall_app. split; [done|]. by repeat constructor.
Qed.

Lemma NoDup_optional_singleton (b : bool) (s : jsstring) :
  NoDup (if b then [s] else []).
Proof. destruct b; [apply NoDup_singleton|apply NoDup_nil_2]. Qed.

Lemma tax_unique_single name (b : bool) (s : jsstring) :
  tax_unique [Category name (if b then [s] else [])].
Proof.
  split; simpl; [apply NoDup_singleton|].
  repeat constructor; apply NoDup_optional_singleton.
Qed.

Lemma upsert_inv categoryRaw sectionRaw t :
  tax_inv t →
  tax_inv (upsert categoryRaw sectionRaw t)
  ∧ tax_extends t (upsert categoryRaw sectionRaw t).
Proof.
  intros Ht. unfold upsertTaxonomyCategorySection.
  set (category := normalizeName (Some categoryRaw)).
  set (section := normalizeName (Some sectionRaw)).
  destruct (negb (truthy category) && negb (truthy section));
    [by split; [|apply tax_extends_refl]|].
  destruct t as [cats|]; simpl in *.
  2:{ split; [|done]. destruct (truthy category); [apply tax_unique_single|].
      split; simpl; constructor. }
  destruct (truthy category); [|by split; [|apply cats_extend_refl]].
  destruct (find_category category cats) as [[i c]|] eqn:Hfind.
  - destruct (truthy section); simpl.
    + split; [by apply tax_unique_alter|apply cats_extend_alter].
    + by split; [|apply cats_extend_refl].
  - simpl. split; [|apply cats_extend_snoc].
    apply tax_unique_snoc; [done|by apply find_category_None|].
    apply NoDup_optional_singleton.
Qed.

(** *** The taxonomy: how names are matched *)


Lemma truthy_true s : s ≠ [] → truthy s = true.
Proof. by destruct s. Qed.

Lemma trim_nil : trim [] = [].
Proof. reflexivity. Qed.

Lemma upsert_adds a sa t :
  trim a ≠ [] →
  ∃ cats, upsert a sa t = Some cats ∧ trim a ∈ category_name <$> cats.
Proof.
  intros Ha. unfold upsertTaxonomyCategorySection, normalizeName. simpl.
  rewrite (truthy_true _ Ha). simpl.
  destruct t as [cats|]; [|eexists; split; [done|]; simpl; apply list_elem_of_here].
  destruct (find_category (trim a) cats) as [[i c]|] eqn:Hfind.
  - apply list_find_Some in Hfind as (Hi & Hname & _).
    assert (trim a ∈ category_name <$> cats) as Hin.
    { apply list_elem_of_fmap. exists c. split; [done|].
      by eapply list_elem_of_lookup_2. }
    destruct (truthy (trim sa)); eexists; split; try done.
    by rewrite names_alter_add_section.
  - eexists; split; [done|]. rewrite fmap_app, elem_of_app. right. simpl.
    apply list_elem_of_here.
Qed.

Lemma upsert_keeps b sb cats name :
  name ∈ category_name <$> cats →
  ∃ cats', upsert b sb (Some cats) = Some cats'
           ∧ name ∈ category_name <$> cats'.
Proof.
  intros Hin. unfold upsertTaxonomyCategorySection.
  destruct (negb _ && negb _); [by eexists|].
  destruct (truthy (normalizeName (Some b))); [|by eexists].
  destruct (find_category _ cats) as [[i c]|].
  - destruct (truthy _); eexists; (split; [done|]); [|done].
    by rewrite names_alter_add_section.
  - eexists; split; [done|]. rewrite fmap_app, elem_of_app. by left.
Qed.

Lemma upsert_two_entries t a b sa sb :
  trim a ≠ [] → trim b ≠ [] → trim a ≠ trim b →
  two_entries (trim a) (trim b) (upsert b sb (upsert a sa t)).
Proof.
  intros Ha Hb Hne.
  destruct (upsert_adds a sa t Ha) as (cats & -> & Hina).
  destruct (upsert_keeps b sb cats _ Hina) as (cats' & Heq & Hina').
  destruct (upsert_adds b sb (Some cats) Hb) as (cats'' & Heq' & Hinb).
  rewrite Heq in Heq'. injection Heq' as <-. rewrite Heq.
  apply list_elem_of_lookup in Hina' as [i Hi].
  apply list_elem_of_lookup in Hinb as [j Hj].
  rewrite list_lookup_fmap in Hi, Hj.
  destruct (cats' !! i) as [ca|] eqn:Hca; [|done].
  destruct (cats' !! j) as [cb|] eqn:Hcb; [|done].
  simpl in Hi, Hj. simplify_eq.
  exists cats', i, j, ca, cb. split_and!; try done.
  intros ->. congruence.
Qed.

Lemma find_category_alter name s i c cats :
  find_category name cats = Some (i, c) →
  find_category name (alter (add_section s) i cats) = Some (i, add_section s c).
Proof.
  unfold find_category. intros (Hi & Hname & Hfirst)%list_find_Some.
  apply list_find_Some. split_and!.
  - by rewrite list_lookup_alter_eq, Hi.
  - unfold add_section. by case_bool_decide.
  - intros j y Hj Hlt. rewrite list_lookup_alter_ne in Hj by lia. by eapply Hfirst.
Qed.

Lemma elem_of_add_section s c : s ∈ sections (add_section s c).
Proof. unfold add_section. case_bool_decide; [done|]. simpl. set_solver. Qed.

Lemma add_section_keeps s x c : x ∈ sections c → x ∈ sections (add_section s c).
Proof. unfold add_section. case_bool_decide; [done|]. simpl. set_solver. Qed.

Lemma upsert_found (cname : jsstring) s i (e : category) cats :
  trim cname ≠ [] → trim s ≠ [] → find_category (trim cname) cats = Some (i, e) →
  upsert cname s (Some cats) = Some (alter (add_section (trim s)) i cats).
Proof.
  intros Hc Hs Hfind. unfold upsertTaxonomyCategorySection, normalizeName. simpl.
  by rewrite (truthy_true _ Hc), (truthy_true _ Hs), Hfind.
Qed.

Lemma upsert_two_sections cats (cname : jsstring) i (e : category) s1 s2 :
  trim cname ≠ [] → find_category (trim cname) cats = Some (i, e) →
  trim s1 ≠ [] → trim s2 ≠ [] → trim s1 ≠ trim s2 →
  ∃ cats' e' k l,
    upsert cname s2 (upsert cname s1 (Some cats)) = Some cats'
    ∧ cats' !! i = Some e' ∧ category_name e' = trim cname
    ∧ k ≠ l
    ∧ sections e' !! k = Some (trim s1)
    ∧ sections e' !! l = Some (trim s2).
Proof.
  intros Hc Hfind H1 H2 Hne.
  rewrite (upsert_found cname s1 i e cats) by done.
  pose proof (find_category_alter _ (trim s1) _ _ _ Hfind) as Hfind1.
  rewrite (upsert_found cname s2 i _ _ Hc H2 Hfind1).
  pose proof (find_category_alter _ (trim s2) _ _ _ Hfind1) as Hfind2.
  apply list_find_Some in Hfind2 as (Hi & Hname & _).
  set (e' := add_section (trim s2) (add_section (trim s1) e)) in *.
  assert (trim s1 ∈ sections e') as [k Hk]%list_elem_of_lookup
    by apply add_section_keeps, elem_of_add_section.
  assert (trim s2 ∈ sections e') as [l Hl]%list_elem_of_lookup
    by apply elem_of_add_section.
  eexists _, e', k, l. split_and!; try done.
  intros ->. congruence.
Qed.

Lemma upsert_same_trimmed t a b sa :
  trim a = trim b → upsert b [] (upsert a sa t) = upsert a sa t.
Proof.
  intros Heq. destruct (decide (trim b = [])) as [Hb|Hb].
  - unfold upsertTaxonomyCategorySection at 1, normalizeName. simpl.
    by rewrite Hb.
  - destruct (upsert_adds a sa t) as (cats & -> & Hin); [congruence|].
    rewrite Heq in Hin.
    apply list_elem_of_fmap in Hin as (c & Hname & Hc).
    destruct (list_find_elem_of (λ c, category_name c = trim b) cats c)
      as [[i c'] Hfind]; [done..|].
    unfold upsertTaxonomyCategorySection, normalizeName, find_category. simpl.
    by rewrite (truthy_true _ Hb), Hfind.
Qed.

(** An upsert records its section where the taxonomy document is created
    by it, where the category is already in the document, and, for a
    category that the upsert pushes, where the pushed entry is the one the
    document holds: the category is then found, with the section among
    its sections. *)
Lemma upsert_section_recorded t (cname : jsstring) s :
  trim cname ≠ [] → trim s ≠ [] →
  t = None ∨ push_aliases = true
  ∨ (∃ cats, t = Some cats ∧ trim cname ∈ category_name <$> cats) →
  ∃ cats1 j e1,
    upsert cname s t = Some cats1
    ∧ find_category (trim cname) cats1 = Some (j, e1)
    ∧ trim s ∈ sections e1.
Proof.
  intros Hc Hs Hcond. destruct t as [cats|].
  - destruct (find_category (trim cname) cats) as [[i e]|] eqn:Hfind.
    + rewrite (upsert_found cname s i e cats) by done.
      eexists _, i, _. split; [done|]. split.
      * by apply find_category_alter.
      * apply elem_of_add_section.
    + destruct Hcond as [?|[Hpush|(cats0 & [= <-] & Hin)]]; [done| |].
      2:{ by apply find_category_None in Hfind. }
      unfold upsertTaxonomyCategorySection, normalizeName. simpl.
      rewrite (truthy_true _ Hc), (truthy_true _ Hs), Hfind, Hpush. simpl.
      eexists _, (length cats), _. split; [done|]. split.
      * apply list_find_app_Some. right. split_and!; [done..|].
        rewrite Nat.sub_diag. simpl. by rewrite decide_True.
      * simpl. apply elem_of_cons. by left.
  - unfold upsertTaxonomyCategorySection, normalizeName. simpl.
    rewrite (truthy_true _ Hc), (truthy_true _ Hs). simpl.
    eexists _, 0%nat, _. split; [done|]. split.
    + unfold find_category. simpl. by rewrite decide_True.
    + simpl. apply elem_of_cons. by left.
Qed.

Lemma upsert_two_sections_recorded t (cname : jsstring) s1 s2 :
  trim cname ≠ [] → trim s1 ≠ [] → trim s2 ≠ [] → trim s1 ≠ trim s2 →
  t = None ∨ push_aliases = true
  ∨ (∃ cats, t = Some cats ∧ trim cname ∈ category_name <$> cats) →
  ∃ cats' j e' k l,
    upsert cname s2 (upsert cname s1 t) = Some cats'
    ∧ cats' !! j = Some e' ∧ category_name e' = trim cname
    ∧ k ≠ l
    ∧ sections e' !! k = Some (trim s1)
    ∧ sections e' !! l = Some (trim s2).
Proof.
  intros Hc H1 H2 Hne Hcond.
  destruct (upsert_section_recorded t cname s1 Hc H1 Hcond)
    as (cats1 & j & e1 & -> & Hfind & Hin).
  rewrite (upsert_found cname s2 j e1 cats1) by done.
  pose proof (find_category_alter _ (trim s2) _ _ _ Hfind) as Hfind2.
  apply list_find_Some in Hfind2 as (Hj & Hname & _).
  set (e' := add_section (trim s2) e1) in *.
  assert (trim s1 ∈ sections e') as [k Hk]%list_elem_of_lookup
    by by apply add_section_keeps.
  assert (trim s2 ∈ sections e') as [l Hl]%list_elem_of_lookup
    by apply elem_of_add_section.
  eexists _, j, e', k, l. split_and!; try done.
  intros ->. congruence.
Qed.

Lemma upsert_same_section t (cname a : jsstring) s1 s2 :
  trim cname ≠ [] → trim a = trim cname →
  trim s1 ≠ [] → trim s2 = trim s1 →
  t = None ∨ push_aliases = true
  ∨ (∃ cats, t = Some cats ∧ trim cname ∈ category_name <$> cats) →
  upsert a s2 (upsert cname s1 t) = upsert cname s1 t.
Proof.
  intros Hc Ha H1 H2 Hcond.
  destruct (upsert_section_recorded t cname s1 Hc H1 Hcond)
    as (cats1 & j & e1 & -> & Hfind & Hin).
  rewrite <- Ha in Hc, Hfind. rewrite <- H2 in H1, Hin.
  rewrite (upsert_found a s2 j e1 cats1) by done. f_equal.
  apply list_find_Some in Hfind as (Hj & _ & _).
  rewrite <- (list_alter_id (λ x, x) cats1 j) at 2 by done.
  apply list_alter_ext; [|done]. intros x Hx. simplify_eq.
  unfold add_section. by rewrite bool_decide_eq_true_2.
Qed.

(** C8 (as amended). A category or section name is trimmed of leading and
    trailing white space and then matched by plain string equality.  So:
    names that differ only in letter case still differ, and are not empty,
    once trimmed; two category names whose trimmed forms are not empty and
    differ make two different entries when both are upserted; so do two
    such section names in the sections of their category, where the
    section of the first upsert was recorded (the category was in the
    document, or the upsert created the document, or a pushed entry is the
    one the document holds); and a name whose trimmed form is that of a
    name already upserted lands on the same entry, the taxonomy being left
    as it was (for a section name, where the first section was
    recorded). *)
Theorem taxonomy_names_matched_after_trim :
  (∀ a b, differ_only_in_case a b →
     trim a ≠ trim b ∧ trim a ≠ [] ∧ trim b ≠ [])
  ∧ (∀ t a b sa sb, trim a ≠ [] → trim b ≠ [] → trim a ≠ trim b →
     two_entries (trim a) (trim b) (upsert b sb (upsert a sa t)))
  ∧ (∀ t a b sa sb, differ_only_in_case a b →
     two_entries (trim a) (trim b) (upsert b sb (upsert a sa t)))
  ∧ (∀ cats (cname : jsstring) i (e : category) s1 s2,
     trim cname ≠ [] → find_category (trim cname) cats = Some (i, e) →
     trim s1 ≠ [] → trim s2 ≠ [] → trim s1 ≠ trim s2 →
     ∃ cats' e' k l,
       upsert cname s2 (upsert cname s1 (Some cats)) = Some cats'
       ∧ cats' !! i = Some e' ∧ category_name e' = trim cname
       ∧ k ≠ l
       ∧ sections e' !! k = Some (trim s1)
       ∧ sections e' !! l = Some (trim s2))
  ∧ (∀ t (cname : jsstring) s1 s2,
     trim cname ≠ [] → trim s1 ≠ [] → trim s2 ≠ [] → trim s1 ≠ trim s2 →
     t = None ∨ push_aliases = true
     ∨ (∃ cats, t = Some cats ∧ trim cname ∈ category_name <$> cats) →
     ∃ cats' j e' k l,
       upsert cname s2 (upsert cname s1 t) = Some cats'
       ∧ cats' !! j = Some e' ∧ category_name e' = trim cname
       ∧ k ≠ l
       ∧ sections e' !! k = Some (trim s1)
       ∧ sections e' !! l = Some (trim s2))
  ∧ (∀ t a b sa, trim a = trim b →
     upsert b [] (upsert a sa t) = upsert a sa t)
  ∧ (∀ t (cname a : jsstring) s1 s2,
     trim cname ≠ [] → trim a = trim cname →
     trim s1 ≠ [] → trim s2 = trim s1 →
     t = None ∨ push_aliases = true
     ∨ (∃ cats, t = Some cats ∧ trim cname ∈ category_name <$> cats) →
     upsert a s2 (upsert cname s1 t) = upsert cname s1 t).
Proof.
  split_and!.
  - apply differ_only_in_case_trim.
  - apply upsert_two_entries.
  - intros t a b sa sb (Hne & Ha & Hb)%differ_only_in_case_trim.
    by apply upsert_two_entries.
  - apply upsert_two_sections.
  - apply upsert_two_sections_recorded.
  - apply upsert_same_trimmed.
  - apply upsert_same_section.
Qed.

End TaxonomyProps.

Section ServerProps.

Import Server.

Context {stored input node : Type}.
Context (castObjectId : jsstring → option oid).
Context (push_aliases reject_at_limit : bool).
Context (castString : node → option stored).

#[local] Abbreviation db := (@db stored input).
#[local] Abbreviation call := (@call node).
#[local] Abbreviation cast_state := (cast_state castString).
#[local] Abbreviation upsert := (upsertTaxonomyCategorySection push_aliases).
#[local] Abbreviation api :=
  (@api stored input castObjectId push_aliases reject_at_limit node castString).

Implicit Types (cats : list category) (c : category) (i : nat).
Implicit Types (s name : jsstring) (t : option (list category)).

(** *** The taxonomy under the request handlers *)

Lemma existsb_name_false name cats :
  existsb (λ c, bool_decide (category_name c = name)) cats = false →
  name ∉ category_name <$> cats.
Proof.
  intros Hex (c & -> & Hc)%list_elem_of_fmap.
  apply not_true_iff_false in Hex. apply Hex.
  apply existsb_exists. exists c. split; [by apply list_elem_of_In|].
  by apply bool_decide_eq_true.
Qed.


Lemma tax_step_refl t : tax_step t t.
Proof. intros Ht. split; [done|apply tax_extends_refl]. Qed.

Lemma post_category_tax name_raw (d : db) :
  tax_step (taxonomy d) (taxonomy (post_category name_raw d).1).
Proof.
  unfold post_category.
  destruct (negb (truthy _)); [apply tax_step_refl|].
  destruct (taxonomy d) as [cats|] eqn:Ht; simpl.
  - destruct (existsb _ cats) eqn:Hex; simpl; rewrite ?Ht; [apply tax_step_refl|].
    intros Hinv. split; [|apply cats_extend_snoc].
    apply tax_unique_snoc; [done|by apply existsb_name_false|constructor].
  - intros _. split; [|done]. apply (tax_unique_single _ false []).
Qed.

Lemma post_section_tax category_raw name_raw (d : db) :
  tax_step (taxonomy d) (taxonomy (post_section push_aliases category_raw name_raw d).1).
Proof.
  unfold post_section.
  destruct (negb (truthy _)); [apply tax_step_refl|].
  destruct (negb (truthy _)); [apply tax_step_refl|].
  destruct (taxonomy d) as [cats|] eqn:Ht; simpl.
  - destruct (find_category _ cats) as [[i c]|] eqn:Hfind.
    + case_bool_decide; simpl; rewrite ?Ht; [apply tax_step_refl|].
      intros Hinv. split; [by apply tax_unique_alter|apply cats_extend_alter].
    + simpl. intros Hinv. split; [|apply cats_extend_snoc].
      apply tax_unique_snoc; [done|by apply find_category_None|].
      apply NoDup_optional_singleton.
  - intros _. split; [|done]. apply (tax_unique_single _ true).
Qed.

Lemma post_asset_tax newFileId newAssetId f fields (d : db) :
  tax_step (taxonomy d)
    (taxonomy (post_asset push_aliases reject_at_limit
                 newFileId newAssetId f fields d).1).
Proof.
  unfold post_asset.
  repeat (case_match; simpl; try apply tax_step_refl).
  all: intros Hinv; by apply upsert_inv.
Qed.

Lemma patch_asset_tax id patch (d : db) :
  tax_step (taxonomy d)
    (taxonomy (patch_asset castObjectId push_aliases id patch d).1).
Proof.
  unfold patch_asset.
  repeat (case_match; simpl; try apply tax_step_refl).
  all: intros Hinv; by apply upsert_inv.
Qed.

Lemma route_tax (c : call) (d : db) :
  tax_step (taxonomy d)
    (taxonomy (route castObjectId push_aliases reject_at_limit castString c d).1).
Proof.
  destruct c; simpl.
  - apply post_asset_tax.
  - apply patch_asset_tax.
  - unfold delete_asset. repeat (case_match; simpl; try apply tax_step_refl).
  - unfold get_taxonomy. destruct (taxonomy d) eqn:Ht; simpl; rewrite ?Ht;
      [apply tax_step_refl|]. intros _. split; [|done]. split; simpl; constructor.
  - apply post_category_tax.
  - apply post_section_tax.
  - unfold get_plots, requireAuth. repeat (case_match; simpl; try apply tax_step_refl).
  - unfold post_plots, requireAuth, find_plot.
    repeat (case_match; simpl; try apply tax_step_refl).
  - unfold get_plot, requireAuth. repeat (case_match; simpl; try apply tax_step_refl).
Qed.

Lemma route_tax_api (d : db) (c : call) :
  tax_inv (taxonomy d) → tax_inv (taxonomy (api d c).1).
Proof.
  unfold Server.api. destruct (negb (isDbReady d)); simpl; [done|].
  intros Hinv. by apply route_tax.
Qed.

(** C3. Whatever the request, a taxonomy whose category names are unique,
    and whose section names are unique within each category, is left so;
    and the document stays, every category keeps its place and its name,
    and keeps its sections in their order: categories and sections are
    only ever appended.  This covers the upsert that an asset upload or an
    asset patch triggers, category creation and section creation (and the
    requests that do not write the taxonomy at all). *)
Theorem taxonomy_unique_append_only (d : db) (c : call) :
  tax_inv (taxonomy d) →
  tax_inv (taxonomy (api d c).1)
  ∧ tax_extends (taxonomy d) (taxonomy (api d c).1).
Proof.
  unfold Server.api. destruct (negb (isDbReady d)); simpl.
  - apply tax_step_refl.
  - apply route_tax.
Qed.


(** So a taxonomy that these requests have built from nothing has unique
    names. *)
Lemma taxonomy_unique_from_none (d : db) (cs : list call) :
  taxonomy d = None →
  tax_inv (taxonomy (serve castObjectId push_aliases reject_at_limit castString d cs)).
Proof.
  intros Hnone.
  assert (tax_inv (taxonomy d)) as Hinv by (by rewrite Hnone).
  clear Hnone. revert d Hinv. unfold serve.
  induction cs as [|c cs IH]; intros d Hinv; [done|].
  simpl. apply IH. by apply route_tax_api.
Qed.

(** *** Plots *)

Implicit Types (d : db) (uid o : oid) (u : user) (fields : @save_fields node).

#[local] Abbreviation owned_by uid :=
  (λ ip : oid * @plot stored input, userId ip.2 = uid).

Lemma api_ready d (c : call) :
  isDbReady d = true →
  api d c = route castObjectId push_aliases reject_at_limit castString c d.
Proof. intros Hr. unfold Server.api. by rewrite Hr. Qed.

Ltac api_route :=
  rewrite api_ready by done; cbv beta iota delta [route].

Lemma requireAuth_ok d uid u (next : oid → db * response) :
  users d !! uid = Some u → requireAuth (Some uid) d next = next uid.
Proof. intros Hu. unfold requireAuth. by rewrite Hu. Qed.

Lemma isValidObjectId_Some s o :
  castObjectId s = Some o → isValidObjectId castObjectId s = true.
Proof. intros Hs. apply bool_decide_eq_true. by eexists. Qed.

Lemma isValidObjectId_None s :
  castObjectId s = None → isValidObjectId castObjectId s = false.
Proof. intros Hs. apply bool_decide_eq_false. rewrite Hs. by intros [? ?]. Qed.

Lemma find_plot_Some o uid d p :
  find_plot o uid d = Some p ↔ plots d !! o = Some p ∧ userId p = uid.
Proof.
  unfold find_plot. destruct (plots d !! o) as [q|]; [|naive_solver].
  case_bool_decide; naive_solver.
Qed.

Lemma find_plot_None o uid d :
  find_plot o uid d = None ↔
  plots d !! o = None ∨ ∃ p, plots d !! o = Some p ∧ userId p ≠ uid.
Proof.
  unfold find_plot. destruct (plots d !! o) as [q|]; [|naive_solver].
  case_bool_decide; naive_solver.
Qed.

Lemma listing_ids d uid o :
  o ∈ (filter (owned_by uid) (map_to_list (plots d))).*1
  ↔ ∃ p, plots d !! o = Some p ∧ userId p = uid.
Proof.
  rewrite list_elem_of_fmap. split.
  - intros ([o' p] & -> & [Hown Hin%elem_of_map_to_list]%list_elem_of_filter).
    by exists p.
  - intros (p & Hp & Hown). exists (o, p). split; [done|].
    apply list_elem_of_filter. split; [done|]. by apply elem_of_map_to_list.
Qed.

Lemma summary_ids (l : list (oid * @plot stored input)) :
  summary_id <$> (summarize <$> l) = l.*1.
Proof. rewrite <- list_fmap_compose. by apply list_fmap_ext. Qed.

(** The listing comes with the plot last written first. *)
Lemma get_plots_sorted d uid u :
  users d !! uid = Some u →
  ∃ l : list (oid * @plot stored input),
    get_plots (Some uid) d = (d, Response 200 (BPlots (summarize <$> l)))
    ∧ Sorted later_first l.
Proof.
  intros Hu. unfold get_plots. rewrite (requireAuth_ok _ _ _ _ Hu).
  eexists. split; [done|]. apply Sorted_merge_sort.
  intros a b. unfold later_first. lia.
Qed.

(** Reading and saving look a plot up by its id and the requester's id
    together: a plot that exists but is owned by someone else is answered
    404 "Plot not found" on a read, and on an update whose state can be
    cast, and nothing is written; the requester's own plot is read; and
    the listing holds, once each, exactly the plots whose [userId] is the
    requester's. *)
Lemma plot_ownership_in_queries d uid u :
  isDbReady d = true → users d !! uid = Some u →
  (∀ id o p, castObjectId id = Some o → plots d !! o = Some p →
     userId p ≠ uid →
     api d (GetPlot (Some uid) id) = (d, error 404 "Plot not found"))
  ∧ (∀ now newId fields pid o p,
     save_plotId fields = Some pid → trim pid ≠ [] →
     castObjectId (trim pid) = Some o →
     is_Some (cast_state (default [] (save_state fields))) →
     plots d !! o = Some p → userId p ≠ uid →
     api d (PostPlots now newId (Some uid) fields)
     = (d, error 404 "Plot not found"))
  ∧ (∀ id o p, castObjectId id = Some o → plots d !! o = Some p →
     userId p = uid →
     api d (GetPlot (Some uid) id)
     = (d, Response 200 (BPlot o (or_untitled (plot_name p)) (state p)
                               (inputs p) (createdAt p) (updatedAt p))))
  ∧ (∃ l, api d (GetPlots (Some uid)) = (d, Response 200 (BPlots l))
       ∧ l ≡ₚ summarize <$> filter (owned_by uid) (map_to_list (plots d))
       ∧ NoDup (summary_id <$> l)
       ∧ ∀ o, o ∈ summary_id <$> l
              ↔ ∃ p, plots d !! o = Some p ∧ userId p = uid).
Proof.
  intros Hready Hu. split_and!.
  - intros id o p Hid Hp Hown. api_route.
    unfold get_plot. rewrite (requireAuth_ok _ _ _ _ Hu), (isValidObjectId_Some _ _ Hid), Hid. simpl.
    by rewrite (proj2 (find_plot_None o uid d)) by eauto.
  - intros now newId fields pid o p Hpid Hne Hid [state' Hcast] Hp Hown.
    api_route.
    unfold post_plots. rewrite (requireAuth_ok _ _ _ _ Hu), Hpid. simpl.
    rewrite (truthy_true _ Hne), (isValidObjectId_Some _ _ Hid), Hid, Hcast. simpl.
    by rewrite (proj2 (find_plot_None o uid d)) by eauto.
  - intros id o p Hid Hp Hown. api_route.
    unfold get_plot. rewrite (requireAuth_ok _ _ _ _ Hu), (isValidObjectId_Some _ _ Hid), Hid. simpl.
    by rewrite (proj2 (find_plot_Some o uid d p)) by eauto.
  - eexists. api_route.
    unfold get_plots. rewrite (requireAuth_ok _ _ _ _ Hu).
    split; [done|].
    assert (merge_sort later_first (filter (owned_by uid) (map_to_list (plots d)))
            ≡ₚ filter (owned_by uid) (map_to_list (plots d))) as Hperm
      by apply merge_sort_Permutation.
    split_and!.
    + by rewrite Hperm.
    + rewrite summary_ids, Hperm.
      apply NoDup_fmap_fst.
      * intros o p q [_ Hp%elem_of_map_to_list]%list_elem_of_filter
                     [_ Hq%elem_of_map_to_list]%list_elem_of_filter.
        congruence.
      * apply NoDup_filter, NoDup_map_to_list.
    + intros o. rewrite summary_ids, Hperm. apply listing_ids.
Qed.

Lemma post_plots_update d uid u now newId fields o p state' :
  users d !! uid = Some u →
  default [] (trim <$> save_plotId fields) ≠ [] →
  castObjectId (default [] (trim <$> save_plotId fields)) = Some o →
  cast_state (default [] (save_state fields)) = Some state' →
  plots d !! o = Some p → userId p = uid →
  post_plots castObjectId castString now newId (Some uid) fields d
  = (set_plots <[o := Plot (userId p)
                          (default [] (trim <$> save_name fields))
                          state' (inputs p) (createdAt p) now]> d,
     Response 200 (BId o)).
Proof.
  intros Hu Hne Hid Hcast Hp Hown. unfold post_plots.
  rewrite (requireAuth_ok _ _ _ _ Hu), (truthy_true _ Hne),
    (isValidObjectId_Some _ _ Hid), Hid, Hcast. simpl.
  by rewrite (proj2 (find_plot_Some o uid d p)) by eauto.
Qed.

Lemma post_plots_create d uid u now newId fields state' :
  users d !! uid = Some u →
  default [] (trim <$> save_plotId fields) = [] →
  cast_state (default [] (save_state fields)) = Some state' →
  post_plots castObjectId castString now newId (Some uid) fields d
  = (set_plots <[newId := Plot uid (default [] (trim <$> save_name fields))
                              state' [] now now]> d,
     Response 201 (BId newId)).
Proof.
  intros Hu Hnil Hcast. unfold post_plots.
  by rewrite (requireAuth_ok _ _ _ _ Hu), Hnil, Hcast.
Qed.

(** Where an element of the state cannot be cast, a save that has passed
    the check of its plot id throws: 500, and nothing is written. *)
Lemma post_plots_cast_error d uid u now newId fields :
  users d !! uid = Some u →
  cast_state (default [] (save_state fields)) = None →
  default [] (trim <$> save_plotId fields) = []
  ∨ is_Some (castObjectId (default [] (trim <$> save_plotId fields))) →
  post_plots castObjectId castString now newId (Some uid) fields d
  = (d, uncaught).
Proof.
  intros Hu Hcast Hid. unfold post_plots.
  rewrite (requireAuth_ok _ _ _ _ Hu), Hcast.
  destruct Hid as [->|[o Hid]]; [done|].
  rewrite (isValidObjectId_Some _ _ Hid), Hid.
  by destruct (truthy _).
Qed.

(** C2 (as amended). A save by a signed-in requester that carries a plot
    id updates, it never creates.  When the id is not valid the answer is
    400, and nothing is created or changed.  For a state that can be
    stored under the schema (every element cast to the element type it
    declares): when the id is that of a plot the requester owns, the
    plot's state and name become the request's (the state as cast, the
    name trimmed, a missing state the empty array), whatever they were
    before; and when no plot of the requester has that id the answer is
    404 and nothing is created or changed.  A save without a plot id, of
    such a state, creates a new plot owned by the requester. *)
Theorem save_plot_updates_or_creates d uid u now newId fields :
  isDbReady d = true → users d !! uid = Some u →
  let state := default [] (save_state fields) in
  let name := default [] (trim <$> save_name fields) in
  let plotId := default [] (trim <$> save_plotId fields) in
  let result := api d (PostPlots now newId (Some uid) fields) in
  (∀ o p state', plotId ≠ [] → castObjectId plotId = Some o →
     cast_state state = Some state' →
     plots d !! o = Some p → userId p = uid →
     result.2 = Response 200 (BId o)
     ∧ plots result.1
       = <[o := Plot uid name state' (inputs p) (createdAt p) now]> (plots d))
  ∧ (plotId ≠ [] → castObjectId plotId = None →
     result = (d, error 400 "Invalid plot id"))
  ∧ (∀ o, plotId ≠ [] → castObjectId plotId = Some o →
     is_Some (cast_state state) →
     find_plot o uid d = None →
     result = (d, error 404 "Plot not found"))
  ∧ (∀ state', plotId = [] → cast_state state = Some state' →
     result.2 = Response 201 (BId newId)
     ∧ plots result.1 = <[newId := Plot uid name state' [] now now]> (plots d)).
Proof.
  intros Hready Hu state name plotId result. subst state name plotId result.
  rewrite api_ready by done. cbv beta iota delta [route]. split_and!.
  - intros o p state' Hne Hid Hcast Hp Hown.
    rewrite (post_plots_update d uid u now newId fields o p state') by done.
    by rewrite Hown.
  - intros Hne Hid. unfold post_plots.
    by rewrite (requireAuth_ok _ _ _ _ Hu), (truthy_true _ Hne),
      (isValidObjectId_None _ Hid).
  - intros o Hne Hid [state' Hcast] Hnone. unfold post_plots.
    by rewrite (requireAuth_ok _ _ _ _ Hu), (truthy_true _ Hne),
      (isValidObjectId_Some _ _ Hid), Hid, Hcast, Hnone.
  - intros state' Hnil Hcast.
    by rewrite (post_plots_create d uid u _ _ _ state') by done.
Qed.

Lemma save_plot_frame d session now newId fields :
  let plotId := default [] (trim <$> save_plotId fields) in
  let d' := (api d (PostPlots now newId session fields)).1 in
  (∀ o p, plots d !! o = Some p → plotId ≠ [] ∨ o ≠ newId →
     ∃ p', plots d' !! o = Some p'
           ∧ inputs p' = inputs p ∧ userId p' = userId p)
  ∧ (∀ o p p', plotId ≠ [] → plots d !! o = Some p →
     plots d' !! o = Some p' → p' ≠ p →
     castObjectId plotId = Some o ∧ session = Some (userId p)
     ∧ ∃ state',
         cast_state (default [] (save_state fields)) = Some state'
         ∧ p' = Plot (userId p) (default [] (trim <$> save_name fields))
                     state' (inputs p) (createdAt p) now)
  ∧ (∀ o p', plots d !! o = None → plots d' !! o = Some p' →
     inputs p' = [] ∧ Some (userId p') = session).
Proof.
  intros plotId d'. subst d'. unfold Server.api.
  destruct (negb (isDbReady d)) eqn:Hready; simpl.
  { split_and!.
    - intros o p Hp _. by exists p.
    - intros o p p' _ Hp Hp' Hne. congruence.
    - intros o p' Hnone Hsome. congruence. }
  unfold post_plots, requireAuth.
  destruct session as [uid|]; simpl.
  2:{ split_and!; [intros o p Hp _; by exists p| |].
      - intros o p p' _ Hp Hp' Hne. congruence.
      - intros o p' Hnone Hsome. congruence. }
  destruct (users d !! uid) as [u|] eqn:Hu; simpl.
  2:{ split_and!; [intros o p Hp _; by exists p| |].
      - intros o p p' _ Hp Hp' Hne. congruence.
      - intros o p' Hnone Hsome. congruence. }
  fold plotId. destruct (truthy plotId) eqn:Htruthy.
  - destruct (castObjectId plotId) as [o'|] eqn:Hid;
      [rewrite (isValidObjectId_Some _ _ Hid)
      |rewrite (isValidObjectId_None _ Hid)]; simpl.
    2:{ split_and!; [intros o p Hp _; by exists p| |].
        - intros o p p' _ Hp Hp' Hne. congruence.
        - intros o p' Hnone Hsome. congruence. }
    destruct (cast_state _) as [state'|] eqn:Hcast; simpl.
    2:{ split_and!; [intros o p Hp _; by exists p| |].
        - intros o p p' _ Hp Hp' Hne. congruence.
        - intros o p' Hnone Hsome. congruence. }
    destruct (find_plot o' uid d) as [q|] eqn:Hfind; simpl.
    2:{ split_and!; [intros o p Hp _; by exists p| |].
        - intros o p p' _ Hp Hp' Hne. congruence.
        - intros o p' Hnone Hsome. congruence. }
    apply find_plot_Some in Hfind as [Hq Hown]. simpl. split_and!.
    + intros o p Hp _. destruct (decide (o = o')) as [->|Hne].
      * rewrite lookup_insert_eq. eexists. split; [done|]. simpl.
        by simplify_eq.
      * rewrite lookup_insert_ne by done. by exists p.
    + intros o p p' _ Hp. destruct (decide (o = o')) as [->|Hne].
      * rewrite lookup_insert_eq. intros [= <-] _. simplify_eq.
        split_and!; [done..|]. by exists state'.
      * rewrite lookup_insert_ne by done. congruence.
    + intros o p' Hnone. destruct (decide (o = o')) as [->|Hne]; [congruence|].
      rewrite lookup_insert_ne by done. congruence.
  - assert (plotId = []) as Hnil by (by destruct plotId).
    destruct (cast_state _) as [state'|] eqn:Hcast; simpl.
    2:{ split_and!; [intros o p Hp _; by exists p|done|].
        intros o p' Hnone Hsome. congruence. }
    split_and!; [|done|].
    + intros o p Hp [Hne|Hne]; [done|].
      rewrite lookup_insert_ne by done. by exists p.
    + intros o p' Hnone. destruct (decide (o = newId)) as [->|Hne].
      * rewrite lookup_insert_eq. by intros [= <-].
      * rewrite lookup_insert_ne by done. congruence.
Qed.

(** C9. The save endpoint never writes [inputs] from the request.  Every
    save leaves every stored plot with the [inputs] and the [userId] it
    had (the plot under the id that a save without a plot id creates
    apart); a stored plot that a save changes is the plot under the
    request's id, owned by the requester, and it is its [state] and its
    [name] that are set, to the request's (the state as Mongoose casts it,
    the name trimmed), Mongoose stamping [updatedAt] and the other fields
    standing; the requester's update of a plot, with a state that can be
    cast, does set these; and a plot that a save brings into being has
    empty [inputs] and the requester as its owner. *)
Theorem save_plot_leaves_inputs_and_owner d session now newId fields :
  let plotId := default [] (trim <$> save_plotId fields) in
  let d' := (api d (PostPlots now newId session fields)).1 in
  (∀ o p, plots d !! o = Some p → plotId ≠ [] ∨ o ≠ newId →
     ∃ p', plots d' !! o = Some p'
           ∧ inputs p' = inputs p ∧ userId p' = userId p)
  ∧ (∀ o p p', plotId ≠ [] → plots d !! o = Some p →
     plots d' !! o = Some p' → p' ≠ p →
     castObjectId plotId = Some o ∧ session = Some (userId p)
     ∧ ∃ state',
         cast_state (default [] (save_state fields)) = Some state'
         ∧ p' = Plot (userId p) (default [] (trim <$> save_name fields))
                     state' (inputs p) (createdAt p) now)
  ∧ (∀ o p uid state', plotId ≠ [] → isDbReady d = true →
     session = Some uid → is_Some (users d !! uid) →
     castObjectId plotId = Some o →
     cast_state (default [] (save_state fields)) = Some state' →
     plots d !! o = Some p → userId p = uid →
     plots d' !! o
     = Some (Plot (userId p) (default [] (trim <$> save_name fields))
                  state' (inputs p) (createdAt p) now))
  ∧ (∀ o p', plots d !! o = None → plots d' !! o = Some p' →
     inputs p' = [] ∧ Some (userId p') = session).
Proof.
  intros plotId d'.
  destruct (save_plot_frame d session now newId fields) as (Hkept & Hset & Hnew).
  split_and!; [exact Hkept|exact Hset| |exact Hnew].
  intros o p uid state' Hne Hready -> [u Hu] Hid Hcast Hp Hown. subst d'.
  rewrite api_ready by done. cbv beta iota delta [route].
  rewrite (post_plots_update d uid u now newId fields o p state') by done.
  simpl. by rewrite lookup_insert_eq.
Qed.

(** *** Assets *)

Implicit Types (f : upfile) (a : asset).

#[local] Abbreviation upload_single := (upload_single reject_at_limit).
#[local] Abbreviation post_asset := (post_asset push_aliases reject_at_limit).

Lemma fileFilter_types f :
  fileFilter f = true ↔
  mimetype f ∈ [js "image/png"; js "image/svg+xml"; js "image/x-png"].
Proof.
  unfold fileFilter. rewrite !orb_true_iff, !bool_decide_eq_true.
  rewrite !elem_of_cons, elem_of_nil. naive_solver.
Qed.

Lemma over_limit_false size : over_limit reject_at_limit size = false → size ≤ fileSize.
Proof.
  unfold over_limit.
  destruct reject_at_limit; [intros ?%N.leb_gt|intros ?%N.ltb_ge]; lia.
Qed.

Lemma over_limit_true size : fileSize < size → over_limit reject_at_limit size = true.
Proof.
  unfold over_limit. intros Hsize.
  destruct reject_at_limit; [apply N.leb_le|apply N.ltb_lt]; lia.
Qed.

Lemma upload_single_accepts f f' :
  upload_single (Some f) = inr (Some f') →
  f' = f ∧ fileFilter f = true ∧ Png.blen (buffer f) ≤ fileSize.
Proof.
  unfold Server.upload_single.
  destruct (fileFilter f); simpl; [|done].
  destruct (over_limit _ _) eqn:Hsize; [done|].
  intros [= <-]. split_and!; [done..|]. by apply over_limit_false.
Qed.

Lemma upload_single_rejects f :
  fileFilter f = false ∨ fileSize < Png.blen (buffer f) →
  ∃ msg, upload_single (Some f) = inl msg.
Proof.
  unfold Server.upload_single. intros [Hf|Hsize].
  - rewrite Hf. by eexists.
  - destruct (fileFilter f); simpl; [|by eexists].
    rewrite over_limit_true by done. by eexists.
Qed.

(** What [post_asset] does on each of its paths. *)
Lemma post_asset_cases newFileId newAssetId f (fields : upload_fields) d :
  let result := post_asset newFileId newAssetId (Some f) fields d in
  (status result.2 ≠ 201 ∧ assets result.1 = assets d
   ∧ ((∃ msg, upload_single (Some f) = inl msg) → result = (d, uncaught)))
  ∨ (status result.2 = 201
     ∧ upload_single (Some f) = inr (Some f)
     ∧ ∃ a, result.2 = Response 201 (BAsset newAssetId a)
            ∧ assets result.1 = <[newAssetId := a]> (assets d)
            ∧ files result.1
              = <[newFileId := File (originalname f) (mimetype f) (buffer f)]> (files d)
            ∧ fileId a = newFileId
            ∧ contentType (asset_metadata a) = mimetype f
            ∧ hasAlpha (asset_metadata a)
              = (if is_png f then Png.detectPngHasAlpha (buffer f) else None)).
Proof.
  intros result. subst result. unfold Server.post_asset.
  destruct (upload_single (Some f)) as [msg|[f'|]] eqn:Hup; simpl.
  { left. by split_and!. }
  2:{ left. split_and!; [done..|]. by intros [? ?]. }
  apply upload_single_accepts in Hup as (-> & _ & _).
  destruct (negb (bucket d)); simpl.
  { left. split_and!; [done..|]. by intros [? ?]. }
  destruct (detectPngHasAlpha_returns (buffer f)) as [r Hr].
  assert ((if is_png f then Some <$> Png.detectPngHasAlpha (buffer f)
           else Some None)
          = Some (if is_png f then Png.detectPngHasAlpha (buffer f) else None))
    as -> by (destruct (is_png f); [by rewrite Hr|done]).
  destruct (negb (truthy _)); simpl.
  { left. split_and!; [done..|]. by intros [? ?]. }
  right. split_and!; [done..|]. eexists. by split_and!.
Qed.

(** C6. An upload is accepted (answered 201) only when the file's MIME
    type is image/png, image/svg+xml or image/x-png and it holds at most
    2*1024*1024 octets; a file of another type, or a larger one, is
    rejected, and nothing is stored; whenever the answer is not 201 no
    asset record has been created; and on success the created record
    carries the file's content type, and an alpha flag that is the result
    of [detectPngHasAlpha] for the two PNG types and is absent otherwise,
    so for SVG. *)
Theorem upload_validated_before_storage d newFileId newAssetId f
    (fields : upload_fields) :
  let result := api d (PostAsset newFileId newAssetId (Some f) fields) in
  (status result.2 = 201 →
     mimetype f ∈ [js "image/png"; js "image/svg+xml"; js "image/x-png"]
     ∧ Png.blen (buffer f) ≤ 2 * 1024 * 1024)
  ∧ (mimetype f ∉ [js "image/png"; js "image/svg+xml"; js "image/x-png"]
     ∨ 2 * 1024 * 1024 < Png.blen (buffer f) →
     status result.2 ≠ 201 ∧ result.1 = d)
  ∧ (status result.2 ≠ 201 → assets result.1 = assets d)
  ∧ (status result.2 = 201 →
     ∃ a, result.2 = Response 201 (BAsset newAssetId a)
          ∧ assets result.1 !! newAssetId = Some a
          ∧ contentType (asset_metadata a) = mimetype f
          ∧ hasAlpha (asset_metadata a)
            = (if is_png f then Png.detectPngHasAlpha (buffer f) else None)
          ∧ (mimetype f = js "image/svg+xml" → hasAlpha (asset_metadata a) = None)).
Proof.
  intros result. subst result. unfold Server.api.
  destruct (negb (isDbReady d)); simpl; [by split_and!|].
  destruct (post_asset_cases newFileId newAssetId f fields d)
    as [(Hstatus & Hassets & Hrej)|(Hstatus & Hup & a & Hresp & Hassets & _ & _ & Hct & Halpha)].
  - split_and!; [done| |done..].
    intros Hbad. split; [done|]. rewrite Hrej; [done|].
    apply upload_single_rejects. rewrite <- fileFilter_types in Hbad.
    destruct Hbad as [Hbad|Hbad]; [left|by right].
    by destruct (fileFilter f).
  - apply upload_single_accepts in Hup as (_ & Hfilter & Hsize).
    split_and!.
    + intros _. by rewrite <- fileFilter_types.
    + rewrite <- fileFilter_types. change (2 * 1024 * 1024) with fileSize.
      intros [?|?]; [congruence|lia].
    + done.
    + intros _. exists a. split_and!; [done| |done..|].
      * by rewrite Hassets, lookup_insert_eq.
      * intros Hsvg. rewrite Halpha. unfold is_png. by rewrite Hsvg.
Qed.

(** A string that is not an [ObjectId] makes the lookup throw: the error
    goes to Express, and nothing changes either. *)
Lemma delete_asset_malformed_id d id :
  isDbReady d = true → castObjectId id = None →
  api d (DeleteAsset id) = (d, uncaught).
Proof. intros Hready Hid. api_route. unfold delete_asset. by rewrite Hid. Qed.

(** C7 (as amended). For an id that is an [ObjectId]: deleting an asset
    that exists removes its record and the blob it refers to from the
    bucket, touches nothing else, and answers [{ ok: true }]; deleting an
    id under which there is no asset answers 404 and changes nothing. *)
Theorem delete_asset_removes_record_and_blob d id o :
  isDbReady d = true → castObjectId id = Some o →
  (∀ a, assets d !! o = Some a →
     let result := api d (DeleteAsset id) in
     result.2 = Response 200 BOk
     ∧ assets result.1 = delete o (assets d)
     ∧ files result.1 = delete (fileId a) (files d)
     ∧ assets result.1 !! o = None
     ∧ files result.1 !! fileId a = None
     ∧ taxonomy result.1 = taxonomy d ∧ plots result.1 = plots d
     ∧ users result.1 = users d)
  ∧ (assets d !! o = None →
     api d (DeleteAsset id) = (d, error 404 "Asset not found")).
Proof.
  intros Hready Hid.
  assert (bucket d = true) as Hbucket
    by (unfold isDbReady in Hready; by apply andb_true_iff in Hready as [_ ?]).
  split.
  - intros a Ha result. subst result. api_route.
    unfold delete_asset. rewrite Hid, Ha. simpl. rewrite Hbucket. simpl.
    split_and!; try done; apply lookup_delete_eq.
  - intros Ha. api_route. unfold delete_asset. by rewrite Hid, Ha.
Qed.

End ServerProps.

(** ** The theorems at work on the example database *)

Section Witnesses.

Import Server Examples.

#[local] Abbreviation api0 :=
  (@api jsstring N castObjectId_hex true false value castString_value).

(** C2, as stated, fails: Alice saves under a well-formed plot id that no
    plot has.  The answer is 404, the database is as it was, and there is
    still no plot under that id: it was neither created nor overwritten.
    The same happens under the id of Bob's plot, which keeps its state and
    name. *)
Lemma save_plot_unknown_id_creates_nothing :
  let save := PostPlots 200 0xa3 (Some 1)
                (SaveFields (Some [VNumber 3]) (Some (js "Tour")) (Some id_ff)) in
  let save_bobs := PostPlots 200 0xa3 (Some 1)
                     (SaveFields (Some [VNumber 3]) (Some (js "Tour"))
                                 (Some id_a1)) in
  castObjectId_hex id_ff = Some 0xff
  ∧ api0 db0 save = (db0, error 404 "Plot not found")
  ∧ plots (api0 db0 save).1 !! 0xff = None
  ∧ castObjectId_hex id_a1 = Some 0xa1
  ∧ api0 db0 save_bobs = (db0, error 404 "Plot not found")
  ∧ plots (api0 db0 save_bobs).1 !! 0xa1 = Some bobs_plot.
Proof. by vm_compute. Qed.

(** C2 on the example database: Alice saves over her own plot, whose
    state and name are replaced and whose inputs stand. *)
Lemma save_plot_updates_or_creates_witness :
  let fields := SaveFields (Some [VNumber 3; VString (js "n1")])
                           (Some (js " Tour ")) (Some id_a2) in
  let result := api0 db0 (PostPlots 200 0xa3 (Some 1) fields) in
  isDbReady db0 = true ∧ users db0 !! 1 = Some alice
  ∧ cast_state castString_value (default [] (save_state fields))
    = Some [js "3"; js "n1"]
  ∧ result.2 = Response 200 (BId 0xa2)
  ∧ plots result.1
    = <[0xa2 := Plot 1 (js "Tour") [js "3"; js "n1"] [10] 50 200]> (plots db0).
Proof.
  intros fields result.
  assert (isDbReady db0 = true) as Hready by reflexivity.
  assert (users db0 !! 1 = Some alice) as Hu by reflexivity.
  assert (cast_state castString_value (default [] (save_state fields))
          = Some [js "3"; js "n1"]) as Hcast by reflexivity.
  split_and!; [done..| |];
    destruct (save_plot_updates_or_creates castObjectId_hex true false
                castString_value db0 1 alice 200 0xa3 fields Hready Hu)
      as (Hupdate & _);
    apply (Hupdate 0xa2 alices_plot [js "3"; js "n1"]); by vm_compute.
Defined.

(** The slip that the amended statement steps around: the element
    declaration of [state] in the schema makes it an array of strings, and
    a node record, which is what the editor sends, cannot be cast to one.
    Alice's save of a node is refused with 500, over her own plot and as a
    new plot alike, and nothing is written. *)
Lemma save_of_node_records_answers_500 :
  let nodes := Some [VNode (js "n1")] in
  api0 db0 (PostPlots 200 0xa3 (Some 1)
              (SaveFields nodes (Some (js "Tour")) (Some id_a2)))
  = (db0, uncaught)
  ∧ api0 db0 (PostPlots 200 0xa3 (Some 1)
                (SaveFields nodes (Some (js "Tour")) None))
    = (db0, uncaught).
Proof. by vm_compute. Qed.

(** A save without a plot id on the example database: a new plot of the
    requester, with no inputs; the stored plots are as they were. *)
Example save_new_plot_runs :
  let result := api0 db0 (PostPlots 200 0xa3 (Some 1)
                            (SaveFields (Some [VNumber 3; VNumber 4])
                                        (Some (js "  Tour ")) None)) in
  result.2 = Response 201 (BId 0xa3)
  ∧ plots result.1 !! 0xa3
    = Some (Plot 1 (js "Tour") [js "3"; js "4"] [] 200 200)
  ∧ plots result.1 !! 0xa1 = Some bobs_plot
  ∧ plots result.1 !! 0xa2 = Some alices_plot.
Proof. by vm_compute. Qed.

(** C3 on the example database, for an upload that names a category and a
    section. *)
Lemma taxonomy_unique_append_only_witness :
  let upload := PostAsset 0x15 0x0b (Some snare_svg) snare_fields in
  tax_inv (taxonomy db0)
  ∧ tax_inv (taxonomy (api0 db0 upload).1)
  ∧ tax_extends (taxonomy db0) (taxonomy (api0 db0 upload).1).
Proof.
  intros upload.
  assert (tax_inv (taxonomy db0)) as Hinv.
  { split; simpl; [apply NoDup_singleton|].
    constructor; [apply NoDup_singleton|constructor]. }
  split; [done|].
  apply (taxonomy_unique_append_only castObjectId_hex true false castString_value
              db0 upload Hinv).
Defined.

(** The upload of the witness: the SVG is stored, its record has no alpha
    flag, and "Snare" is appended to the sections of "Drums", which the
    category " Drums " of the form is matched to. *)
Example upload_runs :
  let result := api0 db0 (PostAsset 0x15 0x0b (Some snare_svg) snare_fields) in
  result.2 = Response 201 (BAsset 0x0b (Asset (js "Snare") (js " Drums ") (js "Snare") 0x15
                                              (Metadata (js "image/svg+xml") None)))
  ∧ taxonomy result.1 = Some [Category (js "Drums") [js "Kick"; js "Snare"]]
  ∧ is_Some (files result.1 !! 0x15).
Proof. vm_compute. split_and!; [done..|by eexists]. Qed.

(** A JPEG is turned away before the handler, and so is a PNG of one
    octet more than 2 MiB; a PNG within the limit is stored with the alpha
    flag the sniff gives. *)
Example upload_checks_run :
  let jpeg := Upfile (js "a.jpg") (js "image/jpeg") (Png.bytes [0xff; 0xd8]) in
  let huge := Upfile (js "b.png") (js "image/png")
                     (replicate (2 * 1024 * 1024 + 1) Byte.x00) in
  let rgba := Upfile (js "c.png") (js "image/x-png") png_rgba in
  let no_fields := UploadFields None None None in
  api0 db0 (PostAsset 0x15 0x0b (Some jpeg) no_fields) = (db0, uncaught)
  ∧ api0 db0 (PostAsset 0x15 0x0b (Some huge) no_fields) = (db0, uncaught)
  ∧ (api0 db0 (PostAsset 0x15 0x0b (Some rgba) no_fields)).2
    = Response 201 (BAsset 0x0b (Asset (js "c.png") [] [] 0x15
                                       (Metadata (js "image/x-png") (Some true)))).
Proof. by vm_compute. Qed.

(** C4, the failing input.  Alice, signed in, saves the node records of
    her stage under the id of Bob's plot.  The cast of the state to the
    array of strings that the schema declares throws before the query is
    sent, and the answer is 500, where the claim has 404, Plot not found;
    nothing is written.  With a state of strings the answer is the 404. *)
Theorem plot_update_under_anothers_id_answers_500 :
  let save state := PostPlots 200 0xa3 (Some 1)
                      (SaveFields (Some state) (Some (js "Tour")) (Some id_a1)) in
  isDbReady db0 = true ∧ users db0 !! 1 = Some alice
  ∧ castObjectId_hex id_a1 = Some 0xa1
  ∧ plots db0 !! 0xa1 = Some bobs_plot ∧ userId bobs_plot = 2
  ∧ cast_state castString_value [VNode (js "n1")] = None
  ∧ api0 db0 (save [VNode (js "n1")]) = (db0, uncaught)
  ∧ status (api0 db0 (save [VNode (js "n1")])).2 = 500
  ∧ api0 db0 (save [VString (js "n1")]) = (db0, error 404 "Plot not found").
Proof. by vm_compute. Qed.

(** What holds of ownership, on the example database: Alice asks for
    Bob's plot, and saves a state of strings under its id. *)
Example plot_ownership_in_queries_runs :
  isDbReady db0 = true ∧ users db0 !! 1 = Some alice
  ∧ api0 db0 (GetPlot (Some 1) id_a1) = (db0, error 404 "Plot not found")
  ∧ api0 db0 (PostPlots 200 0xa3 (Some 1)
                (SaveFields (Some [VNumber 3]) None (Some id_a1)))
    = (db0, error 404 "Plot not found")
  ∧ ∃ l, api0 db0 (GetPlots (Some 1)) = (db0, Response 200 (BPlots l))
         ∧ ∀ o, o ∈ summary_id <$> l
                ↔ ∃ p, plots db0 !! o = Some p ∧ userId p = 1.
Proof.
  assert (isDbReady db0 = true) as Hready by reflexivity.
  assert (users db0 !! 1 = Some alice) as Hu by reflexivity.
  destruct (plot_ownership_in_queries castObjectId_hex true false
              castString_value db0 1 alice Hready Hu)
    as (Hread & Hsave & _ & l & Hlist & _ & _ & Hids).
  split_and!; [done..| | |by exists l].
  - apply (Hread id_a1 0xa1 bobs_plot); by vm_compute.
  - apply (Hsave 200 0xa3 _ id_a1 0xa1 bobs_plot); try by vm_compute.
    by eexists.
Qed.

(** Alice's listing on the example database: her one plot. *)
Example listing_runs :
  api0 db0 (GetPlots (Some 1))
  = (db0, Response 200 (BPlots [PlotSummary 0xa2 (js "Club") 60 50])).
Proof. by vm_compute. Qed.

(** C7, as stated, fails: the string [0b] is not an [ObjectId], there is
    no asset under it, and the delete is answered 500 by Express, not 404.
    Nothing changes. *)
Lemma delete_asset_malformed_id_answers_500 :
  let result := api0 db0 (DeleteAsset (js "0b")) in
  isDbReady db0 = true
  ∧ castObjectId_hex (js "0b") = None
  ∧ result = (db0, uncaught)
  ∧ status result.2 = 500
  ∧ result ≠ (db0, error 404 "Asset not found").
Proof. by vm_compute. Qed.

(** C7 on the example database: the asset 0x0a and its file 0x14. *)
Lemma delete_asset_removes_record_and_blob_witness :
  let result := api0 db0 (DeleteAsset id_0a) in
  isDbReady db0 = true ∧ castObjectId_hex id_0a = Some 0x0a
  ∧ assets db0 !! 0x0a = Some kick
  ∧ result.2 = Response 200 BOk
  ∧ assets result.1 !! 0x0a = None
  ∧ files result.1 !! fileId kick = None.
Proof.
  intros result.
  assert (isDbReady db0 = true) as Hready by reflexivity.
  assert (castObjectId_hex id_0a = Some 0x0a) as Hid by reflexivity.
  assert (assets db0 !! 0x0a = Some kick) as Ha by reflexivity.
  destruct (delete_asset_removes_record_and_blob castObjectId_hex true false
              castString_value db0 id_0a 0x0a Hready Hid) as (Hdelete & _).
  destruct (Hdelete kick Ha) as (Hok & _ & _ & Hasset & Hfile & _).
  by split_and!.
Defined.

(** C8, as stated, fails: "Drums" and " Drums" differ only in white space,
    and so do the sections "Kick" and "Kick "; upserting both of either
    pair leaves one entry, whichever way pushed entries behave. *)
Lemma upsert_white_space_variants_share_entry :
  differ_only_in_white_space (js "Drums") (js " Drums")
  ∧ differ_only_in_white_space (js "Kick") (js "Kick ")
  ∧ upsertTaxonomyCategorySection true (js " Drums") []
      (upsertTaxonomyCategorySection true (js "Drums") [] None)
    = Some [Category (js "Drums") []]
  ∧ upsertTaxonomyCategorySection false (js " Drums") []
      (upsertTaxonomyCategorySection false (js "Drums") [] None)
    = Some [Category (js "Drums") []]
  ∧ upsertTaxonomyCategorySection true (js "Drums") (js "Kick ")
      (upsertTaxonomyCategorySection true (js "Drums") (js "Kick") None)
    = Some [Category (js "Drums") [js "Kick"]]
  ∧ upsertTaxonomyCategorySection false (js "Drums") (js "Kick ")
      (upsertTaxonomyCategorySection false (js "Drums") (js "Kick") None)
    = Some [Category (js "Drums") [js "Kick"]].
Proof. split_and!; try (split; [discriminate|]); by vm_compute. Qed.

(** The slip that the amended statement steps around: where an upsert
    pushes a new category onto a document that is there, and the document
    array holds a copy of what is pushed, the section goes to the pushed
    object and is lost; of two sections upserted under the new category,
    the second alone is kept. *)
Example upsert_new_category_drops_section :
  upsertTaxonomyCategorySection false (js "Keys") (js "Piano") (Some [])
  = Some [Category (js "Keys") []]
  ∧ upsertTaxonomyCategorySection false (js "Keys") (js "piano")
      (upsertTaxonomyCategorySection false (js "Keys") (js "Piano") (Some []))
    = Some [Category (js "Keys") [js "piano"]]
  ∧ upsertTaxonomyCategorySection true (js "Keys") (js "piano")
      (upsertTaxonomyCategorySection true (js "Keys") (js "Piano") (Some []))
    = Some [Category (js "Keys") [js "Piano"; js "piano"]].
Proof. by vm_compute. Qed.

(** Names that differ in letter case, or in white space inside the name,
    do part. *)
Example upsert_case_variants_part :
  upsertTaxonomyCategorySection true (js "drums") []
    (upsertTaxonomyCategorySection true (js "Drums") [] None)
  = Some [Category (js "Drums") []; Category (js "drums") []]
  ∧ upsertTaxonomyCategorySection true (js "Drum  Kit") []
      (upsertTaxonomyCategorySection true (js "Drum Kit") [] None)
    = Some [Category (js "Drum Kit") []; Category (js "Drum  Kit") []].
Proof. by vm_compute. Qed.


(** Scales on a stage: a pinch that spreads the fingers tenfold stops at
    4; thirteen steps of the scale-up button stop there too, and the
    transformer's 0.1 is raised to 0.25. *)
Example scaling_runs :
  Editor.scale unit <$> Editor.nodes unit
    (stage_run [Editor.AddNode unit unit tt 100 100 (js "n1");
                Editor.ScaleDown unit unit (js "n1");
                Editor.TouchStart unit unit false
                  [Editor.Touch 10 10; Editor.Touch 40 50];
                Editor.TouchMove unit unit
                  [Editor.Touch 10 10; Editor.Touch 310 410]])
  = [4%float]
  ∧ Editor.scale unit <$> Editor.nodes unit
      (stage_run (Editor.AddNode unit unit tt 100 100 (js "n1")
                  :: replicate 13 (Editor.ScaleUp unit unit (js "n1"))))
    = [4%float]
  ∧ Editor.scale unit <$> Editor.nodes unit
      (stage_run [Editor.AddNode unit unit tt 100 100 (js "n1");
                  Editor.TransformEnd unit unit (js "n1") (-0.1) 90])
    = [0.25%float].
Proof. by vm_compute. Qed.

End Witnesses.

(** * Further properties *)

(** ** CSV: what the export writes, the parser reads back *)

Section CsvProps.

Import Text.
Implicit Types (s cur tail : jsstring) (out fields : list jsstring).

Lemma parse_plain s tail out cur :
  Forall (λ c, c ≠ quote ∧ c ≠ comma) s →
  parseCsvLine_from (s ++ tail) out cur false
  = parseCsvLine_from tail out (cur ++ s) false.
Proof.
  intros Hs. revert cur. induction Hs as [|c s [Hq Hc] _ IH]; intros cur.
  { by rewrite app_nil_r. }
  simpl. apply N.eqb_neq in Hq, Hc. rewrite Hq, Hc. simpl.
  rewrite IH. by rewrite <- app_assoc.
Qed.

Lemma parse_quoted_body s tail out cur :
  closes tail →
  parseCsvLine_from (double_quotes s ++ quote :: tail) out cur true
  = parseCsvLine_from tail out (cur ++ s) false.
Proof.
  intros Htail. revert cur. induction s as [|c s IH]; intros cur.
  - rewrite app_nil_r. simpl. destruct tail as [|c t]; [done|].
    simpl in Htail. apply N.eqb_neq in Htail. by rewrite Htail.
  - unfold double_quotes in *. simpl.
    destruct (N.eqb_spec c quote) as [->|Hc]; simpl.
    + rewrite IH. by rewrite <- app_assoc.
    + apply N.eqb_neq in Hc. rewrite Hc.
      replace ((c =? comma) && false) with false by (by destruct (c =? comma)).
      rewrite IH. by rewrite <- app_assoc.
Qed.

Lemma parse_open_quote line out cur :
  parseCsvLine_from (quote :: line) out cur false
  = parseCsvLine_from line out cur true.
Proof. by destruct line. Qed.

Lemma needs_quotes_false s :
  needs_quotes s = false → Forall (λ c, c ≠ quote ∧ c ≠ comma) s.
Proof.
  unfold needs_quotes. induction s as [|c s IH]; [constructor|]. simpl.
  intros [Hc Hs]%orb_false_iff. constructor; [|by apply IH].
  repeat (apply orb_false_iff in Hc as [Hc ?]).
  split; by apply N.eqb_neq.
Qed.

Lemma parse_escape s tail out cur :
  closes tail →
  parseCsvLine_from (escape s ++ tail) out cur false
  = parseCsvLine_from tail out (cur ++ s) false.
Proof.
  intros Htail. unfold escape. destruct (needs_quotes s) eqn:Hs.
  - replace (([quote] ++ double_quotes s ++ [quote]) ++ tail)
      with (quote :: (double_quotes s ++ quote :: tail))
      by (simpl; by rewrite <- app_assoc).
    rewrite parse_open_quote. by apply parse_quoted_body.
  - by apply parse_plain, needs_quotes_false.
Qed.

Lemma parse_joined fields out :
  fields ≠ [] →
  parseCsvLine_from (join [comma] (escape <$> fields)) out [] false
  = out ++ fields.
Proof.
  intros Hne. revert out.
  induction fields as [|f [|g fields] IH]; intros out; [done| |].
  - simpl. rewrite <- (app_nil_r (escape f)). by rewrite parse_escape.
  - change (join [comma] (escape <$> f :: g :: fields))
      with (escape f ++ comma :: join [comma] (escape <$> g :: fields)).
    rewrite parse_escape by done. simpl.
    rewrite IH by done. by rewrite <- app_assoc.
Qed.

Lemma parseCsvLine_reads_cells fields :
  fields ≠ [] →
  parseCsvLine (join [comma] (escape <$> fields)) = fields.
Proof. intros Hne. by apply (parse_joined fields []). Qed.

(** X1. What [exportCSV] writes for a row, [parseCsvLine] reads back: the
    cells of a row that has at least one, each put through [escape] and the
    lot joined by commas, are the cells the parser returns -- commas,
    quotes and line breaks in a cell included. *)
Theorem parseCsvLine_reads_escaped_cells fields :
  fields ≠ [] →
  parseCsvLine (join [comma] (escape <$> fields)) = fields.
Proof. intros Hne. by apply (parse_joined fields []). Qed.

Lemma replace_crlf_id s : Forall (λ c, c ≠ CR) s → replace_crlf s = s.
Proof.
  induction 1 as [|c s Hc Hs IH]; [done|]. simpl.
  destruct s as [|c' s']; [done|].
  change (replace_crlf (c :: c' :: s'))
    with (if (c =? CR) && (c' =? LF) then LF :: replace_crlf s'
          else c :: replace_crlf (c' :: s')).
  apply N.eqb_neq in Hc. rewrite Hc. simpl andb. cbv iota. by rewrite IH.
Qed.

Lemma replace_cr_id s : Forall (λ c, c ≠ CR) s → replace_cr s = s.
Proof.
  unfold replace_cr. induction 1 as [|c s Hc Hs IH]; [done|]. simpl.
  apply N.eqb_neq in Hc. rewrite Hc. by f_equal.
Qed.

Lemma split_from_app (sep : N) s tail cur :
  Forall (λ c, c ≠ sep) s →
  split_from sep (s ++ tail) cur = split_from sep tail (cur ++ s).
Proof.
  intros Hs. revert cur. induction Hs as [|c s Hc _ IH]; intros cur.
  { by rewrite app_nil_r. }
  simpl. apply N.eqb_neq in Hc. rewrite Hc, IH. by rewrite <- app_assoc.
Qed.

Lemma split_join (sep : N) (ls : list jsstring) :
  ls ≠ [] → Forall (Forall (λ c, c ≠ sep)) ls →
  split sep (join [sep] ls) = ls.
Proof.
  unfold split. intros Hne Hls.
  induction ls as [|l ls IH]; [done|].
  apply Forall_cons in Hls as [Hl Hls]. destruct ls as [|m ls].
  - simpl. rewrite <- (app_nil_r l) at 1. by rewrite split_from_app.
  - change (join [sep] (l :: m :: ls)) with (l ++ sep :: join [sep] (m :: ls)).
    rewrite split_from_app by done.
    change (split_from sep (sep :: join [sep] (m :: ls)) ([] ++ l))
      with (if sep =? sep then ([] ++ l) :: split_from sep (join [sep] (m :: ls)) []
            else split_from sep (join [sep] (m :: ls)) (([] ++ l) ++ [sep])).
    rewrite N.eqb_refl. by rewrite IH.
Qed.

Lemma no_line_break_app s1 s2 :
  no_line_break s1 → no_line_break s2 → no_line_break (s1 ++ s2).
Proof. intros. by apply Forall_app. Qed.

Lemma no_line_break_escape s : no_line_break s → no_line_break (escape s).
Proof.
  intros Hs. unfold escape. destruct (needs_quotes s); [|done].
  assert (no_line_break [quote]) as Hq by (by repeat constructor).
  repeat apply no_line_break_app; try done.
  unfold double_quotes. induction Hs as [|c s Hc _ IH]; [constructor|].
  simpl. apply no_line_break_app; [|done].
  destruct (c =? quote); [by repeat constructor|].
  by constructor.
Qed.

Lemma no_line_break_join (cells : list jsstring) :
  Forall no_line_break cells → no_line_break (join [comma] cells).
Proof.
  intros Hcells. induction cells as [|c cells IH]; [constructor|].
  apply Forall_cons in Hcells as [Hc Hcells]. destruct cells as [|d cells]; [done|].
  change (join [comma] (c :: d :: cells))
    with (c ++ [comma] ++ join [comma] (d :: cells)).
  repeat apply no_line_break_app; [done| |by apply IH].
  by repeat constructor.
Qed.

Lemma no_line_break_digits (fuel : nat) (n : N) (acc : jsstring) :
  no_line_break acc → no_line_break (digits fuel n acc).
Proof.
  revert n acc. induction fuel as [|fuel IH]; intros n acc Hacc; [done|].
  simpl.
  assert (no_line_break ((48 + n `mod` 10) :: acc)) as Hacc'.
  { constructor; [|done]. unfold LF, CR.
    pose proof (N.le_0_l (n `mod` 10)). lia. }
  destruct (n / 10 =? 0); [done|]. by apply IH.
Qed.

(** The digits of [number_to_string] are those of the number. *)
Lemma digits_value (fuel : nat) (n : N) (acc : jsstring) :
  n < 2 ^ N.of_nat fuel →
  ∃ k, ∀ v, fold_left (λ v c, 10 * v + (c - 0x30)) (digits fuel n acc) v
            = fold_left (λ v c, 10 * v + (c - 0x30)) acc (v * 10 ^ k + n).
Proof.
  revert n acc. induction fuel as [|fuel IH]; intros n acc Hn.
  { exists 0. intros v. change (n < 1) in Hn. simpl digits.
    rewrite N.pow_0_r. f_equal. assert (n = 0) as -> by lia.
    by rewrite N.mul_1_r, N.add_0_r. }
  simpl digits. cbv zeta.
  pose proof (N.Div0.div_mod n 10) as Hdiv.
  pose proof (N.mod_upper_bound n 10) as Hmod.
  destruct (N.eqb_spec (n / 10) 0) as [Hzero|Hmore].
  - exists 1. intros v. rewrite N.pow_1_r. simpl fold_left. f_equal.
    rewrite (N.add_comm 48), N.add_sub. rewrite Hdiv at 2. rewrite Hzero. ring.
  - destruct (IH (n / 10) ((48 + n `mod` 10) :: acc)) as [k Hk].
    { rewrite Nat2N.inj_succ, N.pow_succ_r' in Hn.
      apply N.Div0.div_lt_upper_bound.
      pose proof (N.le_0_l (2 ^ N.of_nat fuel)). lia. }
    exists (k + 1). intros v. rewrite Hk. simpl fold_left. f_equal.
    rewrite N.pow_add_r, N.pow_1_r.
    rewrite (N.add_comm 48), N.add_sub. rewrite Hdiv at 3. ring.
Qed.

Lemma number_to_string_value (n : N) :
  decimal_value (number_to_string n) = n.
Proof.
  unfold decimal_value, number_to_string.
  destruct (digits_value (S (N.to_nat (N.log2 n))) n []) as [k Hk].
  { rewrite Nat2N.inj_succ, N2Nat.id.
    destruct (decide (n = 0)) as [->|Hn]; [done|].
    apply N.log2_spec. lia. }
  rewrite Hk. simpl fold_left. lia.
Qed.

Lemma no_line_break_cells (r : input_row) :
  row_on_one_line r → Forall no_line_break (row_cells r).
Proof.
  intros (Hitem & Hins & Hmic & Hstand & Hnotes & Hcables).
  unfold row_cells. repeat constructor; try done.
  - apply no_line_break_digits. constructor.
  - by destruct (truthy (instrument r)).
Qed.

Lemma no_line_break_table (rows : list input_row) :
  Forall row_on_one_line rows →
  Forall (Forall no_line_break) (export_table rows).
Proof.
  intros Hrows. unfold export_table. apply Forall_app. split.
  - repeat constructor; unfold LF, CR; by vm_compute.
  - apply Forall_fmap. eapply Forall_impl; [done|]. apply no_line_break_cells.
Qed.

Lemma export_table_rows_not_empty (rows : list input_row) :
  Forall (λ cells, cells ≠ []) (export_table rows).
Proof.
  unfold export_table. apply Forall_app. split; [by repeat constructor|].
  apply Forall_fmap, Forall_true. done.
Qed.

Lemma join_lines_no_CR (ls : list jsstring) :
  Forall no_line_break ls → Forall (λ c, c ≠ CR) (join [LF] ls).
Proof.
  intros Hls. induction ls as [|l ls IH]; [constructor|].
  apply Forall_cons in Hls as [Hl Hls]. destruct ls as [|m ls].
  - simpl. eapply Forall_impl; [done|]. by intros c [_ ?].
  - change (join [LF] (l :: m :: ls)) with (l ++ LF :: join [LF] (m :: ls)).
    apply Forall_app. split; [eapply Forall_impl; [done|]; by intros c [_ ?]|].
    constructor; [done|]. by apply IH.
Qed.

(** X2. The file that [exportCSV] writes reads back, through [parseCsv],
    as the table that was exported -- the three heading rows, the header
    and one row of eight cells for each input row -- so long as no text of
    the rows has a line break in it ([parseCsv] cuts the text into lines
    before it looks at quotes). *)
Theorem parseCsv_reads_exportCSV (rows : list input_row) :
  Forall row_on_one_line rows →
  parseCsv (exportCSV rows) = export_table rows.
Proof.
  intros Hrows. unfold parseCsv, exportCSV.
  pose proof (no_line_break_table rows Hrows) as Htable.
  set (lines := (λ cells, join [comma] (escape <$> cells)) <$> export_table rows).
  assert (Forall no_line_break lines) as Hlines.
  { apply Forall_fmap. eapply Forall_impl; [exact Htable|].
    intros cells Hcells. apply no_line_break_join, Forall_fmap.
    eapply Forall_impl; [exact Hcells|]. apply no_line_break_escape. }
  rewrite replace_crlf_id, replace_cr_id by by apply join_lines_no_CR.
  rewrite split_join.
  - unfold lines. rewrite <- list_fmap_compose.
    rewrite <- (list_fmap_id (export_table rows)) at 2.
    apply Forall_fmap_ext. eapply Forall_impl;
      [apply (export_table_rows_not_empty rows)|].
    intros cells Hne. simpl. by apply parseCsvLine_reads_cells.
  - unfold lines, export_table. done.
  - eapply Forall_impl; [exact Hlines|]. intros l Hl.
    eapply Forall_impl; [exact Hl|]. by intros c [? _].
Qed.

End CsvProps.

(** ** Trimming *)

Section TrimProps.

Import Text.

Implicit Types (s t : jsstring) (c : N).

Lemma trimStart_suffix s :
  ∃ w, s = w ++ trimStart s ∧ Forall (λ c, is_white_space c = true) w.
Proof.
  induction s as [|c s (w & Hs & Hw)]; [by exists []|]. simpl.
  destruct (is_white_space c) eqn:Hc.
  - exists (c :: w). split; [simpl; by rewrite <- Hs|by constructor].
  - by exists [].
Qed.

Lemma trimEnd_prefix s :
  ∃ w, s = trimEnd s ++ w ∧ Forall (λ c, is_white_space c = true) w.
Proof.
  destruct (trimStart_suffix (reverse s)) as (w & Hs & Hw).
  exists (reverse w). split; [|by apply Forall_reverse].
  unfold trimEnd. rewrite <- reverse_app, <- Hs. by rewrite reverse_involutive.
Qed.

Lemma trim_infix s :
  ∃ v w, s = v ++ trim s ++ w
         ∧ Forall (λ c, is_white_space c = true) v
         ∧ Forall (λ c, is_white_space c = true) w.
Proof.
  destruct (trimStart_suffix s) as (v & Hs & Hv).
  destruct (trimEnd_prefix (trimStart s)) as (w & Ht & Hw).
  exists v, w. unfold trim. by rewrite <- Ht.
Qed.

Lemma starts_black_trimStart s : starts_black (trimStart s).
Proof.
  induction s as [|c s IH]; [done|]. simpl.
  by destruct (is_white_space c) eqn:Hc.
Qed.

Lemma trimStart_black s : starts_black s → trimStart s = s.
Proof. destruct s as [|c s]; [done|]. simpl. by intros ->. Qed.

Lemma ends_black_trimEnd s : ends_black (trimEnd s).
Proof.
  unfold ends_black, trimEnd. rewrite reverse_involutive.
  apply starts_black_trimStart.
Qed.

Lemma trimEnd_black s : ends_black s → trimEnd s = s.
Proof.
  unfold ends_black, trimEnd. intros ->%trimStart_black.
  apply reverse_involutive.
Qed.

Lemma starts_black_prefix s t : starts_black (s ++ t) → starts_black s.
Proof. by destruct s. Qed.

Lemma starts_black_trim s : starts_black (trim s).
Proof.
  unfold trim. destruct (trimEnd_prefix (trimStart s)) as (w & Hs & _).
  pose proof (starts_black_trimStart s) as Hb. rewrite Hs in Hb.
  by apply starts_black_prefix in Hb.
Qed.

Lemma ends_black_trim s : ends_black (trim s).
Proof. apply ends_black_trimEnd. Qed.

Lemma trim_black s : starts_black s → ends_black s → trim s = s.
Proof.
  intros Hs He. unfold trim. rewrite (trimStart_black s Hs).
  by apply trimEnd_black.
Qed.

Lemma trim_trim s : trim (trim s) = trim s.
Proof. apply trim_black; [apply starts_black_trim|apply ends_black_trim]. Qed.

End TrimProps.

(** ** File names *)

Section FilenameProps.

Import Text.

Implicit Types (s t : jsstring) (c : N).

Lemma single_spaced_app s t :
  single_spaced (s ++ t) → single_spaced s ∧ single_spaced t.
Proof.
  induction s as [|c s IH]; [done|]. simpl. intros [Hc Hs].
  destruct (IH Hs) as [Hs' Ht]. split_and!; [|done..].
  intros Hw. by eapply starts_black_prefix, Hc.
Qed.

Lemma collapse_units s b :
  Forall (λ c, is_filename_char c = true) s →
  Forall (λ c, is_filename_char c = true
               ∧ (is_white_space c = true → c = 0x20)) (collapse_from s b).
Proof.
  intros Hs. revert b. induction Hs as [|c s Hc _ IH]; intros b; [done|].
  simpl. destruct (is_white_space c) eqn:Hw.
  - destruct b; [done|]. by constructor.
  - constructor; [|done]. split; [done|]. by rewrite Hw.
Qed.

Lemma collapse_single_spaced s b :
  single_spaced (collapse_from s b)
  ∧ (b = true → starts_black (collapse_from s b)).
Proof.
  revert b. induction s as [|c s IH]; intros b; [done|]. simpl.
  destruct (is_white_space c) eqn:Hw.
  - destruct b; [apply IH|]. split; [|done]. simpl.
    destruct (IH true) as [? Hb]. split; [|done]. intros _. by apply Hb.
  - simpl. rewrite Hw. destruct (IH false) as [? _]. by split_and!.
Qed.

Lemma collapse_kept s b :
  Forall (λ c, is_white_space c = true → c = 0x20) s →
  single_spaced s → (b = true → starts_black s) →
  collapse_from s b = s.
Proof.
  intros Hs. revert b.
  induction Hs as [|c s Hc _ IH]; intros b Hsp Hb; [done|].
  simpl in *. destruct Hsp as [Hnext Hsp].
  destruct (is_white_space c) eqn:Hw.
  - destruct b; [by specialize (Hb eq_refl)|].
    rewrite (Hc eq_refl). f_equal. apply IH; [done|]. intros _. by apply Hnext.
  - f_equal. by apply IH.
Qed.

Lemma filter_kept {A} (P : A → Prop) `{∀ x, Decision (P x)} (l : list A) :
  Forall P l → filter P l = l.
Proof.
  induction 1 as [|x l Hx _ IH]; [done|].
  rewrite filter_cons_True by done. by f_equal.
Qed.

(** X3. Whatever the value, [toSafeFilename] gives a name made only of
    letters, digits, [-], [_], [.], parentheses and spaces, with no space
    at either end and no two spaces in a row. *)
Theorem toSafeFilename_safe (value : jsstring) :
  safe_filename (toSafeFilename value).
Proof.
  unfold toSafeFilename. cbv zeta.
  destruct (negb (truthy (trim value))); [by repeat split|].
  set (t := collapse_white_space _).
  assert (Forall (λ c, is_filename_char c = true
                       ∧ (is_white_space c = true → c = 0x20)) t) as Hunits.
  { apply collapse_units, Forall_forall. by intros c [? _]%list_elem_of_filter. }
  destruct (collapse_single_spaced
              (filter (λ c, is_filename_char c = true) (trim value)) false)
    as [Hsp _]. fold (collapse_white_space
              (filter (λ c, is_filename_char c = true) (trim value))) in Hsp.
  fold t in Hsp.
  destruct (trim_infix t) as (v & w & Ht & _ & _).
  rewrite Ht in Hunits, Hsp.
  apply Forall_app in Hunits as [_ [Hunits _]%Forall_app].
  apply single_spaced_app in Hsp as [_ [Hsp _]%single_spaced_app].
  split_and!; [done..| |]; [apply starts_black_trim|apply ends_black_trim].
Qed.

(** X4. A name that is already of that form is returned as it is: these
    names are exactly what [toSafeFilename] produces, and applying it
    twice changes nothing more. *)
Theorem toSafeFilename_keeps_safe (s : jsstring) :
  safe_filename s → toSafeFilename s = s.
Proof.
  intros (Hunits & Hsp & Hstart & Hend). unfold toSafeFilename. cbv zeta.
  rewrite (trim_black s Hstart Hend).
  destruct s as [|c s]; [done|]. simpl negb. cbv iota.
  rewrite filter_kept by (eapply Forall_impl; [done|]; by intros ? [? _]).
  unfold collapse_white_space. rewrite collapse_kept; [by apply trim_black| |done..].
  eapply Forall_impl; [done|]. by intros ? [_ ?].
Qed.

End FilenameProps.

(** ** The list of allowed origins *)

Section CorsProps.

Import Text.

Implicit Types (s t w : jsstring) (c sep : N) (os : list jsstring).

Lemma split_from_cur sep s cur :
  ∃ p ps, split_from sep s [] = p :: ps
          ∧ split_from sep s cur = (cur ++ p) :: ps.
Proof.
  revert cur.
  assert (∀ cur, ∃ p ps, split_from sep s cur = (cur ++ p) :: ps
                         ∧ ∀ cur', split_from sep s cur' = (cur' ++ p) :: ps)
    as Hgen.
  { induction s as [|c s IH]; intros cur.
    - exists [], []. split; [by rewrite app_nil_r|].
      intros cur'. simpl. by rewrite app_nil_r.
    - simpl. destruct (c =? sep).
      + exists [], (split_from sep s []). split; [by rewrite app_nil_r|].
        intros cur'. by rewrite app_nil_r.
      + destruct (IH (cur ++ [c])) as (p & ps & _ & Hall).
        exists (c :: p), ps. split.
        * rewrite Hall. by rewrite <- app_assoc.
        * intros cur'. rewrite Hall. by rewrite <- app_assoc. }
  intros cur. destruct (Hgen cur) as (p & ps & _ & Hall).
  exists p, ps. split; [apply (Hall [])|apply Hall].
Qed.

Lemma split_from_end sep s w cur :
  Forall (λ c, c ≠ sep) w →
  ∃ ps p, split_from sep s cur = ps ++ [p]
          ∧ split_from sep (s ++ w) cur = ps ++ [p ++ w].
Proof.
  intros Hw. revert cur. induction s as [|c s IH]; intros cur.
  - exists [], cur. split; [done|]. simpl.
    rewrite <- (app_nil_r w) at 1. by rewrite split_from_app.
  - simpl. destruct (c =? sep).
    + destruct (IH []) as (ps & p & -> & ->). by exists (cur :: ps), p.
    + apply IH.
Qed.

Lemma split_pieces sep s cur :
  Forall (λ c, c ≠ sep) cur →
  Forall (Forall (λ c, c ≠ sep)) (split_from sep s cur).
Proof.
  revert cur. induction s as [|c s IH]; intros cur Hcur; simpl.
  - by constructor.
  - destruct (N.eqb_spec c sep) as [->|Hc].
    + constructor; [done|]. by apply IH.
    + apply IH, Forall_app. split; [done|]. by constructor.
Qed.

Lemma white_not_sep sep w :
  is_white_space sep = false →
  Forall (λ c, is_white_space c = true) w → Forall (λ c, c ≠ sep) w.
Proof.
  intros Hsep Hw. eapply Forall_impl; [done|]. intros c Hc ->. congruence.
Qed.

Lemma trimStart_white w s :
  Forall (λ c, is_white_space c = true) w → trimStart (w ++ s) = trimStart s.
Proof. induction 1 as [|c w Hc _ IH]; [done|]. simpl. by rewrite Hc. Qed.

Lemma trimEnd_white s w :
  Forall (λ c, is_white_space c = true) w → trimEnd (s ++ w) = trimEnd s.
Proof.
  intros Hw. unfold trimEnd. rewrite reverse_app, trimStart_white; [done|].
  by apply Forall_reverse.
Qed.

Lemma trimStart_app_white s w :
  Forall (λ c, is_white_space c = true) w →
  ∃ w', trimStart (s ++ w) = trimStart s ++ w'
        ∧ Forall (λ c, is_white_space c = true) w'.
Proof.
  intros Hw. induction s as [|c s IH]; simpl.
  - exists []. split; [|done]. rewrite <- (app_nil_r w).
    by rewrite trimStart_white.
  - destruct (is_white_space c); [done|]. by exists w.
Qed.

Lemma trim_white_start w s :
  Forall (λ c, is_white_space c = true) w → trim (w ++ s) = trim s.
Proof. intros Hw. unfold trim. by rewrite trimStart_white. Qed.

Lemma trim_white_end s w :
  Forall (λ c, is_white_space c = true) w → trim (s ++ w) = trim s.
Proof.
  intros Hw. unfold trim.
  destruct (trimStart_app_white s w Hw) as (w' & -> & Hw').
  by apply trimEnd_white.
Qed.

(** Trimming the whole text first changes no trimmed piece of it. *)
Lemma trim_split_trim sep s :
  is_white_space sep = false →
  trim <$> split sep (trim s) = trim <$> split sep s.
Proof.
  intros Hsep. destruct (trim_infix s) as (v & w & Hs & Hv & Hw).
  rewrite Hs at 2. unfold split.
  rewrite split_from_app by by apply white_not_sep.
  rewrite app_nil_l.
  destruct (split_from_end sep (trim s) w v (white_not_sep _ _ Hsep Hw))
    as (ps & p & Hsplit & ->).
  destruct (split_from_cur sep (trim s) v) as (p0 & ps0 & Hnil & Hcur).
  rewrite Hnil. rewrite Hcur in Hsplit.
  rewrite fmap_app. simpl. rewrite (trim_white_end p w Hw).
  change ([trim p]) with (trim <$> [p]). rewrite <- fmap_app, <- Hsplit.
  simpl. by rewrite trim_white_start.
Qed.

Lemma is_white_space_comma : is_white_space comma = false.
Proof. reflexivity. Qed.

Lemma parseCors_list raw allowed :
  parseCorsAllowedOrigins raw = Some allowed →
  allowed = filter (λ s, truthy s = true)
                   (trim <$> split comma (default [] raw)).
Proof.
  unfold parseCorsAllowedOrigins. cbv zeta.
  destruct (negb _ || bool_decide _); [done|]. intros [= <-].
  by rewrite (trim_split_trim _ _ is_white_space_comma).
Qed.

Lemma parseCors_joined os :
  os ≠ [] → Forall (Forall (λ c, c ≠ comma)) os →
  trim (join [comma] os) ≠ [] → trim (join [comma] os) ≠ js "*" →
  parseCorsAllowedOrigins (Some (join [comma] os))
  = Some (filter (λ s, truthy s = true) (trim <$> os)).
Proof.
  intros Hne Hos Hblank Hstar. unfold parseCorsAllowedOrigins. cbv zeta.
  simpl default.
  destruct (trim (join [comma] os)) as [|c t] eqn:Htrim; [done|].
  simpl negb. rewrite bool_decide_eq_false_2 by done. simpl orb. cbv iota.
  rewrite <- Htrim, (trim_split_trim _ _ is_white_space_comma).
  by rewrite split_join.
Qed.

(** X5. Every entry of the list that [parseCorsAllowedOrigins] makes of
    [CORS_ORIGIN] is not empty, has no white space at either end and holds
    no comma. *)
Theorem parseCorsAllowedOrigins_entries raw allowed :
  parseCorsAllowedOrigins raw = Some allowed →
  Forall (λ e, e ≠ [] ∧ trim e = e ∧ Forall (λ c, c ≠ comma) e) allowed.
Proof.
  intros ->%parseCors_list. apply Forall_forall.
  intros e [He (p & -> & Hp)%list_elem_of_fmap]%list_elem_of_filter.
  split_and!.
  - by destruct (trim p).
  - apply trim_trim.
  - assert (Forall (λ c, c ≠ comma) p) as Hfree.
    { pose proof (split_pieces comma (default [] raw) [] (Forall_nil_2 _)) as Hall.
      rewrite Forall_forall in Hall. by apply Hall. }
    destruct (trim_infix p) as (v & w & Hinfix & _ & _).
    rewrite Hinfix in Hfree.
    by apply Forall_app in Hfree as [_ [? _]%Forall_app].
Qed.

(** X6. A [CORS_ORIGIN] written as entries with commas between them gives
    the entries back, each trimmed of the white space around it and the
    empty ones left out -- whenever the value as a whole is neither blank
    nor a lone [*], which mean no restriction. *)
Theorem parseCorsAllowedOrigins_joined os :
  os ≠ [] → Forall (Forall (λ c, c ≠ comma)) os →
  trim (join [comma] os) ≠ [] → trim (join [comma] os) ≠ js "*" →
  parseCorsAllowedOrigins (Some (join [comma] os))
  = Some (filter (λ s, truthy s = true) (trim <$> os)).
Proof. apply parseCors_joined. Qed.

(** X7. With such a [CORS_ORIGIN], a request that carries an [Origin] is
    let through exactly when its origin is one of the entries, trimmed;
    any other gets the 403. *)
Theorem origin_allowed_iff_listed os origin :
  os ≠ [] → Forall (Forall (λ c, c ≠ comma)) os →
  trim (join [comma] os) ≠ [] → trim (join [comma] os) ≠ js "*" →
  origin ≠ [] →
  origin_allowed (Some (join [comma] os)) (Some origin) = true
  ↔ ∃ e, e ∈ os ∧ trim e = origin.
Proof.
  intros Hne Hos Hblank Hstar Horigin. unfold origin_allowed.
  rewrite parseCors_joined by done. simpl default.
  destruct origin as [|c origin]; [done|]. simpl negb. cbv iota.
  rewrite bool_decide_eq_true, list_elem_of_filter, list_elem_of_fmap.
  split.
  - intros [_ (e & -> & He)]. by exists e.
  - intros (e & He & Heq). split; [done|]. by exists e.
Qed.

End CorsProps.

(** ** The history over several actions *)

Section HistoryRunsProps.

Import History HistoryRuns.

Context {A : Type} `{EqDecision A}.
Implicit Types (s : state A) (u : updater A) (a : action A).

Lemma bounded_step s a :
  (length (past s) + length (future s) ≤ limit)%nat →
  (length (past (historyReducer s a)) + length (future (historyReducer s a))
   ≤ limit)%nat.
Proof.
  intros Hs. destruct a as [u| | |v|]; simpl; [| | |unfold limit; lia|done].
  - destruct (decide _); [done|]. simpl. rewrite length_app. simpl.
    case_bool_decide; [rewrite length_drop|]; unfold limit in *; lia.
  - destruct (last (past s)) as [previous|] eqn:Hlast; [|done]. simpl.
    rewrite length_take. destruct (past s); [by simplify_eq/=|]. simpl in *. lia.
  - destruct (future s) as [|next rest] eqn:Hf; simpl in *.
    + rewrite Hf. simpl. lia.
    + rewrite length_app. simpl. lia.
Qed.

(** X8. However the editor is used, the history never holds more than 50
    values besides the present: the entries to undo and those to redo,
    taken together, stay within the limit. *)
Theorem history_stays_within_limit (v : A) (acts : list (action A)) :
  let s := foldl historyReducer (initial v) acts in
  (length (past s) + length (future s) ≤ limit)%nat.
Proof.
  cbv zeta. induction acts as [|a acts IH] using rev_ind.
  - simpl. lia.
  - rewrite foldl_app. simpl. by apply bounded_step.
Qed.

(** X9. Undo and redo only move the present along the values held: the
    sequence of past, present and future values is the same after as
    before -- no value is lost or made up. *)
Theorem undo_redo_keep_timeline s :
  timeline (historyReducer s AUndo) = timeline s
  ∧ timeline (historyReducer s ARedo) = timeline s.
Proof.
  unfold timeline. split; simpl.
  - destruct (last (past s)) as [previous|] eqn:Hlast; [|done]. simpl.
    pose proof (last_snoc_inv _ _ Hlast) as Heq.
    set (t := take _ _) in *. rewrite <- Heq. by rewrite <- app_assoc.
  - destruct (future s) as [|next rest] eqn:Hf; simpl; rewrite ?Hf; [done|].
    by rewrite <- app_assoc.
Qed.

Lemma pushed_length s us : length (pushed s us) = length us.
Proof. revert s. induction us as [|u us IH]; intros s; simpl; auto. Qed.

Lemma sets_past s us :
  all_change s us →
  ∃ d, (d ≤ (length (past s) + length us) - limit)%nat
       ∧ past (sets s us) = drop d (past s ++ pushed s us).
Proof.
  revert s. induction us as [|u us IH]; intros s Hch.
  { exists 0%nat. split; [lia|]. simpl. by rewrite app_nil_r. }
  destruct Hch as [Hu Hch]. destruct (IH _ Hch) as (d1 & Hd1 & Hpast).
  change (sets s (u :: us)) with (sets (historyReducer s (ASet u)) us).
  change (pushed s (u :: us))
    with (present s :: pushed (historyReducer s (ASet u)) us).
  rewrite Hpast. clear Hpast IH Hch.
  assert (past (historyReducer s (ASet u))
          = (if bool_decide (limit ≤ length (past s))%nat
             then drop 1 (past s) else past s) ++ [present s]) as Hset.
  { simpl. by destruct (decide _). }
  rewrite Hset in *. clear Hset. revert Hd1.
  rewrite length_app. simpl length. case_bool_decide as Hfull.
  - rewrite length_drop. intros Hd1. exists (S d1).
    split; [unfold limit in *; lia|].
    destruct (past s) as [|x l]; [simpl in Hfull; unfold limit in Hfull; lia|].
    simpl. by rewrite <- app_assoc.
  - intros Hd1. exists d1. split; [unfold limit in *; lia|].
    by rewrite <- app_assoc.
Qed.

Lemma undos_first n s : undos (S n) s = undos n (historyReducer s AUndo).
Proof. unfold undos. by rewrite Nat.iter_succ_r. Qed.

Lemma undos_last n s : undos (S n) s = historyReducer (undos n s) AUndo.
Proof. done. Qed.

Lemma redos_first n s : redos (S n) s = redos n (historyReducer s ARedo).
Proof. unfold redos. by rewrite Nat.iter_succ_r. Qed.

Lemma undos_pushed (vs q : list A) (pr : A) (fu : list A) :
  undos (length vs) (State (q ++ vs) pr fu)
  = match vs with
    | [] => State q pr fu
    | v :: vs' => State q v (vs' ++ pr :: fu)
    end.
Proof.
  revert pr fu. induction vs as [|x vs IH] using rev_ind; intros pr fu.
  { simpl. by rewrite app_nil_r. }
  rewrite length_app. simpl length. rewrite Nat.add_1_r.
  rewrite undos_first.
  assert (historyReducer (State (q ++ vs ++ [x]) pr fu) AUndo
          = State (q ++ vs) x (pr :: fu)) as ->.
  { simpl. rewrite app_assoc, last_snoc. simpl.
    rewrite length_app. simpl. rewrite Nat.add_sub.
    by rewrite take_app_length. }
  rewrite IH. destruct vs as [|v vs]; [done|]. simpl. by rewrite <- app_assoc.
Qed.

Lemma undos_past_length n s :
  length (past (undos n s)) = (length (past s) - n)%nat.
Proof.
  induction n as [|n IH]; [simpl; lia|]. rewrite undos_last. simpl.
  destruct (last (past (undos n s))) as [x|] eqn:Hlast; simpl.
  - rewrite length_take. lia.
  - apply last_None in Hlast. rewrite Hlast in *. simpl in *. lia.
Qed.

Lemma redos_undos n s :
  (n ≤ length (past s))%nat → redos n (undos n s) = s.
Proof.
  induction n as [|n IH]; intros Hn; [done|].
  rewrite redos_first, undos_last, undo_then_redo; [apply IH; lia|].
  intros Hnil. pose proof (undos_past_length n s) as Hlen.
  rewrite Hnil in Hlen. simpl in Hlen. lia.
Qed.

(** X10. Up to 50 changes in a row can be taken back: after as many undos
    as there were changes, the present is what it was before the first of
    them, and as many redos bring every change back. *)
Theorem changes_can_be_undone s (us : list (updater A)) :
  all_change s us → (length us ≤ limit)%nat →
  present (undos (length us) (sets s us)) = present s
  ∧ redos (length us) (undos (length us) (sets s us)) = sets s us.
Proof.
  intros Hch Hlen.
  destruct (sets_past s us Hch) as (d & Hd & Hpast).
  rewrite drop_app_le in Hpast by lia.
  split.
  - destruct (decide (us = [])) as [->|Hne]; [done|].
    destruct (sets s us) as [pa pr fu]. simpl in Hpast. subst pa.
    rewrite <- (pushed_length s us), undos_pushed.
    by destruct us.
  - apply redos_undos. rewrite Hpast, length_app, pushed_length. lia.
Qed.

(** What holds of every value the history holds goes on holding, as long
    as it holds of the values that are set. *)
Lemma timeline_invariant (P : A → Prop) s a :
  Forall P (timeline s) →
  match a with
  | ASet u => P (apply_updater u (present s))
  | AReset v => P v
  | _ => True
  end →
  Forall P (timeline (historyReducer s a)).
Proof.
  unfold timeline. intros Hs Ha.
  apply Forall_app in Hs as [Hpast [Hpresent Hfuture]%Forall_cons].
  destruct a as [u| | |v|]; simpl.
  - destruct (decide _); simpl.
    + apply Forall_app. split; [done|]. by constructor.
    + apply Forall_app. split; [|by repeat constructor].
      apply Forall_app. split; [|by repeat constructor].
      case_bool_decide; [by apply Forall_drop|done].
  - destruct (last (past s)) as [previous|] eqn:Hlast; simpl.
    + assert (P previous).
      { apply last_Some in Hlast as [l' Hl]. rewrite Hl in Hpast.
        apply Forall_app in Hpast as [_ [? _]%Forall_cons]. done. }
      apply Forall_app. split; [by apply Forall_take|]. by repeat constructor.
    + apply Forall_app. split; [done|]. by constructor.
  - destruct (future s) as [|next rest] eqn:Hf; simpl.
    + rewrite Hf. apply Forall_app. split; [done|]. by constructor.
    + apply Forall_cons in Hfuture as [Hnext Hrest].
      apply Forall_app. split; [|by constructor].
      apply Forall_app. split; [done|]. by repeat constructor.
  - by repeat constructor.
  - apply Forall_app. split; [done|]. by constructor.
Qed.

(** X27. The flags [canUndo] and [canRedo] that the editor shows its
    buttons by are set exactly when undo, or redo, would change the
    history. *)
Theorem can_undo_redo_iff_changes s :
  (canUndo s = true ↔ historyReducer s AUndo ≠ s)
  ∧ (canRedo s = true ↔ historyReducer s ARedo ≠ s).
Proof.
  unfold canUndo, canRedo. rewrite !bool_decide_eq_true. split.
  - destruct s as [pa pr fu]. simpl.
    destruct (last pa) as [previous|] eqn:Hlast.
    + split; [|destruct pa; [done|simpl; lia]].
      intros _ [= Hpa _ _].
      apply (f_equal length) in Hpa. rewrite length_take in Hpa.
      destruct pa; [done|]. simpl in Hpa. lia.
    + apply last_None in Hlast as ->. simpl. split; [lia|done].
  - destruct s as [pa pr fu]. simpl. destruct fu as [|next rest]; simpl.
    + split; [lia|done].
    + split; [|lia]. intros _ [= _ _ Hfu].
      apply (f_equal length) in Hfu. simpl in Hfu. lia.
Qed.

End HistoryRunsProps.

(** ** The editor: layers, flips, locks and ids *)

Section NodesProps.

Import Editor Nodes.
Local Open Scope float_scope.

Variables (asset profile : Type).
Variable asset_id : asset → jsstring.
Variable getDefaultProfile : asset → profile.
Variable atan2 : float → float → float.

Local Abbreviation node := (Editor.node profile).
Local Abbreviation editor := (Editor.editor profile).
Local Abbreviation id := (Editor.id profile).
Local Abbreviation nodes := (Editor.nodes profile).
Local Abbreviation ids := (Nodes.ids profile).
Local Abbreviation placement := (Nodes.placement profile).
Local Abbreviation step :=
  (Nodes.step asset profile asset_id getDefaultProfile atan2).

Implicit Types (e : editor) (n : node) (l : list node) (target : jsstring).

Lemma layer_target_bound (len from : nat) (delta : Z) :
  (from < len)%nat → (layer_target len from delta ≤ len - 1)%nat.
Proof. unfold layer_target, clamp_index. lia. Qed.

Lemma layer_target_in_range (len from : nat) (delta : Z) :
  (0 ≤ Z.of_nat from + delta ≤ Z.of_nat len - 1)%Z →
  Z.of_nat (layer_target len from delta) = (Z.of_nat from + delta)%Z.
Proof. unfold layer_target, clamp_index. lia. Qed.

Lemma list_find_unique l (i : nat) n :
  NoDup (id <$> l) → l !! i = Some n →
  list_find (λ m, id m = id n) l = Some (i, n).
Proof.
  intros Hnd Hi. apply list_find_Some. split_and!; [done..|].
  intros j m Hj Hlt Heq.
  assert (i = j); [|lia].
  eapply (NoDup_lookup (id <$> l)); [done|..].
  - by rewrite list_lookup_fmap, Hi.
  - rewrite list_lookup_fmap, Hj. simpl. by rewrite Heq.
Qed.

(** Taking a node out and putting it in at [to]. *)
Lemma moved_lookup l (from to : nat) n :
  l !! from = Some n → (to ≤ length l - 1)%nat →
  let next := delete from l in
  let l' := take to next ++ n :: drop to next in
  l' !! to = Some n ∧ delete to l' = next ∧ l' ≡ₚ l.
Proof.
  intros Hfrom Hto next l'.
  assert (length next = (length l - 1)%nat) as Hlen.
  { unfold next. pose proof (lookup_lt_Some _ _ _ Hfrom).
    rewrite length_delete by eauto. lia. }
  assert (length (take to next) = to) as Htake
    by (rewrite length_take; lia).
  split_and!.
  - unfold l'. rewrite <- Htake at 3. apply list_lookup_middle. done.
  - unfold l'. rewrite <- Htake at 1. rewrite delete_middle.
    apply take_drop.
  - unfold l'. rewrite <- Permutation_middle, take_drop.
    symmetry. by apply delete_Permutation.
Qed.

Lemma put_back l (from : nat) n :
  l !! from = Some n →
  take from (delete from l) ++ n :: drop from (delete from l) = l.
Proof.
  intros Hfrom. pose proof (lookup_lt_Some _ _ _ Hfrom) as Hlt.
  rewrite delete_take_drop.
  rewrite take_app_le by (rewrite length_take; lia).
  rewrite take_take, Nat.min_id.
  rewrite drop_app_le by (rewrite length_take; lia).
  rewrite drop_ge by (rewrite length_take; lia). simpl.
  by apply take_drop_middle.
Qed.

(** X11. [moveLayer] takes the node with the given id -- the first, were
    there several -- to the layer [delta] above its own, or as far as the
    top or the bottom: the node is then at that index, the other nodes
    keep their order, and none is lost or copied. *)
Theorem moveLayer_moves_one_node target (delta : Z) e (from : nat) n :
  list_find (λ m, id m = target) (nodes e) = Some (from, n) →
  let to := layer_target (length (nodes e)) from delta in
  let e' := moveLayer profile target delta e in
  nodes e' !! to = Some n
  ∧ delete to (nodes e') = delete from (nodes e)
  ∧ nodes e' ≡ₚ nodes e.
Proof.
  intros Hfind to e'. subst e'. unfold moveLayer. rewrite Hfind.
  apply list_find_Some in Hfind as (Hfrom & _ & _).
  fold to. destruct (decide (to = from)) as [Heq|Hne].
  - rewrite Heq. done.
  - simpl. apply moved_lookup; [done|].
    apply layer_target_bound. by eapply lookup_lt_Some.
Qed.

(** X12. On a stage where no two nodes share an id, moving a node by
    [delta] layers and then by [-delta] puts every node back where it was,
    provided the first move did not stop at the top or the bottom. *)
Theorem moveLayer_there_and_back target (delta : Z) e (from : nat) n :
  NoDup (ids e) →
  list_find (λ m, id m = target) (nodes e) = Some (from, n) →
  (0 ≤ Z.of_nat from + delta ≤ Z.of_nat (length (nodes e)) - 1)%Z →
  moveLayer profile target (- delta) (moveLayer profile target delta e) = e.
Proof.
  intros Hnd Hfind Hrange.
  pose proof (layer_target_in_range _ _ _ Hrange) as Hto.
  unfold moveLayer at 2. rewrite Hfind.
  pose proof Hfind as (Hfrom & Hid & _)%list_find_Some.
  pose proof (lookup_lt_Some _ _ _ Hfrom) as Hlt.
  set (to := layer_target (length (nodes e)) from delta) in *.
  destruct (decide (to = from)) as [Heq|Hne].
  { unfold moveLayer. rewrite Hfind.
    assert (delta = 0%Z) as -> by lia. simpl Z.opp. fold to.
    by rewrite decide_True. }
  destruct (moved_lookup (nodes e) from to n Hfrom) as (Hat & Hdel & Hperm).
  { apply layer_target_bound. lia. }
  set (l' := take to (delete from (nodes e)) ++ n :: drop to (delete from (nodes e))) in *.
  unfold moveLayer. simpl nodes.
  assert (list_find (λ m, id m = target) l' = Some (to, n)) as ->.
  { subst target. apply list_find_unique; [|done].
    unfold Nodes.ids in Hnd. by rewrite Hperm. }
  assert (length l' = length (nodes e)) as Hlen by by rewrite Hperm.
  assert (layer_target (length l') to (- delta) = from) as ->.
  { rewrite Hlen. unfold layer_target, clamp_index in *. lia. }
  rewrite decide_False by done. simpl. rewrite Hdel, put_back by done.
  by destruct e.
Qed.

Lemma patch_node_twice target (f : node → node) e :
  (∀ n, id (f n) = id n) → (∀ n, f (f n) = n) →
  patch_node profile target f (patch_node profile target f e) = e.
Proof.
  intros Hid Hinv. unfold patch_node. destruct e as [l sel g]. simpl.
  f_equal. rewrite <- list_fmap_compose. rewrite <- (list_fmap_id l) at 2.
  apply list_fmap_ext. intros _ n _. simpl.
  destruct (decide (id n = target)) as [Hn|Hn].
  - rewrite (bool_decide_eq_true_2 _ Hn).
    rewrite bool_decide_eq_true_2 by by rewrite Hid. apply Hinv.
  - rewrite (bool_decide_eq_false_2 _ Hn). by rewrite bool_decide_eq_false_2.
Qed.

(** X13. Flipping a node twice, or locking and unlocking it, leaves the
    stage as it was. *)
Theorem flip_and_lock_undo_themselves target e :
  flipNodeX profile target (flipNodeX profile target e) = e
  ∧ toggleNodeLock profile target (toggleNodeLock profile target e) = e.
Proof.
  split; apply patch_node_twice; try done.
  - intros [? ? ? ? ? ? ? ? flip ? ?]. simpl. by rewrite negb_involutive.
  - intros [? ? ? ? ? ? ? ? ? lock ?]. simpl. by rewrite negb_involutive.
Qed.

Lemma fmap_if_placement target (f : node → node) l :
  (∀ n, placement (f n) = placement n) →
  placement <$> ((λ n, if bool_decide (id n = target) then f n else n) <$> l)
  = placement <$> l.
Proof.
  intros Hf. rewrite <- list_fmap_compose. apply list_fmap_ext.
  intros _ n _. simpl. by case_bool_decide.
Qed.

Lemma in_place_placement e (a : Nodes.action asset profile) :
  in_place asset profile a = true →
  placement <$> nodes (step e a) = placement <$> nodes e.
Proof.
  destruct a as [ev|target d|target|target|target answer|target d
                |target px py|target| |];
    try done; simpl.
  - destruct ev; try done; simpl; intros _.
    + by apply fmap_if_placement.
    + by apply fmap_if_placement.
    + unfold onTransformEnd. destruct (find _ _) as [shown|]; [|done].
      destruct (locked profile shown); [done|]. simpl.
      by apply fmap_if_placement.
    + unfold onStageTouchStart.
      destruct (touches !! 0%nat), (touches !! 1%nat); try done.
      by destruct (selectedNode _ _).
    + unfold onStageTouchMove. destruct (touchGesture profile e); [|done].
      destruct (touches !! 0%nat), (touches !! 1%nat); try done. simpl.
      by apply fmap_if_placement.
  - intros _. by apply fmap_if_placement.
  - intros _. by apply fmap_if_placement.
  - intros _. by apply fmap_if_placement.
  - intros _. destruct answer; [|done]. by apply fmap_if_placement.
Qed.

(** X14. Scaling, rotating, flipping, locking, labelling, the transformer
    and the pinch gesture work on the nodes in place: after any of them
    the stage has the same nodes in the same order, each with the id,
    type, asset, position and input profile it had. *)
Theorem in_place_actions_keep_placement e (a : Nodes.action asset profile) :
  in_place asset profile a = true →
  placement <$> nodes (step e a) = placement <$> nodes e.
Proof. apply in_place_placement. Qed.

Lemma ids_placement l : id <$> l = (λ p, p.1.1.1.1.1) <$> (placement <$> l).
Proof. rewrite <- list_fmap_compose. by apply list_fmap_ext. Qed.

(** X15. As long as [uid()] gives an id not in use, and a plot that is
    loaded has no id twice, no action of the editor makes two nodes share
    an id. *)
Theorem ids_stay_unique e (a : Nodes.action asset profile) :
  NoDup (ids e) → fresh asset profile e a → NoDup (ids (step e a)).
Proof.
  intros Hnd Hfresh. unfold Nodes.ids in *.
  destruct (in_place asset profile a) eqn:Hplace.
  { rewrite ids_placement, in_place_placement by done.
    by rewrite <- ids_placement. }
  destruct a as [ev|target d|target|target|target answer|target d
                |target px py|target| |];
    try done; simpl in *; try exact Hnd; try (by apply NoDup_nil).
  - destruct ev; try done; simpl in *.
    + rewrite fmap_app. simpl. apply NoDup_app. split_and!; [exact Hnd| |].
      * intros i Hi ->%list_elem_of_singleton. by apply Hfresh.
      * apply NoDup_singleton.
    + apply (sublist_NoDup _ (id <$> nodes e)); [exact Hnd|].
      apply fmap_sublist, sublist_filter.
    + destruct (find _ _) as [src|]; [|done].
      rewrite fmap_app. simpl. apply NoDup_app. split_and!; [exact Hnd| |].
      * intros i Hi ->%list_elem_of_singleton. by apply Hfresh.
      * apply NoDup_singleton.
  - destruct (list_find (λ m, id m = target) (nodes e)) as [[from n]|] eqn:Hfind;
      [|by unfold moveLayer; rewrite Hfind].
    assert (nodes (moveLayer profile target d e) ≡ₚ nodes e) as ->; [|done].
    unfold moveLayer. rewrite Hfind.
    apply list_find_Some in Hfind as (Hfrom & _ & _).
    destruct (decide _); [done|]. simpl.
    apply moved_lookup; [done|].
    apply layer_target_bound. by eapply lookup_lt_Some.
  - rewrite <- list_fmap_compose.
    erewrite list_fmap_ext; [exact Hnd|]. intros i n _. simpl.
    by case_bool_decide.
Qed.

(** X16. A node just added is the selected node; deleting it gives back
    the nodes there were, with nothing selected. *)
Theorem add_then_delete (a : asset) (px py : float) (new_id : jsstring) e :
  new_id ∉ ids e →
  let e' := addNodeAt asset profile asset_id getDefaultProfile a px py new_id e in
  selectedNode profile e' = last (nodes e')
  ∧ id <$> selectedNode profile e' = Some new_id
  ∧ nodes (deleteNode profile new_id e') = nodes e
  ∧ Editor.selectedId profile (deleteNode profile new_id e') = None.
Proof.
  intros Hfresh e'. subst e'. unfold Nodes.ids in Hfresh.
  unfold selectedNode, addNodeAt. simpl.
  assert (∀ x : node, id x = new_id →
            find (λ n, bool_decide (id n = new_id)) (nodes e ++ [x]) = Some x)
    as Hfind.
  { intros x Hx. clear -Hfresh Hx. induction (nodes e) as [|n l IH]; simpl.
    - by rewrite bool_decide_eq_true_2.
    - rewrite fmap_cons, not_elem_of_cons in Hfresh. destruct Hfresh as [Hn Hl].
      rewrite bool_decide_eq_false_2 by done. by apply IH. }
  rewrite Hfind by done. rewrite last_snoc. split_and!; [done..| |].
  - rewrite filter_app. rewrite filter_cons_False by (simpl; by intros []).
    rewrite filter_nil, app_nil_r.
    clear -Hfresh. induction (nodes e) as [|n l IH]; [done|].
    rewrite fmap_cons, not_elem_of_cons in Hfresh. destruct Hfresh as [Hn Hl].
    rewrite filter_cons_True by done. f_equal. by apply IH.
  - by rewrite bool_decide_eq_true_2.
Qed.

(** X17. A touch with fewer than two fingers ends the pinch: whatever
    gesture there was, the touch moves that follow change nothing. *)
Theorem one_finger_touch_ends_pinch (on_stage : bool)
    (touches moves : list touch) e :
  touches !! 1%nat = None →
  let e' := onStageTouchStart profile atan2 on_stage touches e in
  touchGesture profile e' = None
  ∧ nodes e' = nodes e
  ∧ onStageTouchMove profile atan2 moves e' = e'.
Proof.
  intros Hone e'. subst e'. unfold onStageTouchStart. rewrite Hone.
  by destruct (touches !! 0%nat).
Qed.

End NodesProps.

(** ** The editor: scales on every path *)

Section StageProps.

Import Editor Nodes History HistoryRuns.
Local Open Scope float_scope.

Variables (asset profile : Type).
Variable asset_id : asset → jsstring.
Variable getDefaultProfile : asset → profile.
Variable atan2 : float → float → float.

Local Abbreviation node := (Editor.node profile).
Local Abbreviation editor := (Editor.editor profile).
Local Abbreviation nodes := (Editor.nodes profile).
Local Abbreviation scale := (Editor.scale profile).
Local Abbreviation scale_ok := (Editor.scale_ok profile).
Local Abbreviation action := (Nodes.action asset profile).
Local Abbreviation step :=
  (Nodes.step asset profile asset_id getDefaultProfile atan2).
Local Abbreviation run :=
  (Nodes.run asset profile asset_id getDefaultProfile atan2).
Local Abbreviation keeps_scales := (Nodes.keeps_scales asset profile).

Lemma patch_scale_ok (target : jsstring) (f : node → node) (e : editor) :
  (∀ n, scale (f n) = scale n) →
  Forall scale_ok (nodes e) →
  Forall scale_ok (nodes (patch_node profile target f e)).
Proof.
  intros Hf He. unfold patch_node. simpl. apply Forall_fmap.
  eapply Forall_impl; [exact He|]. intros n Hn. simpl.
  case_bool_decide; [|done]. unfold Editor.scale_ok. by rewrite Hf.
Qed.

Lemma step_scale_ok (e : editor) (a : action) :
  keeps_scales a →
  Forall scale_ok (nodes e) → Forall scale_ok (nodes (step e a)).
Proof.
  intros Ha He.
  destruct a as [ev|target d|target|target|target answer|target d
                |target px py|target| |]; simpl.
  - destruct (own_event asset profile ev) eqn:Hown.
    + by apply handle_scale_ok.
    + by destruct ev.
  - by apply patch_scale_ok.
  - by apply patch_scale_ok.
  - by apply patch_scale_ok.
  - destruct answer; [|done]. by apply patch_scale_ok.
  - unfold moveLayer.
    destruct (list_find _ _) as [[from n]|] eqn:Hfind; [|done].
    destruct (decide _); [done|]. simpl.
    apply list_find_Some in Hfind as (Hfrom & _ & _).
    destruct (moved_lookup profile (nodes e) from
                (layer_target (length (nodes e)) from d) n Hfrom)
      as (_ & _ & Hperm).
    { apply layer_target_bound. by eapply lookup_lt_Some. }
    by rewrite Hperm.
  - by apply patch_scale_ok.
  - done.
  - done.
  - constructor.
Qed.

Lemma run_keeps_scales (acts : list action) :
  Forall keeps_scales acts → Forall scale_ok (nodes (run acts)).
Proof.
  unfold Nodes.run.
  induction acts as [|a acts IH] using rev_ind; [constructor|].
  intros [Hacts [Ha _]%Forall_cons]%Forall_app.
  rewrite foldl_app. simpl. by apply step_scale_ok; [|apply IH].
Qed.


End StageProps.

(** ** The server: downloads, statistics and feedback *)

Section PublicProps.

Import Server Public.

Context {stored input node : Type}.
Context (castObjectId : jsstring → option oid).
Context (push_aliases reject_at_limit : bool).
Context (castString : node → option stored).

#[local] Abbreviation db := (@Server.db stored input).
#[local] Abbreviation call := (@Server.call node).
#[local] Abbreviation post_asset :=
  (@Server.post_asset stored input push_aliases reject_at_limit).
#[local] Abbreviation patch_asset :=
  (@Server.patch_asset stored input castObjectId push_aliases).
#[local] Abbreviation delete_asset :=
  (@Server.delete_asset stored input castObjectId).
#[local] Abbreviation post_plots :=
  (@Server.post_plots stored input castObjectId node castString).
#[local] Abbreviation get_plot := (@Server.get_plot stored input castObjectId).
#[local] Abbreviation get_asset_file :=
  (@Public.get_asset_file stored input castObjectId).
#[local] Abbreviation asset_download :=
  (@Public.asset_download stored input castObjectId).
#[local] Abbreviation api :=
  (@Server.api stored input castObjectId push_aliases reject_at_limit node
               castString).

Lemma fileFilter_truthy (f : upfile) :
  fileFilter f = true → truthy (mimetype f) = true.
Proof.
  unfold fileFilter. intros Hf. destruct (mimetype f) as [|c m]; [|done].
  by vm_compute in Hf.
Qed.

(** What a successful upload leaves in the database. *)
Lemma post_asset_created newFileId newAssetId f (fields : upload_fields)
    (d : db) :
  status (post_asset newFileId newAssetId (Some f) fields d).2 = 201 →
  bucket d = true ∧ fileFilter f = true
  ∧ ∃ a, fileId a = newFileId
         ∧ asset_category a = default [] (field_category fields)
         ∧ asset_section a = default [] (field_section fields)
         ∧ (post_asset newFileId newAssetId (Some f) fields d).1
           = set_taxonomy
               (upsertTaxonomyCategorySection push_aliases
                  (default [] (field_category fields))
                  (default [] (field_section fields)))
               (set_assets <[newAssetId := a]>
                  (set_files
                     <[newFileId := File (originalname f) (mimetype f) (buffer f)]>
                     d)).
Proof.
  unfold Server.post_asset, upload_single.
  destruct (fileFilter f) eqn:Hfilter; simpl; [|done].
  destruct (over_limit _ _); simpl; [done|].
  destruct (bucket d) eqn:Hbucket; simpl; [|done].
  destruct (if is_png f then _ else _) as [alpha|]; simpl; [|done].
  destruct (truthy (if truthy _ then _ else _)); simpl; [|done].
  intros _. split_and!; [done..|].
  eexists. split_and!; [| | |reflexivity]; done.
Qed.

(** X18. An upload that is answered 201 can be downloaded: [GET
    /api/assets/:id] with the id of the new asset sends the very octets
    that were uploaded, under the content type of the upload. *)
Theorem upload_then_download newFileId newAssetId f (fields : upload_fields)
    (d : db) (id : jsstring) :
  status (post_asset newFileId newAssetId (Some f) fields d).2 = 201 →
  castObjectId id = Some newAssetId →
  get_asset_file id (post_asset newFileId newAssetId (Some f) fields d).1
  = DFile (mimetype f) (buffer f).
Proof.
  intros (Hbucket & Hfilter & a & Hfile & _ & _ & ->)%post_asset_created Hid.
  unfold Public.get_asset_file. simpl. rewrite Hbucket, Hid. simpl.
  rewrite lookup_insert_eq, Hfile, lookup_insert_eq.
  unfold content_type_of. simpl. by rewrite (fileFilter_truthy f Hfilter).
Qed.

(** X19. Once an asset is deleted its download is gone -- 404 [Not
    found] -- while every other asset, so long as it has a file of its
    own, is served as before.  Both requests are behind the readiness
    gate, and the database is ready. *)
Theorem delete_then_download (id id' : jsstring) (o o' : oid) (a a' : asset)
    (d : db) :
  isDbReady d = true →
  castObjectId id = Some o → assets d !! o = Some a →
  castObjectId id' = Some o' → assets d !! o' = Some a' →
  o' ≠ o → fileId a' ≠ fileId a →
  (api d (DeleteAsset id)).2 = Response 200 BOk
  ∧ asset_download id (api d (DeleteAsset id)).1 = DText 404 (js "Not found")
  ∧ asset_download id' (api d (DeleteAsset id)).1 = asset_download id' d.
Proof.
  intros Hready Hid Ha Hid' Ha' Hne Hfile.
  pose proof Hready as [Hconn Hbucket]%andb_true_iff.
  unfold Server.api, Public.asset_download. rewrite Hready. simpl.
  unfold Server.delete_asset, Public.get_asset_file, isDbReady.
  rewrite Hid, Hid', Ha. simpl. rewrite !Hbucket. simpl.
  rewrite Hconn, Hbucket. simpl.
  rewrite lookup_delete_eq, lookup_delete_ne, Ha' by congruence.
  by rewrite lookup_delete_ne by congruence.
Qed.

(** X20. Editing an asset's name, category or section never touches what
    is downloaded: every asset is served after the patch as before. *)
Theorem patch_keeps_downloads (id id' : jsstring) (patch : patch_fields)
    (d : db) :
  get_asset_file id' (patch_asset id patch d).1 = get_asset_file id' d.
Proof.
  unfold Server.patch_asset.
  destruct (castObjectId id) as [o|]; [|done].
  destruct (assets d !! o) as [a|] eqn:Ha; [|done].
  unfold Public.get_asset_file. simpl.
  destruct (bucket d); [|done]. simpl.
  destruct (castObjectId id') as [o'|]; [|done].
  destruct (decide (o' = o)) as [->|Hne].
  - by rewrite lookup_insert_eq, Ha.
  - by rewrite lookup_insert_ne.
Qed.

(** X21. The plot count of [GET /api/admin/stats] goes up by one with
    every save answered 201 (the id given to the new plot being unused)
    and is the same after any other save. *)
Theorem stats_count_created_plots (now : N) (newId : oid)
    (session : option oid) (fields : save_fields) (d : db) :
  plots d !! newId = None →
  let result := post_plots now newId session fields d in
  get_stats result.1
  = (get_stats d + (if status result.2 =? 201 then 1 else 0))%N.
Proof.
  intros Hnew result. subst result. unfold get_stats, Server.post_plots.
  unfold requireAuth. destruct session as [uid|]; [|simpl; lia].
  destruct (users d !! uid); [|simpl; lia].
  destruct (truthy _).
  - destruct (negb _); [simpl; lia|].
    destruct (castObjectId _) as [o|]; [|simpl; lia].
    destruct (cast_state _ _) as [state'|]; [|simpl; lia].
    destruct (find_plot o uid d) as [p|] eqn:Hfind; [|simpl; lia].
    apply find_plot_Some in Hfind as [Hp _]. simpl.
    rewrite map_size_insert_Some by done. lia.
  - destruct (cast_state _ _) as [state'|]; [|simpl; lia].
    simpl. rewrite map_size_insert_None by done. lia.
Qed.

Lemma post_plots_then_get_plot (now : N) (newId o : oid)
    (session : option oid) (fields : save_fields) (d : db) (id : jsstring)
    (st : N) :
  (post_plots now newId session fields d).2 = Response st (BId o) →
  castObjectId id = Some o →
  ∃ state' inp created,
    cast_state castString (default [] (save_state fields)) = Some state'
    ∧ (get_plot session id (post_plots now newId session fields d).1).2
      = Response 200
          (BPlot o (or_untitled (default [] (trim <$> save_name fields)))
                 state' inp created now).
Proof.
  unfold Server.post_plots, Server.get_plot, requireAuth.
  destruct session as [uid|]; [|done].
  destruct (users d !! uid) as [u|] eqn:Hu; [|done].
  intros Hsave Hid. rewrite (isValidObjectId_Some _ _ _ Hid), Hid. simpl negb.
  cbv iota. revert Hsave. destruct (truthy _).
  - destruct (negb _); [done|].
    destruct (castObjectId (default [] _)) as [o'|]; [|done].
    destruct (cast_state _ _) as [state'|] eqn:Hcast; [|done].
    destruct (find_plot o' uid d) as [p|] eqn:Hfind; [|done].
    apply find_plot_Some in Hfind as [Hp Huid]. simpl. intros [= _ <-].
    rewrite Hu. unfold find_plot. simpl. rewrite lookup_insert_eq. simpl.
    rewrite bool_decide_eq_true_2 by done. by eexists _, _, _.
  - destruct (cast_state _ _) as [state'|] eqn:Hcast; [|done].
    simpl. intros [= _ <-]. rewrite Hu. unfold find_plot. simpl.
    rewrite lookup_insert_eq. simpl.
    rewrite bool_decide_eq_true_2 by done. by eexists _, _, _.
Qed.

Lemma post_plots_keeps_ready (now : N) (newId : oid) (session : option oid)
    (fields : save_fields) (d : db) :
  isDbReady (post_plots now newId session fields d).1 = isDbReady d.
Proof.
  unfold Server.post_plots, requireAuth.
  destruct session as [uid|]; [|done].
  destruct (users d !! uid); [|done].
  destruct (truthy _).
  - destruct (negb _); [done|].
    destruct (castObjectId _); [|done].
    destruct (cast_state _ _); [|done].
    by destruct (find_plot _ _ _).
  - by destruct (cast_state _ _).
Qed.

(** X22. A plot that has been saved is read back as it was stored: after
    [POST /api/plots] is answered with the id of the plot,
    [GET /api/plots/:id] by the same user for that id gives the state of
    the request as Mongoose cast it to the schema (every element a
    string), its name trimmed ([Untitled] for an empty one), and the time
    of the save as the time of the last update.  Both requests go through
    the readiness gate. *)
Theorem save_then_get (now : N) (newId o : oid) (session : option oid)
    (fields : save_fields) (d : db) (id : jsstring) (st : N) :
  let saved := api d (PostPlots now newId session fields) in
  saved.2 = Response st (BId o) →
  castObjectId id = Some o →
  ∃ state' inp created,
    cast_state castString (default [] (save_state fields)) = Some state'
    ∧ (api saved.1 (GetPlot session id)).2
      = Response 200
          (BPlot o (or_untitled (default [] (trim <$> save_name fields)))
                 state' inp created now).
Proof.
  intros saved. subst saved. unfold Server.api.
  destruct (isDbReady d) eqn:Hready; [|done]. simpl.
  rewrite post_plots_keeps_ready, Hready. simpl.
  apply post_plots_then_get_plot.
Qed.

Lemma upsert_set_taxonomy_frame f (d : db) :
  users (set_taxonomy f d) = users d ∧ plots (set_taxonomy f d) = plots d.
Proof. done. Qed.

(** X23. What the requests leave alone: none of them changes the users or
    the state of the connection; the plot requests change no asset, file
    or taxonomy entry; and the other requests change no plot. *)
Theorem requests_keep_to_their_collections (c : call) (d : db) :
  let d' := (api d c).1 in
  users d' = users d ∧ connected d' = connected d ∧ bucket d' = bucket d
  ∧ (plot_call c = true →
     assets d' = assets d ∧ files d' = files d ∧ taxonomy d' = taxonomy d)
  ∧ (plot_call c = false → plots d' = plots d).
Proof.
  cbv zeta. unfold Server.api. destruct (negb (isDbReady d)); [done|].
  destruct c as [nf na f fields|id patch|id| |name|category name|session
                 |now newId session fields|session id]; simpl.
  - unfold Server.post_asset. destruct (upload_single _ f) as [msg|[f'|]]; try done.
    destruct (negb (bucket d)); [done|].
    destruct (if is_png f' then _ else _); [|done].
    by destruct (negb (truthy _)).
  - unfold Server.patch_asset. destruct (castObjectId id) as [o|]; [|done].
    by destruct (assets d !! o).
  - unfold Server.delete_asset. destruct (castObjectId id) as [o|]; [|done].
    destruct (assets d !! o); [|done]. simpl.
    by destruct (bucket d) eqn:Hb; simpl; rewrite ?Hb.
  - unfold get_taxonomy. by destruct (taxonomy d).
  - unfold post_category. destruct (negb (truthy _)); [done|].
    destruct (taxonomy d); [|done]. by destruct (existsb _ _).
  - unfold post_section. destruct (negb (truthy _)); [done|].
    destruct (negb (truthy _)); [done|].
    destruct (taxonomy d) as [cats|]; [|done].
    destruct (find_category _ cats) as [[i entry]|]; [|done].
    by destruct (bool_decide _).
  - unfold get_plots, requireAuth. destruct session as [uid|]; [|done].
    by destruct (users d !! uid).
  - unfold Server.post_plots, requireAuth. destruct session as [uid|]; [|done].
    destruct (users d !! uid); [|done].
    destruct (truthy _); [|by destruct (cast_state _ _)].
    destruct (negb _); [done|]. destruct (castObjectId _) as [o|]; [|done].
    destruct (cast_state _ _); [|done].
    by destruct (find_plot o uid d).
  - unfold Server.get_plot, requireAuth. destruct session as [uid|]; [|done].
    destruct (users d !! uid); [|done]. destruct (negb _); [done|].
    destruct (castObjectId _) as [o|]; [|done].
    by destruct (find_plot o uid d).
Qed.

(** X28. A plot request without a session, or with the session of a user
    that is not there, is answered 401 and changes nothing. *)
Theorem plot_calls_need_a_user (c : call) (d : db) :
  isDbReady d = true → plot_call c = true →
  session_of c ≫= (λ uid, users d !! uid) = None →
  api d c = (d, error 401 "Unauthorized").
Proof.
  intros Hready Hplot Hnone. unfold Server.api. rewrite Hready. simpl.
  destruct c; try done; simpl in *.
  - unfold get_plots, requireAuth. destruct session as [uid|]; [|done].
    simpl in Hnone. by rewrite Hnone.
  - unfold Server.post_plots, requireAuth. destruct session as [uid|]; [|done].
    simpl in Hnone. by rewrite Hnone.
  - unfold Server.get_plot, requireAuth. destruct session as [uid|]; [|done].
    simpl in Hnone. by rewrite Hnone.
Qed.

Lemma existsb_name_true name (cats : list category) :
  name ∈ category_name <$> cats →
  existsb (λ c, bool_decide (category_name c = name)) cats = true.
Proof.
  intros (c & -> & Hc)%list_elem_of_fmap. apply existsb_exists.
  exists c. split; [by apply list_elem_of_In|]. by apply bool_decide_eq_true.
Qed.

(** X24. Creating a category is idempotent, also across names that trim
    to the same: the second request changes nothing and gets the answer
    of the first. *)
Theorem post_category_twice (name1 name2 : option jsstring) (d : db) :
  normalizeName name1 = normalizeName name2 →
  post_category name2 (post_category name1 d).1 = post_category name1 d.
Proof.
  intros Hname. unfold post_category at 2 3. cbv zeta.
  destruct (negb (truthy (normalizeName name1))) eqn:Hblank.
  { unfold post_category. cbv zeta. by rewrite <- Hname, Hblank. }
  destruct (taxonomy d) as [cats|] eqn:Htax.
  - destruct (existsb _ cats) eqn:Hex.
    + unfold post_category. cbv zeta. simpl.
      by rewrite <- Hname, Hblank, Htax, Hex.
    + unfold post_category. cbv zeta. simpl. rewrite <- Hname, Hblank.
      rewrite existsb_name_true; [done|].
      rewrite fmap_app. apply elem_of_app. right. simpl. apply elem_of_cons. by left.
  - unfold post_category. cbv zeta. simpl. rewrite <- Hname, Hblank. simpl.
    by rewrite bool_decide_eq_true_2.
Qed.

(** A feedback as the handler stores it. *)
Lemma post_feedback_cases (session : option oid)
    (message_raw page_raw : option jsstring) (d : db) (fbs : list feedback) :
  let result := post_feedback (stored := stored) (input := input)
                  session message_raw page_raw d fbs in
  (status result.2 ≠ 201 ∧ result.1 = fbs)
  ∨ (status result.2 = 201
     ∧ ∃ uid u, session = Some uid ∧ users d !! uid = Some u
         ∧ trim (default [] message_raw) ≠ []
         ∧ result.1 = fbs ++ [Feedback uid (email u) (user_name u)
                                (default [] (trim <$> message_raw))
                                (default [] (trim <$> page_raw))]).
Proof.
  cbv zeta. unfold post_feedback.
  destruct session as [uid|]; [|by left].
  destruct (users d !! uid) as [u|] eqn:Hu; [|by left].
  destruct (default [] (trim <$> message_raw)) as [|c m] eqn:Hm; [by left|].
  right. simpl. split; [done|]. exists uid, u. split_and!; try done.
  destruct message_raw as [l|]; [|done].
  change (trim l = c :: m) in Hm. change (trim l ≠ []). by rewrite Hm.
Qed.

(** X25. What is kept as feedback: the 201 answer and the stored record
    go together; the record is that of a signed-in user, with the user's
    email and name, and its message is not blank and is trimmed, as is its
    page. *)
Theorem feedback_stored_only_with_message (session : option oid)
    (message_raw page_raw : option jsstring) (d : db) (fbs : list feedback) :
  let result := post_feedback (stored := stored) (input := input)
                  session message_raw page_raw d fbs in
  (status result.2 ≠ 201 ∧ result.1 = fbs)
  ∨ (status result.2 = 201
     ∧ ∃ fb u, result.1 = fbs ++ [fb]
         ∧ session = Some (feedback_userId fb)
         ∧ users d !! feedback_userId fb = Some u
         ∧ feedback_email fb = email u ∧ feedback_name fb = user_name u
         ∧ message fb ≠ [] ∧ trim (message fb) = message fb
         ∧ trim (page fb) = page fb).
Proof.
  cbv zeta.
  destruct (post_feedback_cases session message_raw page_raw d fbs)
    as [?|(Hst & uid & u & -> & Hu & Hm & Hres)]; [by left|].
  right. split; [done|]. eexists _, u. split; [exact Hres|]. simpl.
  split_and!; try done.
  - by destruct message_raw.
  - destruct message_raw; simpl; [apply trim_trim|done].
  - destruct page_raw; simpl; [apply trim_trim|done].
Qed.

End PublicProps.

(** ** The PNG sniff on a longer buffer *)

Section PngMoreProps.

Import Png.

Implicit Types (b extra : buffer) (offset length : N).

Lemma blen_app b extra : blen (b ++ extra) = blen b + blen extra.
Proof. unfold blen. rewrite length_app. lia. Qed.

Lemma at_app b extra i : i < blen b → at_ (b ++ extra) i = at_ b i.
Proof.
  unfold at_, blen. intros Hi. by rewrite lookup_app_l by lia.
Qed.

Lemma readUInt32BE_app b extra offset :
  offset + 4 ≤ blen b →
  readUInt32BE (b ++ extra) offset = readUInt32BE b offset.
Proof.
  intros Hin. unfold readUInt32BE. by rewrite !at_app by lia.
Qed.

Lemma subarray_app b extra (s e : N) :
  e ≤ blen b → subarray (b ++ extra) s e = subarray b s e.
Proof.
  unfold subarray, blen. intros He.
  destruct (decide (N.to_nat s ≤ List.length b)%nat) as [Hs|Hs].
  - rewrite drop_app_le by done. apply take_app_le.
    rewrite length_drop. lia.
  - replace (N.to_nat e - N.to_nat s)%nat with 0%nat by lia. done.
Qed.

Lemma scan_finds_app b extra offset :
  scan_finds tag_ascii b offset → scan_finds tag_ascii (b ++ extra) offset.
Proof.
  induction 1 as [offset len (Hin & Hlen & Hfit) Hsig
                 |offset len (Hin & Hlen & Hfit) Hiend _ IH].
  - apply (found_here _ _ offset len).
    + split_and!; rewrite ?blen_app; [lia| |lia].
      by rewrite readUInt32BE_app by lia.
    + unfold signals_alpha in *. rewrite subarray_app by lia.
      destruct Hsig as [(Htag & Hlen13 & Hct)|Htag]; [left|by right].
      split_and!; [done..|]. by rewrite at_app by lia.
  - apply (found_later _ _ offset len); [| |done].
    + split_and!; rewrite ?blen_app; [lia| |lia].
      by rewrite readUInt32BE_app by lia.
    + by rewrite subarray_app by lia.
Qed.

(** X26. Octets after the end of the image do not take the answer back:
    if [detectPngHasAlpha] finds transparency in a buffer, it finds it in
    every buffer that starts with those octets. *)
Theorem detectPngHasAlpha_with_trailing_octets b extra :
  detectPngHasAlpha b = Some true →
  detectPngHasAlpha (b ++ extra) = Some true.
Proof.
  unfold detectPngHasAlpha.
  destruct (N.ltb_spec (blen b) 24) as [|Hlong]; [done|].
  destruct (N.ltb_spec (blen (b ++ extra)) 24) as [Hshort|Hlong'].
  { rewrite blen_app in Hshort. lia. }
  rewrite subarray_app by lia.
  destruct (negb _); [done|]. intros Hfinds%scan_true_finds.
  apply finds_scan_true; [by apply scan_finds_app|by apply initial_fuel].
Qed.

End PngMoreProps.

(** ** The properties on examples *)

Section MoreWitnesses.

Import Text Server Public Examples MoreExamples.

(** X1 on cells with a comma, a quote and a line break. *)
Lemma parseCsvLine_reads_escaped_cells_witness :
  cells ≠ [] ∧ parseCsvLine (join [comma] (escape <$> cells)) = cells.
Proof.
  assert (cells ≠ []) as Hne by done.
  split; [done|]. exact (parseCsvLine_reads_escaped_cells cells Hne).
Defined.

(** X2 on two rows, one with a comma and one with quotes. *)
Lemma parseCsv_reads_exportCSV_witness :
  Forall row_on_one_line rows ∧ parseCsv (exportCSV rows) = export_table rows.
Proof.
  assert (Forall row_on_one_line rows) as Hrows.
  { repeat constructor; by vm_compute. }
  split; [done|]. exact (parseCsv_reads_exportCSV rows Hrows).
Defined.

(** X4 on a name that is already safe. *)
Lemma toSafeFilename_keeps_safe_witness :
  safe_filename (js "My plot (v2).pdf")
  ∧ toSafeFilename (js "My plot (v2).pdf") = js "My plot (v2).pdf".
Proof.
  assert (safe_filename (js "My plot (v2).pdf")) as Hsafe.
  { repeat split; simpl; repeat constructor; by vm_compute. }
  split; [done|]. exact (toSafeFilename_keeps_safe _ Hsafe).
Defined.

(** A name with other characters and white space in runs. *)
Example toSafeFilename_runs :
  toSafeFilename (js "  Tour:  2026 / main*stage?.pdf ")
  = js "Tour 2026 mainstage.pdf".
Proof. by vm_compute. Qed.

(** X5 on a value with white space and an empty entry. *)
Lemma parseCorsAllowedOrigins_entries_witness :
  let raw := Some (js " https://a.example , https://b.example,") in
  let allowed := [js "https://a.example"; js "https://b.example"] in
  parseCorsAllowedOrigins raw = Some allowed
  ∧ Forall (λ e, e ≠ [] ∧ trim e = e ∧ Forall (λ c, c ≠ comma) e) allowed.
Proof.
  intros raw allowed.
  assert (parseCorsAllowedOrigins raw = Some allowed) as Hparse by by vm_compute.
  split; [done|]. exact (parseCorsAllowedOrigins_entries raw allowed Hparse).
Defined.

(** X6 on three entries, the last of them empty. *)
Lemma parseCorsAllowedOrigins_joined_witness :
  origins ≠ [] ∧ Forall (Forall (λ c, c ≠ comma)) origins
  ∧ trim (join [comma] origins) ≠ [] ∧ trim (join [comma] origins) ≠ js "*"
  ∧ parseCorsAllowedOrigins (Some (join [comma] origins))
    = Some (filter (λ s, truthy s = true) (trim <$> origins)).
Proof.
  assert (origins ≠ []) as H1 by done.
  assert (Forall (Forall (λ c, c ≠ comma)) origins) as H2.
  { repeat constructor; by vm_compute. }
  assert (trim (join [comma] origins) ≠ []) as H3 by by vm_compute.
  assert (trim (join [comma] origins) ≠ js "*") as H4 by by vm_compute.
  split_and!; [done..|]. exact (parseCorsAllowedOrigins_joined origins H1 H2 H3 H4).
Defined.

(** X7 on the same entries, for the first origin. *)
Lemma origin_allowed_iff_listed_witness :
  origins ≠ [] ∧ Forall (Forall (λ c, c ≠ comma)) origins
  ∧ trim (join [comma] origins) ≠ [] ∧ trim (join [comma] origins) ≠ js "*"
  ∧ js "https://a.example" ≠ []
  ∧ (origin_allowed (Some (join [comma] origins)) (Some (js "https://a.example"))
     = true
     ↔ ∃ e, e ∈ origins ∧ trim e = js "https://a.example").
Proof.
  assert (origins ≠ []) as H1 by done.
  assert (Forall (Forall (λ c, c ≠ comma)) origins) as H2.
  { repeat constructor; by vm_compute. }
  assert (trim (join [comma] origins) ≠ []) as H3 by by vm_compute.
  assert (trim (join [comma] origins) ≠ js "*") as H4 by by vm_compute.
  assert (js "https://a.example" ≠ []) as H5 by done.
  split_and!; [done..|].
  exact (origin_allowed_iff_listed origins (js "https://a.example") H1 H2 H3 H4 H5).
Defined.

(** The middleware on these entries: the listed origin passes, another is
    refused, a request without an origin passes. *)
Example origin_allowed_runs :
  origin_allowed (Some (join [comma] origins)) (Some (js "https://a.example")) = true
  ∧ origin_allowed (Some (join [comma] origins)) (Some (js "https://c.example")) = false
  ∧ origin_allowed (Some (join [comma] origins)) None = true
  ∧ origin_allowed (Some (js " * ")) (Some (js "https://c.example")) = true.
Proof. by vm_compute. Qed.

(** X10 on three changes of a number. *)
Lemma changes_can_be_undone_witness :
  let s := History.initial 0%nat in
  HistoryRuns.all_change s count_up
  ∧ (length count_up ≤ History.limit)%nat
  ∧ History.present
      (HistoryRuns.undos (length count_up) (HistoryRuns.sets s count_up))
    = History.present s
  ∧ HistoryRuns.redos (length count_up)
      (HistoryRuns.undos (length count_up) (HistoryRuns.sets s count_up))
    = HistoryRuns.sets s count_up.
Proof.
  intros s.
  assert (HistoryRuns.all_change s count_up) as H1.
  { repeat split; by vm_compute. }
  assert (length count_up ≤ History.limit)%nat as H2.
  { unfold History.limit. simpl. lia. }
  split_and!; [done..| |]; by apply (changes_can_be_undone s count_up H1 H2).
Defined.

(** X11 on a stage of three nodes: the first goes up one layer. *)
Lemma moveLayer_moves_one_node_witness :
  let e' := Nodes.moveLayer unit (js "n1") 1 stage3 in
  list_find (λ m, Editor.id unit m = js "n1") (Editor.nodes unit stage3)
  = Some (0%nat, node_of "n1")
  ∧ Editor.nodes unit e' !! 1%nat = Some (node_of "n1")
  ∧ delete 1%nat (Editor.nodes unit e') = delete 0%nat (Editor.nodes unit stage3)
  ∧ Editor.nodes unit e' ≡ₚ Editor.nodes unit stage3.
Proof.
  intros e'.
  assert (list_find (λ m, Editor.id unit m = js "n1") (Editor.nodes unit stage3)
          = Some (0%nat, node_of "n1")) as Hfind by by vm_compute.
  split; [done|].
  exact (moveLayer_moves_one_node unit (js "n1") 1 stage3 0 (node_of "n1") Hfind).
Defined.

(** X12 on that stage: up one layer and down again. *)
Lemma moveLayer_there_and_back_witness :
  NoDup (Nodes.ids unit stage3)
  ∧ list_find (λ m, Editor.id unit m = js "n1") (Editor.nodes unit stage3)
    = Some (0%nat, node_of "n1")
  ∧ (0 ≤ Z.of_nat 0 + 1 ≤ Z.of_nat (length (Editor.nodes unit stage3)) - 1)%Z
  ∧ Nodes.moveLayer unit (js "n1") (- 1)
      (Nodes.moveLayer unit (js "n1") 1 stage3) = stage3.
Proof.
  assert (NoDup (Nodes.ids unit stage3)) as Hnd.
  { apply (bool_decide_unpack _). by vm_compute. }
  assert (list_find (λ m, Editor.id unit m = js "n1") (Editor.nodes unit stage3)
          = Some (0%nat, node_of "n1")) as Hfind by by vm_compute.
  assert (0 ≤ Z.of_nat 0 + 1 ≤ Z.of_nat (length (Editor.nodes unit stage3)) - 1)%Z
    as Hrange by (simpl; lia).
  split_and!; [done..|].
  exact (moveLayer_there_and_back unit (js "n1") 1 stage3 0 (node_of "n1")
           Hnd Hfind Hrange).
Defined.

(** The layers of the stage after the first node has gone to the top. *)
Example moveLayer_runs :
  Nodes.ids unit (Nodes.moveLayer unit (js "n1") 1 stage3)
  = [js "n2"; js "n1"; js "n3"]
  ∧ Nodes.ids unit (Nodes.moveLayer unit (js "n1") 5 stage3)
    = [js "n2"; js "n3"; js "n1"]
  ∧ Nodes.moveLayer unit (js "n1") (- 1) stage3 = stage3
  ∧ Nodes.moveLayer unit (js "n9") 1 stage3 = stage3.
Proof. by vm_compute. Qed.


(** The stage those actions leave: the added node at the bottom, at scale
    4, and the copy of the loaded node at scale 0.25. *)
Example stage_actions_runs :
  let e := stage_actions_run stage_actions in
  Nodes.ids unit e = [js "n2"; js "n3"]
  ∧ Editor.scale unit <$> Editor.nodes unit e = [4%float; 0.25%float]
  ∧ Editor.selectedId unit e = Some (js "n3").
Proof. by vm_compute. Qed.

(** X14 on that stage: the second node is rotated. *)
Lemma in_place_actions_keep_placement_witness :
  let a := Nodes.Rotate unit unit (js "n2") 15 in
  Nodes.in_place unit unit a = true
  ∧ Nodes.placement unit <$> Editor.nodes unit (stage_step stage3 a)
    = Nodes.placement unit <$> Editor.nodes unit stage3.
Proof.
  intros a. assert (Nodes.in_place unit unit a = true) as Hplace by done.
  split; [done|].
  exact (in_place_actions_keep_placement unit unit _ _ _ stage3 a Hplace).
Defined.

(** X15 on that stage: the second node is duplicated under a new id. *)
Lemma ids_stay_unique_witness :
  let a := Nodes.Base unit unit
             (Editor.DuplicateNode unit unit (js "n2") (js "n4")) in
  NoDup (Nodes.ids unit stage3)
  ∧ Nodes.fresh unit unit stage3 a
  ∧ NoDup (Nodes.ids unit (stage_step stage3 a)).
Proof.
  intros a.
  assert (NoDup (Nodes.ids unit stage3)) as Hnd.
  { apply (bool_decide_unpack _). by vm_compute. }
  assert (Nodes.fresh unit unit stage3 a) as Hfresh.
  { change (js "n4" ∉ Nodes.ids unit stage3).
    apply (bool_decide_unpack _). by vm_compute. }
  split_and!; [done..|].
  exact (ids_stay_unique unit unit _ _ _ stage3 a Hnd Hfresh).
Defined.

(** X16 on that stage: a node is added under a new id and deleted. *)
Lemma add_then_delete_witness :
  let e' := Editor.addNodeAt unit unit (λ _, js "a1") (λ _, tt) tt 30 40
              (js "n4") stage3 in
  (js "n4" ∉ Nodes.ids unit stage3)
  ∧ Editor.selectedNode unit e' = last (Editor.nodes unit e')
  ∧ Editor.id unit <$> Editor.selectedNode unit e' = Some (js "n4")
  ∧ Editor.nodes unit (Editor.deleteNode unit (js "n4") e')
    = Editor.nodes unit stage3
  ∧ Editor.selectedId unit (Editor.deleteNode unit (js "n4") e') = None.
Proof.
  intros e'.
  assert (js "n4" ∉ Nodes.ids unit stage3) as Hfresh.
  { apply (bool_decide_unpack _). by vm_compute. }
  split; [done|].
  exact (add_then_delete unit unit (λ _, js "a1") (λ _, tt) tt 30 40 (js "n4")
           stage3 Hfresh).
Defined.

(** X17 on that stage: a touch of one finger. *)
Lemma one_finger_touch_ends_pinch_witness :
  let touches := [Editor.Touch 5 5] in
  let moves := [Editor.Touch 5 5; Editor.Touch 9 9] in
  let e' := Editor.onStageTouchStart unit (λ _ _, 0%float) false touches stage3 in
  touches !! 1%nat = None
  ∧ Editor.touchGesture unit e' = None
  ∧ Editor.nodes unit e' = Editor.nodes unit stage3
  ∧ Editor.onStageTouchMove unit (λ _ _, 0%float) moves e' = e'.
Proof.
  intros touches moves e'.
  assert (touches !! 1%nat = None) as Hone by done.
  split; [done|].
  exact (one_finger_touch_ends_pinch unit (λ _ _, 0%float) false touches moves
           stage3 Hone).
Defined.

(** X18 on the example database: the SVG is uploaded and downloaded. *)
Lemma upload_then_download_witness :
  let upload := post_asset true false 0x15 0x0b (Some snare_svg) snare_fields db0 in
  status upload.2 = 201
  ∧ castObjectId_hex id_0b = Some 0x0b
  ∧ get_asset_file castObjectId_hex id_0b upload.1
    = DFile (mimetype snare_svg) (buffer snare_svg).
Proof.
  intros upload.
  assert (status upload.2 = 201) as Hst by by vm_compute.
  assert (castObjectId_hex id_0b = Some 0x0b) as Hid by by vm_compute.
  split_and!; [done..|].
  exact (upload_then_download castObjectId_hex true false 0x15 0x0b snare_svg
           snare_fields db0 id_0b Hst Hid).
Defined.

(** X19 on the database of two assets: the kick is deleted, the snare is
    served as before. *)
Lemma delete_then_download_witness :
  let result := api castObjectId_hex true false castString_value db1
                  (DeleteAsset id_0a) in
  isDbReady db1 = true
  ∧ castObjectId_hex id_0a = Some 0x0a ∧ assets db1 !! 0x0a = Some kick
  ∧ castObjectId_hex id_0b = Some 0x0b ∧ assets db1 !! 0x0b = Some snare
  ∧ (0x0b : oid) ≠ 0x0a ∧ fileId snare ≠ fileId kick
  ∧ result.2 = Response 200 BOk
  ∧ asset_download castObjectId_hex id_0a result.1 = DText 404 (js "Not found")
  ∧ asset_download castObjectId_hex id_0b result.1
    = asset_download castObjectId_hex id_0b db1.
Proof.
  intros result.
  assert (isDbReady db1 = true) as H1 by done.
  assert (castObjectId_hex id_0a = Some 0x0a) as H2 by by vm_compute.
  assert (assets db1 !! 0x0a = Some kick) as H3 by by vm_compute.
  assert (castObjectId_hex id_0b = Some 0x0b) as H4 by by vm_compute.
  assert (assets db1 !! 0x0b = Some snare) as H5 by by vm_compute.
  assert ((0x0b : oid) ≠ 0x0a) as H6 by done.
  assert (fileId snare ≠ fileId kick) as H7 by done.
  split_and!; [done..| | |];
    by apply (delete_then_download castObjectId_hex true false castString_value
                id_0a id_0b 0x0a 0x0b kick snare db1 H1 H2 H3 H4 H5 H6 H7).
Defined.

(** The snare of that database, as it is served. *)
Example download_runs :
  asset_download castObjectId_hex id_0b db1
  = DFile (js "image/svg+xml") (buffer snare_svg)
  ∧ asset_download castObjectId_hex id_ff db1 = DText 404 (js "Not found")
  ∧ asset_download castObjectId_hex (js "0b") db1 = DUncaught
  ∧ asset_download castObjectId_hex id_0b
      (Db false true (users db1) (assets db1) (files db1) (taxonomy db1)
          (plots db1))
    = DError 503 (js "Database not connected. If using MongoDB Atlas, ensure your current IP is allowed in Network Access.").
Proof. by vm_compute. Qed.

(** X21 on the example database: Alice saves a new plot. *)
Lemma stats_count_created_plots_witness :
  let result := post_plots castObjectId_hex castString_value 200 0xa3 (Some 1)
                  (SaveFields (Some [VNumber 3; VNumber 4]) (Some (js "Tour"))
                              None) db0 in
  plots db0 !! 0xa3 = None
  ∧ get_stats result.1
    = (get_stats db0 + (if status result.2 =? 201 then 1 else 0))%N.
Proof.
  intros result.
  assert (plots db0 !! 0xa3 = None) as Hnew by by vm_compute.
  split; [done|].
  exact (stats_count_created_plots castObjectId_hex castString_value 200 0xa3
           (Some 1)
           (SaveFields (Some [VNumber 3; VNumber 4]) (Some (js "Tour")) None)
           db0 Hnew).
Defined.

(** X22 on the example database: Alice saves a new plot and reads it. *)
Lemma save_then_get_witness :
  let fields := SaveFields (Some [VNumber 3; VNumber 4]) (Some (js "  Tour "))
                           None in
  let save := api castObjectId_hex true false castString_value db0
                (PostPlots 200 0xa3 (Some 1) fields) in
  save.2 = Response 201 (BId 0xa3)
  ∧ castObjectId_hex id_a3 = Some 0xa3
  ∧ ∃ state' inp created,
      cast_state castString_value (default [] (save_state fields)) = Some state'
      ∧ (api castObjectId_hex true false castString_value save.1
           (GetPlot (Some 1) id_a3)).2
        = Response 200
            (BPlot 0xa3 (or_untitled (default [] (trim <$> save_name fields)))
                   state' inp created 200).
Proof.
  intros fields save.
  assert (save.2 = Response 201 (BId 0xa3)) as Hsave by by vm_compute.
  assert (castObjectId_hex id_a3 = Some 0xa3) as Hid by by vm_compute.
  split_and!; [done..|].
  exact (save_then_get castObjectId_hex true false castString_value 200 0xa3
           0xa3 (Some 1) fields db0 id_a3 201 Hsave Hid).
Defined.

(** The plot of that save, as it is read: the numbers have become strings. *)
Example save_then_get_runs :
  let fields := SaveFields (Some [VNumber 3; VNumber 4]) (Some (js "  Tour "))
                           None in
  let save := api castObjectId_hex true false castString_value db0
                (PostPlots 200 0xa3 (Some 1) fields) in
  (api castObjectId_hex true false castString_value save.1
     (GetPlot (Some 1) id_a3)).2
  = Response 200 (BPlot 0xa3 (js "Tour") [js "3"; js "4"] [] 200 200).
Proof. by vm_compute. Qed.

(** X28 on the example database: a listing with the session of a user
    that is not there. *)
Lemma plot_calls_need_a_user_witness :
  let c := GetPlots (node := value) (Some 9) in
  isDbReady db0 = true ∧ plot_call c = true
  ∧ session_of c ≫= (λ uid, users db0 !! uid) = None
  ∧ api castObjectId_hex true false castString_value db0 c
    = (db0, error 401 "Unauthorized").
Proof.
  intros c.
  assert (isDbReady db0 = true) as H1 by done.
  assert (plot_call c = true) as H2 by done.
  assert (session_of c ≫= (λ uid, users db0 !! uid) = None) as H3 by by vm_compute.
  split_and!; [done..|].
  exact (plot_calls_need_a_user castObjectId_hex true false castString_value
           c db0 H1 H2 H3).
Defined.

(** X24 on the example database: a category posted twice, with white
    space around the name the second time. *)
Lemma post_category_twice_witness :
  let name1 := Some (js "Keys") in
  let name2 := Some (js " Keys ") in
  normalizeName name1 = normalizeName name2
  ∧ post_category name2 (post_category name1 db0).1 = post_category name1 db0.
Proof.
  intros name1 name2.
  assert (normalizeName name1 = normalizeName name2) as Hname by by vm_compute.
  split; [done|]. exact (post_category_twice name1 name2 db0 Hname).
Defined.

(** X26 on the RGBA example, with three more octets. *)
Lemma detectPngHasAlpha_with_trailing_octets_witness :
  Png.detectPngHasAlpha png_rgba = Some true
  ∧ Png.detectPngHasAlpha (png_rgba ++ Png.bytes [0; 1; 2]) = Some true.
Proof.
  assert (Png.detectPngHasAlpha png_rgba = Some true) as Htrue by by vm_compute.
  split; [done|].
  exact (detectPngHasAlpha_with_trailing_octets png_rgba (Png.bytes [0; 1; 2]) Htrue).
Defined.

End MoreWitnesses.
